(** * vision-craft developer scripts: a shallow embedding and its properties

    The repository holds six Python scripts: three style checkers
    (check-header-guards.py, check-todos.py, check-namespaces.py), a
    clang-tidy wrapper, a code-quality runner and a coverage runner.

    Modelling conventions.
    - A Python [str] is a [text]: the list of the bytes of its UTF-8
      encoding, which is also what a string literal of this file denotes.
      A character is one byte (ASCII) or a lead byte with its continuation
      bytes.  White space ([str.isspace], [str.strip], the class [\s]) is
      Unicode white space, written out below.  [str.upper] maps ASCII letters
      as written out below and every other character through the Unicode
      case table, which is a parameter ([case_table]).  The classes [.] and
      [[^)]] are byte classes: in a UTF-8 text a byte below 128 is always a
      whole character, so a match of a pattern of the scripts starts and
      ends between characters, and a character is a line feed or [')']
      exactly when its first byte is.
    - [print(x)] appends [x] to the list of printed items; one item per call.
    - The file system is a function from a path to the result of opening and
      reading it as text: either the decoded content (newlines already
      translated to LF by Python's text layer) or the message of the
      exception that was raised.
    - [re] patterns are regular expressions with character classes; the truth
      value of [re.search] is membership of some substring in the pattern's
      language, decided here with derivatives.
    - [pathlib.Path] is modelled in its POSIX flavour. *)

From Stdlib Require Import Ascii String DecimalString.
From Stdlib Require Import Bool Arith ZArith Lia List Sorted.
Import ListNotations.

Local Open Scope char_scope.
Local Open Scope nat_scope.
Local Open Scope list_scope.

(* ================================================================== *)
(** ** Text: the fragment of Python's [str] that the scripts use       *)
(* ================================================================== *)

Definition text := list ascii.

(** A string literal of the source. *)
Definition str (s : string) : text := list_ascii_of_string s.

Definition code (c : ascii) : nat := nat_of_ascii c.

Definition bytes (codes : list nat) : text := map ascii_of_nat codes.

(** The white space characters of one byte: TAB, LF, VT, FF, CR, the four
    separators FS GS RS US, and SPACE. *)
Definition isspace (c : ascii) : bool :=
  ((9 <=? code c) && (code c <=? 13)) || ((28 <=? code c) && (code c <=? 32)).

(** The white space characters of more than one byte: U+0085, U+00A0,
    U+1680, U+2000 to U+200A, U+2028, U+2029, U+202F, U+205F and U+3000. *)
Definition wide_spaces : list text :=
  [bytes [194; 133]; bytes [194; 160]; bytes [225; 154; 128]]
  ++ map (fun n => bytes [226; 128; n])
         [128; 129; 130; 131; 132; 133; 134; 135; 136; 137; 138]
  ++ [bytes [226; 128; 168]; bytes [226; 128; 169]; bytes [226; 128; 175];
      bytes [226; 129; 159]; bytes [227; 128; 128]].

Definition text_eqb (a b : text) : bool :=
  if list_eq_dec ascii_dec a b then true else false.

(** [s.startswith(p)] *)
Fixpoint startswith (p s : text) : bool :=
  match p, s with
  | [], _ => true
  | _ :: _, [] => false
  | a :: p', b :: s' => Ascii.eqb a b && startswith p' s'
  end.

(** A byte that continues a character. *)
Definition is_continuation (b : ascii) : bool :=
  (128 <=? code b) && (code b <=? 191).

(** The characters of a text: each byte that does not continue a character,
    with the continuation bytes that follow it. *)
Fixpoint characters (s : text) : list text :=
  match s with
  | [] => []
  | b :: s' =>
      match characters s' with
      | (c :: t) :: cs =>
          if is_continuation c then (b :: c :: t) :: cs
          else [b] :: (c :: t) :: cs
      | cs => [b] :: cs
      end
  end.

(** A character that is not ASCII: no byte of it is below 128. *)
Definition wide (c : text) : Prop :=
  c <> [] /\ Forall (fun b => 128 <= code b) c.

(** What [str.upper] can write for such a character: no separator, no dot,
    no lower-case ASCII letter. *)
Definition upper_case_byte (b : ascii) : bool :=
  negb (Ascii.eqb b "/") && negb (Ascii.eqb b ".")
  && negb ((97 <=? code b) && (code b <=? 122)).

(** The Unicode case table, for the characters that are not ASCII:
    [upper_wide c] is [c.upper()], which may be longer than [c] (U+00DF gives
    "SS").  It is never empty and holds none of the bytes above. *)
Record case_table : Type := {
  upper_wide : text -> text;
  upper_wide_nonempty : forall c, wide c -> upper_wide c <> [];
  upper_wide_upper : forall c, wide c -> forallb upper_case_byte (upper_wide c) = true
}.

(** [c.upper()] for an ASCII character. *)
Definition upper_ascii (c : ascii) : ascii :=
  if (97 <=? code c) && (code c <=? 122) then ascii_of_nat (code c - 32) else c.

(** [c.upper()] for one character. *)
Definition upper_character (U : case_table) (c : text) : text :=
  match c with
  | [] => []
  | b :: t => if code b <? 128 then upper_ascii b :: t else upper_wide U c
  end.

(** [s.upper()]: character by character, without context. *)
Definition upper (U : case_table) (s : text) : text :=
  flat_map (upper_character U) (characters s).

(** [s.replace(old, new)] for one-character [old] and [new]. *)
Definition replace (old new : ascii) (s : text) : text :=
  map (fun c => if Ascii.eqb c old then new else c) s.

(** [sub in s] *)
Fixpoint contains (sub s : text) : bool :=
  startswith sub s ||
  match s with
  | [] => false
  | _ :: s' => contains sub s'
  end.

(** [s.partition(sep)] restricted to the case where [sep] occurs:
    the text before the leftmost occurrence and the text after it. *)
Fixpoint partition (sep s : text) : option (text * text) :=
  if startswith sep s then Some ([], skipn (length sep) s)
  else match s with
       | [] => None
       | c :: s' =>
           match partition sep s' with
           | Some (a, b) => Some (c :: a, b)
           | None => None
           end
       end.

(** [s.split(sep, 1)] *)
Definition split_once (sep s : text) : list text :=
  match partition sep s with
  | Some (a, b) => [a; b]
  | None => [s]
  end.

(** [s.split(c)] for a one-character separator. *)
Fixpoint split_char (sep : ascii) (s : text) : list text :=
  match s with
  | [] => [[]]
  | c :: s' =>
      if Ascii.eqb c sep then [] :: split_char sep s'
      else match split_char sep s' with
           | [] => [[c]]
           | w :: ws => (c :: w) :: ws
           end
  end.

(** [sep.join(parts)] *)
Fixpoint join (sep : text) (parts : list text) : text :=
  match parts with
  | [] => []
  | [p] => p
  | p :: ps => p ++ sep ++ join sep ps
  end.

(** [s] without one white space character at its start, if it has one;
    [wides] are the white space characters of more than one byte. *)
Definition after_space (wides : list text) (s : text) : option text :=
  match s with
  | [] => None
  | c :: s' =>
      if isspace c then Some s'
      else match find (fun ws => startswith ws s) wides with
           | Some ws => Some (skipn (length ws) s)
           | None => None
           end
  end.

Fixpoint drop_spaces (wides : list text) (fuel : nat) (s : text) : text :=
  match fuel with
  | 0 => s
  | S fuel' =>
      match after_space wides s with
      | Some s' => drop_spaces wides fuel' s'
      | None => s
      end
  end.

(** [s.lstrip()] *)
Definition lstrip (s : text) : text := drop_spaces wide_spaces (length s) s.

(** [s.rstrip()], on the text read backwards *)
Definition rstrip (s : text) : text :=
  rev (drop_spaces (map (@rev ascii) wide_spaces) (length s) (rev s)).

(** [s.strip()] *)
Definition strip (s : text) : text := rstrip (lstrip s).

(** [str(n)] for a non-negative integer, as an f-string prints it. *)
Definition str_of_nat (n : nat) : text :=
  str (NilEmpty.string_of_uint (Nat.to_uint n)).

(** [f.readlines()]: the lines of a text, each keeping its final LF. *)
Fixpoint readlines_from (cur : text) (s : text) : list text :=
  match s with
  | [] => match cur with [] => [] | _ => [rev cur] end
  | c :: s' =>
      if Ascii.eqb c "010" then rev (c :: cur) :: readlines_from [] s'
      else readlines_from (c :: cur) s'
  end.

Definition readlines (s : text) : list text := readlines_from [] s.

(** [enumerate(xs, start)] *)
Fixpoint enumerate {A} (start : nat) (xs : list A) : list (nat * A) :=
  match xs with
  | [] => []
  | x :: xs' => (start, x) :: enumerate (S start) xs'
  end.

(* ================================================================== *)
(** ** pathlib: [Path(p).as_posix()], POSIX flavour                     *)
(* ================================================================== *)

Module Pathlib.

(** [posixpath.splitroot]: the root ("", "/" or "//") and the rest. *)
Definition splitroot (p : text) : text * text :=
  match p with
  | "/" :: "/" :: "/" :: _ => (["/"], tl p)
  | "/" :: "/" :: rest => (["/"; "/"], rest)
  | "/" :: rest => (["/"], rest)
  | _ => ([], p)
  end.

Definition is_real_part (x : text) : bool :=
  negb (text_eqb x []) && negb (text_eqb x ["."]).

(** The parsed tail: components that are neither empty nor ".". *)
Definition parse_tail (rel : text) : list text :=
  filter is_real_part (split_char "/" rel).

(** [Path(p).as_posix()] (equal to [str(Path(p))] in this flavour) *)
Definition as_posix (p : text) : text :=
  match p with
  | [] => ["."]
  | _ =>
      let '(root, rel) := splitroot p in
      match root ++ join ["/"] (parse_tail rel) with
      | [] => ["."]
      | s => s
      end
  end.

End Pathlib.

(* ================================================================== *)
(** ** re: regular expressions and [re.search]                          *)
(* ================================================================== *)

Module Re.

Inductive regex : Type :=
| Fail                              (* matches nothing *)
| Eps                               (* the empty pattern *)
| Class (p : ascii -> bool)         (* one character of a class *)
| Cat (r1 r2 : regex)               (* r1 r2 *)
| Or (r1 r2 : regex)                (* r1|r2 *)
| Star (r : regex).                 (* r* *)

(** [r+] and [r?] *)
Definition Plus (r : regex) : regex := Cat r (Star r).
Definition Opt (r : regex) : regex := Or r Eps.

(** A literal: what [re.escape(s)] compiles to. *)
Fixpoint Lit (s : text) : regex :=
  match s with
  | [] => Eps
  | c :: s' => Cat (Class (Ascii.eqb c)) (Lit s')
  end.

(** One of several literals. *)
Definition one_of (alternatives : list text) : regex :=
  fold_right (fun s r => Or (Lit s) r) Fail alternatives.

(** [\s]: one white space character, of one byte or of more. *)
Definition space : regex := Or (Class isspace) (one_of wide_spaces).

(** [.] (without DOTALL) and a negated set [[^c]] for an ASCII [c], as byte
    classes. *)
Definition dot : regex := Class (fun c => negb (Ascii.eqb c "010")).
Definition not_char (x : ascii) : regex := Class (fun c => negb (Ascii.eqb c x)).

(** The language of a pattern. *)
Inductive matches : regex -> text -> Prop :=
| MEps : matches Eps []
| MClass p c : p c = true -> matches (Class p) [c]
| MCat r1 r2 s1 s2 :
    matches r1 s1 -> matches r2 s2 -> matches (Cat r1 r2) (s1 ++ s2)
| MOrL r1 r2 s : matches r1 s -> matches (Or r1 r2) s
| MOrR r1 r2 s : matches r2 s -> matches (Or r1 r2) s
| MStarNil r : matches (Star r) []
| MStarApp r s1 s2 :
    matches r s1 -> matches (Star r) s2 -> matches (Star r) (s1 ++ s2).

Fixpoint nullable (r : regex) : bool :=
  match r with
  | Fail => false
  | Eps => true
  | Class _ => false
  | Cat r1 r2 => nullable r1 && nullable r2
  | Or r1 r2 => nullable r1 || nullable r2
  | Star _ => true
  end.

(** The derivative of a pattern by a character. *)
Fixpoint deriv (c : ascii) (r : regex) : regex :=
  match r with
  | Fail => Fail
  | Eps => Fail
  | Class p => if p c then Eps else Fail
  | Cat r1 r2 =>
      if nullable r1 then Or (Cat (deriv c r1) r2) (deriv c r2)
      else Cat (deriv c r1) r2
  | Or r1 r2 => Or (deriv c r1) (deriv c r2)
  | Star r1 => Cat (deriv c r1) (Star r1)
  end.

(** [bool(pattern.match(s))]: some prefix of [s] is in the language. *)
Fixpoint match_here (r : regex) (s : text) : bool :=
  nullable r ||
  match s with
  | [] => false
  | c :: s' => match_here (deriv c r) s'
  end.

(** [bool(pattern.search(s))]: some substring of [s] is in the language. *)
Fixpoint search (r : regex) (s : text) : bool :=
  match_here r s ||
  match s with
  | [] => false
  | _ :: s' => search r s'
  end.

End Re.

(* ================================================================== *)
(** ** Printing: the writer monad of the checkers                       *)
(* ================================================================== *)

Module Out.

(** A computation that returns a value and prints some items. *)
Definition W (A : Type) : Type := (A * list text)%type.

Definition ret {A} (a : A) : W A := (a, []).

Definition bind {A B} (m : W A) (f : A -> W B) : W B :=
  let '(a, o1) := m in
  let '(b, o2) := f a in
  (b, o1 ++ o2).

Definition print (item : text) : W unit := (tt, [item]).

(** [for x in xs: s = body(x, s)] *)
Fixpoint for_each {A S} (xs : list A) (body : A -> S -> W S) (s : S) : W S :=
  match xs with
  | [] => ret s
  | x :: xs' => bind (body x s) (for_each xs' body)
  end.

Definition value {A} (m : W A) : A := fst m.
Definition printed {A} (m : W A) : list text := snd m.

End Out.

Declare Scope out_scope.
Delimit Scope out_scope with out.
Notation "x <- m ;; k" := (Out.bind m (fun x => k))
  (at level 61, m at next level, right associativity) : out_scope.
Notation "m ;; k" := (Out.bind m (fun _ => k))
  (at level 61, right associativity) : out_scope.

(** What opening and reading a file gives. *)
Inductive read_result : Type :=
| ReadOk (content : text)
| ReadErr (message : text).      (* [str(e)] of the exception raised *)

Definition filesystem := text -> read_result.

(* ================================================================== *)
(** ** scripts/check-header-guards.py                                   *)
(* ================================================================== *)

Module HeaderGuards.
Import Out Re.
Local Open Scope out_scope.

Section Script.
(** The case table that [str.upper] consults. *)
Variable U : case_table.

(** Lines 10-18 of [check_header_guard]: the expected guard name. *)
Definition expected_guard (filepath : text) : text :=
  let relative_path := Pathlib.as_posix filepath in
  let relative_path :=
    if contains (str "src/") relative_path
    then nth 1 (split_once (str "src/") relative_path) []
    else relative_path in
  upper U (replace "." "_" (replace "/" "_" relative_path)).

Definition ifndef_pattern (guard : text) : regex :=
  Cat (Lit (str "#ifndef")) (Cat (Plus space) (Lit guard)).

Definition define_pattern (guard : text) : regex :=
  Cat (Lit (str "#define")) (Cat (Plus space) (Lit guard)).

Definition missing_guard_message (filepath guard : text) : text :=
  filepath ++ str ": Missing proper header guard (expected: " ++ guard
           ++ str " or #pragma once)".

Definition read_error_message (filepath message : text) : text :=
  str "Error reading " ++ filepath ++ str ": " ++ message.

(** Lines 27-42: the predicate on the content that was read. *)
Definition check_content (filepath content : text) : W bool :=
  let expected_guard := expected_guard filepath in
  if contains (str "#pragma once") content then ret true
  else
    let has_ifndef := search (ifndef_pattern expected_guard) content in
    let has_define := search (define_pattern expected_guard) content in
    if has_ifndef && has_define then ret true
    else
      print (missing_guard_message filepath expected_guard) ;;
      ret false.

Definition check_header_guard (fs : filesystem) (filepath : text) : W bool :=
  match fs filepath with
  | ReadErr e =>
      print (read_error_message filepath e) ;;
      ret false
  | ReadOk content => check_content filepath content
  end.

Definition summary (count : nat) : text :=
  ["010"] ++ str_of_nat count ++ str " file(s) with header guard issues".

(** [main]; [sys_argv] is [sys.argv], the result is the exit status. *)
Definition main (fs : filesystem) (sys_argv : list text) : W Z :=
  if length sys_argv <? 2 then ret 0%Z
  else
    let files := tl sys_argv in
    failed <- for_each files
                (fun filepath failed =>
                   ok <- check_header_guard fs filepath ;;
                   ret (if negb ok then failed ++ [filepath] else failed))
                [] ;;
    match failed with
    | _ :: _ =>
        print (summary (length failed)) ;;
        ret 1%Z
    | [] => ret 0%Z
    end.

End Script.

End HeaderGuards.

(* ================================================================== *)
(** ** scripts/check-todos.py                                           *)
(* ================================================================== *)

Module Todos.
Import Out Re.
Local Open Scope out_scope.

(** [(TODO|FIXME)] *)
Definition keyword : regex := Or (Lit (str "TODO")) (Lit (str "FIXME")).

(** [(\([^)]+\))?] *)
Definition attribution : regex :=
  Opt (Cat (Lit (str "(")) (Cat (Plus (not_char ")")) (Lit (str ")")))).

(** [//(TODO|FIXME)(\([^)]+\))?:\s+.+] *)
Definition valid_pattern : regex :=
  Cat (Lit (str "//"))
    (Cat keyword
       (Cat attribution
          (Cat (Lit (str ":")) (Cat (Plus space) (Plus dot))))).

(** [//(TODO|FIXME)] *)
Definition todo_pattern : regex := Cat (Lit (str "//")) keyword.

Definition issue (i : nat) (line : text) : text :=
  str "  Line " ++ str_of_nat i ++ str ": " ++ strip line.

(** The body of the loop of lines 20-24, for line number [i]. *)
Definition visit (issues : list text) (numbered : nat * text) : list text :=
  let '(i, line) := numbered in
  if search todo_pattern line then
    if negb (search valid_pattern line) then issues ++ [issue i line]
    else issues
  else issues.

(** Lines 16-24: [issues] after all lines were visited. *)
Definition collect_issues (lines : list text) : list text :=
  fold_left visit (enumerate 1 lines) [].

Definition format_hint : text :=
  str "  TODO/FIXME must be formatted as: // TODO: description".

Definition read_error_message (filepath message : text) : text :=
  str "Error reading " ++ filepath ++ str ": " ++ message.

(** Lines 26-33: the report and the verdict. *)
Definition report (filepath : text) (issues : list text) : W bool :=
  match issues with
  | _ :: _ =>
      print (filepath ++ str ":") ;;
      print format_hint ;;
      for_each issues (fun issue _ => print issue) tt ;;
      ret false
  | [] => ret true
  end.

Definition check_lines (filepath : text) (lines : list text) : W bool :=
  report filepath (collect_issues lines).

Definition check_todos (fs : filesystem) (filepath : text) : W bool :=
  match fs filepath with
  | ReadErr e =>
      print (read_error_message filepath e) ;;
      ret false
  | ReadOk content => check_lines filepath (readlines content)
  end.

Definition summary (count : nat) : text :=
  ["010"] ++ str_of_nat count ++ str " file(s) with TODO/FIXME format issues".

Definition main (fs : filesystem) (sys_argv : list text) : W Z :=
  if length sys_argv <? 2 then ret 0%Z
  else
    let files := tl sys_argv in
    failed <- for_each files
                (fun filepath failed =>
                   ok <- check_todos fs filepath ;;
                   ret (if negb ok then failed ++ [filepath] else failed))
                [] ;;
    match failed with
    | _ :: _ =>
        print (summary (length failed)) ;;
        ret 1%Z
    | [] => ret 0%Z
    end.

End Todos.

(* ================================================================== *)
(** ** scripts/check-namespaces.py                                      *)
(* ================================================================== *)

Module Namespaces.
Import Out.
Local Open Scope out_scope.

Definition read_error_message (filepath message : text) : text :=
  str "Error reading " ++ filepath ++ str ": " ++ message.

(** [check_namespaces]: after a successful read the two [findall] results
    are bound to local names that nothing reads, and [True] is returned. *)
Definition check_namespaces (fs : filesystem) (filepath : text) : W bool :=
  match fs filepath with
  | ReadErr e =>
      print (read_error_message filepath e) ;;
      ret false
  | ReadOk content => ret true
  end.

Definition summary (count : nat) : text :=
  ["010"] ++ str_of_nat count ++ str " file(s) with namespace format issues".

Definition main (fs : filesystem) (sys_argv : list text) : W Z :=
  if length sys_argv <? 2 then ret 0%Z
  else
    let files := tl sys_argv in
    failed <- for_each files
                (fun filepath failed =>
                   ok <- check_namespaces fs filepath ;;
                   ret (if negb ok then failed ++ [filepath] else failed))
                [] ;;
    match failed with
    | _ :: _ =>
        print (summary (length failed)) ;;
        ret 1%Z
    | [] => ret 0%Z
    end.

End Namespaces.

(* ================================================================== *)
(** ** argparse, as far as the scripts observe it                       *)
(* ================================================================== *)

(** [parser.parse_args()] either gives the namespace of parsed values or
    leaves the process from inside the library ([SystemExit]: status 2 with a
    usage message on stderr, or status 0 after [--help]).  What it writes to
    stdout in the second case is carried along. *)
Inductive parse_outcome (A : Type) : Type :=
| Parsed (args : A)
| ParserExit (status : Z) (stdout : list text).
Arguments Parsed {A} args.
Arguments ParserExit {A} status stdout.

(** How a [main] that is run as [sys.exit(main())] ends. *)
Inductive ending : Type :=
| Returns (value : Z)               (* [main] returned [value] *)
| LeftInParser (status : Z).        (* [SystemExit] raised by argparse *)

Definition exit_status (e : ending) : Z :=
  match e with
  | Returns v => v
  | LeftInParser s => s
  end.

(* ================================================================== *)
(** ** scripts/run-clang-tidy.py                                        *)
(* ================================================================== *)

Module ClangTidy.
Import Out.
Local Open Scope out_scope.

Record namespace : Type := {
  config_file : text;
  header_filter : text;
  files : list text
}.

Definition skip_notice (n : nat) : text :=
  str "clang-tidy: Skipping " ++ str_of_nat n
      ++ str " file(s) (requires build configuration)".

Definition note : text :=
  str "Note: Run 'cmake --build build --target tidy-all' for full static analysis".

(** Lines 17-25: [main] once [parse_args] has returned [args]. *)
Definition run (args : namespace) : W Z :=
  match files args with
  | [] =>
      print (str "No files to check") ;;
      ret 0%Z
  | _ :: _ =>
      print (skip_notice (length (files args))) ;;
      print note ;;
      ret 0%Z
  end.

Section Main.
(** The parser that lines 10-13 build: two options and [files]. *)
Variable parse_args : list text -> parse_outcome namespace.

Definition main (sys_argv : list text) : W ending :=
  match parse_args (tl sys_argv) with
  | ParserExit status out => (LeftInParser status, out)
  | Parsed args =>
      status <- run args ;;
      ret (Returns status)
  end.
End Main.

End ClangTidy.

(* ================================================================== *)
(** ** subprocess: blocking calls to external tools                     *)
(* ================================================================== *)

Module Proc.

(** The arguments of one [subprocess.run] call that decide how it ends. *)
Record request : Type := {
  cmd : list text;
  timeout : option nat;              (* seconds; [None] when not passed *)
  check : bool
}.

(** What the child does; the world decides.  [out] and [err] are what the
    child wrote, decoded as [text=True] asks; a child whose output cannot be
    decoded is a case of its own, [message] being [str] of the
    [UnicodeDecodeError]. *)
Inductive behaviour : Type :=
| Exits (seconds : nat) (rc : Z) (out err : text)
| Hangs                              (* never terminates by itself *)
| CannotLaunch (message : text)      (* [OSError] when spawning *)
| Garbles (seconds : nat) (rc : Z) (message : text).

Record completed_process : Type := {
  returncode : Z;
  stdout : text;
  stderr : text
}.

Inductive exn : Type :=
| OSError (message : text)
| TimeoutExpired (command : list text) (seconds : nat)
| CalledProcessError (rc : Z) (command : list text) (output : text)
| SystemExit (status : Z)
| KeyboardInterrupt
| UnicodeDecodeError (message : text).

(** [isinstance(e, Exception)] *)
Definition is_exception (e : exn) : bool :=
  match e with
  | SystemExit _ | KeyboardInterrupt => false
  | _ => true
  end.

Inductive outcome (A : Type) : Type :=
| Done (a : A)
| Raised (e : exn)
| Blocked.                           (* the call never returns *)
Arguments Done {A} a.
Arguments Raised {A} e.
Arguments Blocked {A}.

(** What a run has printed and which calls it has made, in order. *)
Record state : Type := {
  console : list text;
  calls : list request
}.

(** The child's behaviour may depend on the calls made before. *)
Definition world := list request -> request -> behaviour.

Definition M (A : Type) : Type := world -> state -> outcome A * state.

Definition ret {A} (a : A) : M A := fun _ st => (Done a, st).

Definition raise {A} (e : exn) : M A := fun _ st => (Raised e, st).

Definition bind {A B} (m : M A) (f : A -> M B) : M B :=
  fun w st =>
    match m w st with
    | (Done a, st') => f a w st'
    | (Raised e, st') => (Raised e, st')
    | (Blocked, st') => (Blocked, st')
    end.

Definition print (item : text) : M unit :=
  fun _ st => (Done tt, {| console := console st ++ [item]; calls := calls st |}).

(** [try: m  except Exception as e: h(e)] *)
Definition try_except {A} (m : M A) (h : exn -> M A) : M A :=
  fun w st =>
    match m w st with
    | (Raised e, st') => if is_exception e then h e w st' else (Raised e, st')
    | r => r
    end.

(** [try: m  except subprocess.CalledProcessError as e: h(e)] *)
Definition try_except_called {A} (m : M A) (h : exn -> M A) : M A :=
  fun w st =>
    match m w st with
    | (Raised (CalledProcessError rc c o), st') =>
        h (CalledProcessError rc c o) w st'
    | r => r
    end.

Definition finish (rq : request) (rc : Z) (out err : text)
  : outcome completed_process :=
  if check rq && negb (rc =? 0)%Z
  then Raised (CalledProcessError rc (cmd rq) out)
  else Done {| returncode := rc; stdout := out; stderr := err |}.

(** [subprocess.run(cmd, timeout=..., check=..., text=True)] with captured
    output: what was read is decoded before the exit status is looked at. *)
Definition run (rq : request) : M completed_process :=
  fun w st =>
    let st' := {| console := console st; calls := calls st ++ [rq] |} in
    match w (calls st) rq, timeout rq with
    | CannotLaunch m, _ => (Raised (OSError m), st')
    | Hangs, Some t => (Raised (TimeoutExpired (cmd rq) t), st')
    | Hangs, None => (Blocked, st')
    | Exits d rc out err, Some t =>
        if t <? d then (Raised (TimeoutExpired (cmd rq) t), st')
        else (finish rq rc out err, st')
    | Exits _ rc out err, None => (finish rq rc out err, st')
    | Garbles d _ m, Some t =>
        if t <? d then (Raised (TimeoutExpired (cmd rq) t), st')
        else (Raised (UnicodeDecodeError m), st')
    | Garbles _ _ m, None => (Raised (UnicodeDecodeError m), st')
    end.

(** [subprocess.run(cmd, timeout=..., check=...)] without pipes: nothing is
    captured, so nothing is decoded, and the result holds no output. *)
Definition run_plain (rq : request) : M completed_process :=
  fun w st =>
    let st' := {| console := console st; calls := calls st ++ [rq] |} in
    match w (calls st) rq, timeout rq with
    | CannotLaunch m, _ => (Raised (OSError m), st')
    | Hangs, Some t => (Raised (TimeoutExpired (cmd rq) t), st')
    | Hangs, None => (Blocked, st')
    | Exits d rc _ _, Some t | Garbles d rc _, Some t =>
        if t <? d then (Raised (TimeoutExpired (cmd rq) t), st')
        else (finish rq rc [] [], st')
    | Exits _ rc _ _, None | Garbles _ rc _, None => (finish rq rc [] [], st')
    end.

Fixpoint for_each {A S} (xs : list A) (body : A -> S -> M S) (s : S) : M S :=
  match xs with
  | [] => ret s
  | x :: xs' => bind (body x s) (for_each xs' body)
  end.

Definition start : state := {| console := []; calls := [] |}.

End Proc.

Declare Scope proc_scope.
Delimit Scope proc_scope with proc.
Notation "x <- m ;; k" := (Proc.bind m (fun x => k))
  (at level 61, m at next level, right associativity) : proc_scope.
Notation "m ;; k" := (Proc.bind m (fun _ => k))
  (at level 61, right associativity) : proc_scope.

(* ================================================================== *)
(** ** scripts/run-code-quality.py                                      *)
(* ================================================================== *)

Module CodeQuality.
Import Proc.
Local Open Scope proc_scope.

Record flags : Type := { format_only : bool; tidy_only : bool }.

Section Script.
(** [str(e)] for an exception. *)
Variable describe : exn -> text.
(** [Path(dir).glob(pattern)], the paths as strings. *)
Variable glob : text -> text -> list text.
(** [Path("build").exists()] *)
Variable build_exists : bool.
Variable parse_args : list text -> parse_outcome flags.

Definition run_command (cmd : list text) (description : text)
  : M (bool * text * text) :=
  print (str "[*] " ++ description) ;;
  try_except
    (result <- run {| cmd := cmd; timeout := Some 300; check := false |} ;;
     ret ((returncode result =? 0)%Z, stdout result, stderr result))
    (fun e => ret (false, [], describe e)).

Definition clang_format_paths : list text :=
  [str "clang-format"; str "C:/Program Files/LLVM/bin/clang-format.exe"].

Definition cpp_files : list text :=
  flat_map (fun pattern => glob (str "src") pattern ++ glob (str "tests") pattern)
           [str "**/*.cpp"; str "**/*.hpp"; str "**/*.h"].

(** The loop with [break] that looks for a working clang-format. *)
Fixpoint find_clang_format (paths : list text) : M (option text) :=
  match paths with
  | [] => ret None
  | path :: rest =>
      r <- run_command [path; str "--version"] [] ;;
      let '(success, _, _) := r in
      if success then ret (Some path) else find_clang_format rest
  end.

Definition run_clang_format_check : M bool :=
  print (["010"] ++ str "[FORMAT] Checking code formatting...") ;;
  match cpp_files with
  | [] =>
      print (str "No C++ files found") ;;
      ret true
  | _ :: _ =>
      found <- find_clang_format clang_format_paths ;;
      match found with
      | None =>
          print (str "clang-format not found") ;;
          ret false
      | Some clang_format =>
          issues <- for_each cpp_files
                      (fun file_path issues =>
                         r <- run_command
                                [clang_format; str "--dry-run"; str "--Werror"; file_path]
                                (str "Checking " ++ file_path) ;;
                         let '(success, _, _) := r in
                         ret (if negb success then issues + 1 else issues))
                      0 ;;
          print (str "Files checked: " ++ str_of_nat (length cpp_files)
                     ++ str ", Issues: " ++ str_of_nat issues) ;;
          ret (issues =? 0)
      end
  end.

Definition tidy_via_cmake : M bool :=
  r <- run_command
         [str "cmake"; str "--build"; str "build"; str "--target"; str "tidy-all"]
         (str "Running clang-tidy via CMake") ;;
  let '(success, _, _) := r in
  ret success.

Definition run_clang_tidy_check : M bool :=
  print (["010"] ++ str "[TIDY] Running static analysis...") ;;
  done <- (if build_exists then tidy_via_cmake else ret false) ;;
  if done then
    print (str "Static analysis completed") ;;
    ret true
  else
    print (str "CMake target not available, skipping clang-tidy") ;;
    ret true.

Definition rule : text := repeat "=" 50.

Definition main (sys_argv : list text) : M Z :=
  match parse_args (tl sys_argv) with
  | ParserExit status _ => raise (SystemExit status)
  | Parsed args =>
      print (str "Running code quality checks...") ;;
      print rule ;;
      success <- (if negb (tidy_only args) then
                    ok <- run_clang_format_check ;;
                    ret (if negb ok then false else true)
                  else ret true) ;;
      success <- (if negb (format_only args) then
                    ok <- run_clang_tidy_check ;;
                    ret (if negb ok then false else success)
                  else ret success) ;;
      print (["010"] ++ rule) ;;
      if success then
        print (str "[SUCCESS] All checks passed!") ;;
        ret 0%Z
      else
        print (str "[FAILED] Some checks failed") ;;
        ret 1%Z
  end.
End Script.

End CodeQuality.

(* ================================================================== *)
(** ** scripts/run-coverage.py: the command runner and the steps that
       only run commands                                               *)
(* ================================================================== *)

Module Coverage.
Import Proc.
Local Open Scope proc_scope.

(** The class [Colors]; its fields are emptied on some platforms. *)
Record colors : Type := {
  RED : text; GREEN : text; YELLOW : text; BLUE : text;
  CYAN : text; BOLD : text; NC : text
}.

Section Script.
Variable Colors : colors.
Variable describe : exn -> text.

Definition print_header (t : text) : M unit :=
  print [] ;;
  print (BLUE Colors ++ repeat "=" 70 ++ NC Colors) ;;
  print (BLUE Colors ++ BOLD Colors ++ str "  " ++ t ++ NC Colors) ;;
  print (BLUE Colors ++ repeat "=" 70 ++ NC Colors) ;;
  print [].

Definition print_step (t : text) : M unit :=
  print (GREEN Colors ++ str "→" ++ NC Colors ++ str " " ++ t).

Definition print_error (t : text) : M unit :=
  print (RED Colors ++ str "✗" ++ NC Colors ++ str " " ++ t).

Definition print_success (t : text) : M unit :=
  print (GREEN Colors ++ str "✓" ++ NC Colors ++ str " " ++ t).

Definition print_warning (t : text) : M unit :=
  print (YELLOW Colors ++ str "⚠" ++ NC Colors ++ str " " ++ t).

(** [run_command(cmd, check=check)]; no caller passes [cwd]. *)
Definition run_command (cmd : list text) (check : bool) : M completed_process :=
  try_except_called
    (run {| cmd := cmd; timeout := None; check := check |})
    (fun e =>
       print_error (str "Command failed: " ++ join (str " ") cmd) ;;
       print (match e with CalledProcessError _ _ o => o | _ => [] end) ;;
       raise e).

Definition configure_cmake (project_root build_dir vcpkg_toolchain : text)
  : M unit :=
  print_header (str "Configuring CMake with Coverage") ;;
  print_step (str "Running CMake configuration...") ;;
  result <- run_command
              [str "cmake"; str "-S"; project_root; str "-B"; build_dir;
               str "-DCMAKE_TOOLCHAIN_FILE=" ++ vcpkg_toolchain;
               str "-DENABLE_COVERAGE=ON"; str "-DBUILD_TESTS=ON";
               str "-DCMAKE_BUILD_TYPE=Debug"]
              true ;;
  print (stdout result) ;;
  print_success (str "CMake configuration complete").

Definition build_project (build_dir : text) : M unit :=
  print_header (str "Building Project") ;;
  print_step (str "Building project with coverage instrumentation...") ;;
  result <- run_command
              [str "cmake"; str "--build"; build_dir; str "--config";
               str "Debug"; str "-j"]
              true ;;
  (if negb (returncode result =? 0)%Z then print (stdout result) else ret tt) ;;
  print_success (str "Build complete").

Definition clean_coverage_data (build_dir : text) : M unit :=
  print_header (str "Cleaning Previous Coverage Data") ;;
  print_step (str "Running coverage-clean target...") ;;
  _ <- run_command
         [str "cmake"; str "--build"; build_dir; str "--target";
          str "coverage-clean"]
         false ;;
  print_success (str "Previous coverage data cleaned").



(** Lines 406-419: how the process ends when [body] is what [main()] does.
    The traceback goes to stderr and is not part of the console. *)
Definition entry (body : M unit) : M Z :=
  fun w st =>
    match body w st with
    | (Done _, st') => (Done 0%Z, st')
    | (Raised KeyboardInterrupt, st') =>
        (print [] ;; print_warning (str "Interrupted by user") ;; ret 130%Z) w st'
    | (Raised (SystemExit s), st') => (Done s, st')
    | (Raised e, st') =>
        (print [] ;;
         print_error (str "Unexpected error: " ++ describe e) ;;
         ret 1%Z) w st'
    | (Blocked, st') => (Blocked, st')
    end.
End Script.

End Coverage.

(* ================================================================== *)
(** ** pathlib: joining paths                                           *)
(* ================================================================== *)

Module PathJoin.

(** [posixpath.join(a, b)] *)
Definition posix_join (a b : text) : text :=
  if startswith ["/"] b then b
  else match a with
       | [] => b
       | _ :: _ => if Ascii.eqb (last a "/") "/" then a ++ b else a ++ ["/"] ++ b
       end.

(** [str(Path(a) / b)], a path being held as the text it prints as. *)
Definition joinpath (a b : text) : text := Pathlib.as_posix (posix_join a b).

End PathJoin.

(* ================================================================== *)
(** ** scripts/run-coverage.py: the steps that consult the environment,
       and [main]                                                      *)
(* ================================================================== *)

Module CoverageRun.
Import Proc PathJoin.
Local Open Scope proc_scope.

(** What the script asks its surroundings.  A path is held as the text it
    prints as, in the POSIX flavour of pathlib throughout: where
    [platform.system()] is "Windows" the script prints the same components
    separated by a backslash. *)
Record environment : Type := {
  which : text -> option text;       (* [shutil.which] *)
  vcpkg_root : option text;          (* [os.environ.get("VCPKG_ROOT")] *)
  system : text;                     (* [platform.system()] *)
  home : text;                       (* [str(Path.home())] *)
  (* [Path(p).exists()], as the file system stands after the calls made so
     far (the tools that were run create and remove files) *)
  path_exists : list request -> text -> bool;
  (* the message of the [OSError] that [shutil.rmtree(p)] raises, if it does *)
  rmtree_fault : text -> option text;
  (* the message of the [OSError] that [os.startfile(p)] raises, if it does *)
  startfile_fault : text -> option text;
  (* [f"{Path(p).stat().st_size / 1024:.1f}"]: the size in KB as printed *)
  report_size : text -> text;
  (* the user presses Ctrl-C during the call made after these calls *)
  interrupted : list request -> bool
}.

(** The parsed command line: [--clean], [--open], [--no-build]. *)
Record arguments : Type := {
  clean : bool;
  open : bool;
  no_build : bool
}.

(** [try: m  except SystemExit: h] *)
Definition try_except_exit {A} (m : M A) (h : M A) : M A :=
  fun w st =>
    match m w st with
    | (Raised (SystemExit _), st') => h w st'
    | r => r
    end.

Section Script.
Variable Colors : Coverage.colors.
Variable describe : exn -> text.
Variable env : environment.
(** [str(Path(__file__).parent.parent)] *)
Variable project_root : text.

Definition exists_ (p : text) : M bool :=
  fun _ st => (Done (path_exists env (calls st) p), st).

Definition windows : bool := text_eqb (system env) (str "Windows").

Definition check_command (command : text) : M bool :=
  match which env command with
  | Some (c :: result) =>
      Coverage.print_success Colors (command ++ str " found: " ++ c :: result) ;;
      ret true
  | _ =>
      Coverage.print_error Colors (command ++ str " not found in PATH") ;;
      ret false
  end.

(** [Path(root) / "scripts" / "buildsystems" / "vcpkg.cmake"] *)
Definition toolchain_under (root : text) : text :=
  joinpath (joinpath (joinpath root (str "scripts")) (str "buildsystems"))
           (str "vcpkg.cmake").

Definition default_path : text :=
  if windows
  then Pathlib.as_posix (str "C:/ProgramData/vcpkg/scripts/buildsystems/vcpkg.cmake")
  else toolchain_under (joinpath (home env) (str "vcpkg")).

Definition get_vcpkg_toolchain : M text :=
  from_root <- match vcpkg_root env with
               | Some (c :: root) =>
                   let toolchain := toolchain_under (Pathlib.as_posix (c :: root)) in
                   e <- exists_ toolchain ;;
                   ret (if e then Some toolchain else None)
               | _ => ret None
               end ;;
  match from_root with
  | Some toolchain => ret toolchain
  | None =>
      e <- exists_ default_path ;;
      if e then ret default_path
      else
        Coverage.print_error Colors (str "vcpkg toolchain not found at: " ++ default_path) ;;
        Coverage.print_warning Colors
          (str "Set VCPKG_ROOT environment variable or install vcpkg") ;;
        raise (SystemExit 1)
  end.

(** [validate_environment]; the result is [env["vcpkg_toolchain"]]. *)
Definition validate_environment : M text :=
  Coverage.print_header Colors (str "Validating Environment") ;;
  Coverage.print_step Colors (str "Checking for required tools...") ;;
  let missing_tools := false in
  ok <- check_command (str "cmake") ;;
  let missing_tools := if negb ok then true else missing_tools in
  ok <- check_command (str "llvm-cov") ;;
  let missing_tools := if negb ok then true else missing_tools in
  ok <- check_command (str "llvm-profdata") ;;
  let missing_tools := if negb ok then true else missing_tools in
  found <- try_except_exit
             (vcpkg_toolchain <- get_vcpkg_toolchain ;;
              Coverage.print_success Colors
                (str "vcpkg toolchain found: " ++ vcpkg_toolchain) ;;
              ret (Some vcpkg_toolchain))
             (ret None) ;;
  match found with
  | Some vcpkg_toolchain =>
      if missing_tools then
        Coverage.print_error Colors
          (str "Missing required tools. Please install them and try again.") ;;
        raise (SystemExit 1)
      else ret vcpkg_toolchain
  | None =>
      Coverage.print_error Colors
        (str "Missing required tools. Please install them and try again.") ;;
      raise (SystemExit 1)
  end.

(** [shutil.rmtree(p)] *)
Definition rmtree (p : text) : M unit :=
  match rmtree_fault env p with
  | Some message => raise (OSError message)
  | None => ret tt
  end.

Definition clean_build_directory (build_dir : text) : M unit :=
  Coverage.print_header Colors (str "Cleaning Build Directory") ;;
  e <- exists_ build_dir ;;
  if e then
    Coverage.print_step Colors (str "Removing " ++ build_dir ++ str "...") ;;
    rmtree build_dir ;;
    Coverage.print_success Colors (str "Build directory cleaned")
  else
    Coverage.print_warning Colors (str "Build directory doesn't exist, skipping clean").

(** [build_dir / "coverage" / "html" / "index.html"] *)
Definition html_report_of (build_dir : text) : text :=
  joinpath (joinpath (joinpath build_dir (str "coverage")) (str "html"))
           (str "index.html").

(** [build_dir / "coverage" / "coverage.profdata"] *)
Definition coverage_data_of (build_dir : text) : text :=
  joinpath (joinpath build_dir (str "coverage")) (str "coverage.profdata").

Definition run_coverage (build_dir : text) : M unit :=
  Coverage.print_header Colors (str "Running Tests with Coverage") ;;
  Coverage.print_step Colors
    (str "Running coverage target (this will run tests and generate reports)...") ;;
  result <- Coverage.run_command Colors
              [str "cmake"; str "--build"; build_dir; str "--target";
               str "coverage-html"]
              false ;;
  let html_report := html_report_of build_dir in
  e <- exists_ html_report ;;
  if negb e then
    Coverage.print_error Colors (str "HTML report was not generated") ;;
    print (stdout result) ;;
    raise (SystemExit 1)
  else
    Coverage.print_success Colors (str "Coverage reports generated").

Definition display_summary (build_dir : text) : M unit :=
  Coverage.print_header Colors (str "Coverage Summary") ;;
  Coverage.print_step Colors (str "Generating coverage summary...") ;;
  let test_exe := joinpath (joinpath build_dir (str "tests"))
                           (str "TestVisionCraftNodes") in
  let test_exe := if windows then test_exe ++ str ".exe" else test_exe in
  let coverage_data := coverage_data_of build_dir in
  result <- Coverage.run_command Colors
              [str "llvm-cov"; str "report"; test_exe;
               str "-instr-profile=" ++ coverage_data]
              false ;;
  if (returncode result =? 0)%Z then print (stdout result)
  else
    Coverage.print_warning Colors
      (str "Could not generate detailed summary (profdata may have format issues)") ;;
    Coverage.print_warning Colors (str "HTML report should still be available").

(** [os.startfile(p)] *)
Definition startfile (p : text) : M unit :=
  match startfile_fault env p with
  | Some message => raise (OSError message)
  | None => ret tt
  end.

(** [subprocess.run(cmd, check=True)]: nothing captured, no timeout. *)
Definition run_checked (cmd : list text) : M unit :=
  _ <- run_plain {| cmd := cmd; timeout := None; check := true |} ;;
  ret tt.

Definition open_report (html_report : text) : M unit :=
  Coverage.print_step Colors (str "Opening report in browser...") ;;
  try_except
    ((if windows then startfile html_report
      else if text_eqb (system env) (str "Darwin")
           then run_checked [str "open"; html_report]
           else run_checked [str "xdg-open"; html_report]) ;;
     Coverage.print_success Colors (str "Opened report in browser"))
    (fun e =>
       Coverage.print_warning Colors
         (str "Could not open browser automatically: " ++ describe e)).

Definition print_results (build_dir : text) (open_browser : bool) : M unit :=
  Coverage.print_header Colors (str "Results") ;;
  let html_report := html_report_of build_dir in
  let coverage_data := coverage_data_of build_dir in
  e <- exists_ html_report ;;
  (if e then
     Coverage.print_success Colors (str "HTML report generated: " ++ html_report) ;;
     Coverage.print_success Colors (str "Coverage data: " ++ coverage_data) ;;
     Coverage.print_step Colors
       (str "Report size: " ++ report_size env html_report ++ str " KB") ;;
     print [] ;;
     print (Coverage.BLUE Colors ++ str "To view the report:" ++ Coverage.NC Colors) ;;
     print (str "  " ++ Coverage.GREEN Colors ++ str "1." ++ Coverage.NC Colors
                ++ str " Open in browser: file:///" ++ html_report) ;;
     print (str "  " ++ Coverage.GREEN Colors ++ str "2." ++ Coverage.NC Colors
                ++ str " Or double-click: " ++ html_report) ;;
     if open_browser then
       print [] ;;
       open_report html_report
     else ret tt
   else
     Coverage.print_error Colors
       (str "HTML report not found. Check build output for errors.") ;;
     raise (SystemExit 1)) ;;
  print [] ;;
  print (Coverage.BLUE Colors ++ str "Additional coverage targets:"
           ++ Coverage.NC Colors) ;;
  print (str "  " ++ Coverage.GREEN Colors ++ str "•" ++ Coverage.NC Colors
           ++ str " cmake --build build --target coverage-report    (text report)") ;;
  print (str "  " ++ Coverage.GREEN Colors ++ str "•" ++ Coverage.NC Colors
           ++ str " cmake --build build --target coverage-summary   (brief summary)") ;;
  print (str "  " ++ Coverage.GREEN Colors ++ str "•" ++ Coverage.NC Colors
           ++ str " cmake --build build --target coverage-clean     (clean coverage data)") ;;
  print [].

Variable parse_args : list text -> parse_outcome arguments.

Definition main (sys_argv : list text) : M unit :=
  match parse_args (tl sys_argv) with
  | ParserExit status _ => raise (SystemExit status)
  | Parsed args =>
      let build_dir := joinpath project_root (str "build") in
      print [] ;;
      print (Coverage.CYAN Colors ++ Coverage.BOLD Colors
               ++ str "Vision-Craft Coverage Analysis" ++ Coverage.NC Colors) ;;
      print (Coverage.CYAN Colors ++ str "Project: " ++ project_root
               ++ Coverage.NC Colors) ;;
      vcpkg_toolchain <- validate_environment ;;
      (if clean args then clean_build_directory build_dir else ret tt) ;;
      (if negb (no_build args) then
         Coverage.configure_cmake Colors project_root build_dir vcpkg_toolchain ;;
         Coverage.build_project Colors build_dir ;;
         Coverage.clean_coverage_data Colors build_dir ;;
         run_coverage build_dir
       else
         Coverage.print_header Colors (str "Skipping Build (--no-build)") ;;
         Coverage.print_step Colors
           (str "Regenerating coverage report from existing data...") ;;
         run_coverage build_dir) ;;
      display_summary build_dir ;;
      print_results build_dir (open args) ;;
      Coverage.print_header Colors (str "Coverage Analysis Complete")
  end.


End Script.

End CoverageRun.

(* ================================================================== *)
(** * Vocabulary of the properties                                      *)
(* ================================================================== *)

(** [sub] occurs somewhere in [s]. *)
Definition occurs (sub s : text) : Prop :=
  exists pre post, s = pre ++ sub ++ post.

(** The files of a batch that fail a check, in the order given. *)
Definition failing (check : text -> Out.W bool) (files : list text) : list text :=
  filter (fun f => negb (Out.value (check f))) files.

(** What the checks of a batch print, file after file. *)
Definition diagnostics (check : text -> Out.W bool) (files : list text) : list text :=
  flat_map (fun f => Out.printed (check f)) files.

(** The summary that ends the output when, and only when, a file failed. *)
Definition trailer (summary : nat -> text) (m : nat) : list text :=
  if 0 <? m then [summary m] else [].

(** The contract of a checker's [main]: the exit status is 1 exactly when a
    file failed and 0 exactly when every check passed, the output is the
    per-file diagnostics followed by the summary when a file failed, and the
    summary shows the number of failing files. *)
Definition aggregates (main : list text -> Out.W Z) (check : text -> Out.W bool)
    (summary : nat -> text) : Prop :=
  forall (prog : text) (files : list text),
    let m := length (failing check files) in
    (Out.value (main (prog :: files)) = 1%Z <-> 0 < m) /\
    (Out.value (main (prog :: files)) = 0%Z <->
       forallb (fun f => Out.value (check f)) files = true) /\
    Out.printed (main (prog :: files)) = diagnostics check files ++ trailer summary m /\
    occurs (str_of_nat m) (summary m).

(** A checker keeps a fault on [filepath] local: the check of that file fails
    with [err] as its only diagnostic, and in any batch the files before and
    after it are still checked and reported, the run ending with status 1 and
    the summary. *)
Definition isolates_fault (main : list text -> Out.W Z) (check : text -> Out.W bool)
    (summary : nat -> text) (filepath err : text) : Prop :=
  check filepath = (false, [err]) /\
  forall (prog : text) (before after : list text),
    let files := before ++ filepath :: after in
    Out.value (main (prog :: files)) = 1%Z /\
    Out.printed (main (prog :: files)) =
      diagnostics check before ++ [err] ++ diagnostics check after
        ++ [summary (length (failing check files))].

(** Every file of the batch can be opened and decoded. *)
Definition all_readable (fs : filesystem) (files : list text) : Prop :=
  Forall (fun f => exists content, fs f = ReadOk content) files.

(** A path separator or a dot becomes an underscore. *)
Definition underscored (c : ascii) : ascii :=
  if Ascii.eqb c "/" || Ascii.eqb c "." then "_" else c.

(** What the guard derivation does to one ASCII character: a path separator
    or a dot becomes an underscore, anything else is upper-cased. *)
Definition guard_char (c : ascii) : ascii :=
  if Ascii.eqb c "/" || Ascii.eqb c "." then "_" else upper_ascii c.

(** The shape of one character: a byte and the continuation bytes after it. *)
Definition char_shape (c : text) : Prop :=
  exists b t, c = b :: t /\ forallb is_continuation t = true.

(** A text of ASCII characters only. *)
Definition is_ascii (s : text) : Prop := Forall (fun b => code b < 128) s.

(** [rel] is what follows the first occurrence of the four characters "src/"
    in [rp], wherever they stand (also at the end of a longer name, as in
    "mysrc/"), and the whole of [rp] when they do not occur. *)
Definition source_relative (rp rel : text) : Prop :=
  (~ occurs (str "src/") rp /\ rel = rp) \/
  (exists pre, rp = pre ++ str "src/" ++ rel /\
               ~ occurs (str "src/") (pre ++ str "src")).

(** One white space character: one of the ten of one byte, or one of those
    of more. *)
Definition space_char (c : text) : Prop :=
  (exists b, c = [b] /\ isspace b = true) \/ In c wide_spaces.

(** One or more white space characters. *)
Definition blank (ws : text) : Prop :=
  exists chars, chars <> [] /\ Forall space_char chars /\ ws = concat chars.

(** The directive [kw] applied to a name that begins with [guard]: the
    keyword, one or more white space characters, then the characters of
    [guard], anywhere in [content]. *)
Definition has_directive (kw guard content : text) : Prop :=
  exists pre ws post,
    content = pre ++ kw ++ ws ++ guard ++ post /\ blank ws.

(** When the header-guard predicate passes. *)
Definition guarded (guard content : text) : Prop :=
  occurs (str "#pragma once") content \/
  (has_directive (str "#ifndef") guard content /\
   has_directive (str "#define") guard content).

(** A header made of the two directive lines, with tokens [t1] and [t2]. *)
Definition two_directives (t1 t2 : text) : text :=
  str "#ifndef " ++ t1 ++ ["010"] ++ str "#define " ++ t2 ++ ["010"].

(** Letters, digits and the underscore. *)
Definition is_ident (c : ascii) : bool :=
  ((48 <=? code c) && (code c <=? 57)) || ((65 <=? code c) && (code c <=? 90)) ||
  ((97 <=? code c) && (code c <=? 122)) || (code c =? 95).

Definition identifier (t : text) : Prop := forallb is_ident t = true.

(** The line holds a marker: "//TODO" or "//FIXME", slashes and keyword
    adjacent. *)
Definition has_marker (line : text) : Prop :=
  occurs (str "//TODO") line \/ occurs (str "//FIXME") line.

(** The stricter format: the marker, optionally an attribution in
    parentheses, a colon, one or more white space characters, then one or
    more characters other than a line feed (which may themselves be blank). *)
Definition well_formed_annotation (m : text) : Prop :=
  exists kw attr ws txt,
    m = str "//" ++ kw ++ attr ++ str ":" ++ ws ++ txt /\
    (kw = str "TODO" \/ kw = str "FIXME") /\
    (attr = [] \/
     exists who, attr = str "(" ++ who ++ str ")" /\ who <> [] /\
                 forallb (fun c => negb (Ascii.eqb c ")")) who = true) /\
    blank ws /\
    (txt <> [] /\ forallb (fun c => negb (Ascii.eqb c "010")) txt = true).

Definition follows_format (line : text) : Prop :=
  exists pre m post, line = pre ++ m ++ post /\ well_formed_annotation m.

(** A malformed annotation line. *)
Definition violation (line : text) : Prop :=
  has_marker line /\ ~ follows_format line.

(** The test that the loop body of [check_todos] makes on a line. *)
Definition flagged (line : text) : bool :=
  Re.search Todos.todo_pattern line && negb (Re.search Todos.valid_pattern line).

(** The call carries the fixed timeout of 300 seconds. *)
Definition bounded (rq : Proc.request) : Prop := Proc.timeout rq = Some 300.

(** The computation always returns (it neither raises nor blocks), whatever
    the external tools do, and every call it makes is [bounded]. *)
Definition contained {A : Type} (m : Proc.M A) : Prop :=
  forall (w : Proc.world) (st : Proc.state),
  exists (a : A) (st' : Proc.state) (new : list Proc.request),
    m w st = (Proc.Done a, st') /\
    Proc.calls st' = Proc.calls st ++ new /\
    Forall bounded new.

(** The state once [printed] went to the console and [rq] was issued. *)
Definition after_call (st : Proc.state) (printed : list text) (rq : Proc.request)
  : Proc.state :=
  {| Proc.console := Proc.console st ++ printed;
     Proc.calls := Proc.calls st ++ [rq] |}.

(** A case table with two entries of Unicode's, U+00DF (sharp s, which gives
    "SS") and U+00E9 (e acute, which gives U+00C9); it leaves every other
    character as it is, and serves where a concrete table is needed. *)
Definition sample_upper (c : text) : text :=
  if text_eqb c (bytes [195; 159]) then str "SS"
  else if text_eqb c (bytes [195; 169]) then bytes [195; 137]
  else c.

Definition sample_table : case_table.
Proof.
  refine {| upper_wide := sample_upper |}.
  - intros c [Hne _]. unfold sample_upper.
    destruct (text_eqb c (bytes [195; 159])); [discriminate|].
    destruct (text_eqb c (bytes [195; 169])); [discriminate | exact Hne].
  - intros c [_ Hwide]. unfold sample_upper.
    destruct (text_eqb c (bytes [195; 159])); [reflexivity|].
    destruct (text_eqb c (bytes [195; 169])); [reflexivity|].
    apply forallb_forall. intros b Hb.
    rewrite Forall_forall in Hwide. specialize (Hwide b Hb). revert Hwide.
    destruct b as [[] [] [] [] [] [] [] []]; vm_compute; intros H;
      first [reflexivity | exfalso; repeat apply le_S_n in H; inversion H].
Defined.

(** The palette when colours are disabled. *)
Definition no_colors : Coverage.colors :=
  {| Coverage.RED := []; Coverage.GREEN := []; Coverage.YELLOW := [];
     Coverage.BLUE := []; Coverage.CYAN := []; Coverage.BOLD := [];
     Coverage.NC := [] |}.

(** Lower-case ASCII letters. *)
Definition is_lower (c : ascii) : bool := (97 <=? code c) && (code c <=? 122).

(** A component of a parsed path: not empty, not ".", without separator. *)
Definition real_part (x : text) : Prop :=
  x <> [] /\ x <> ["."] /\ ~ In "/" x.

(** The three roots a POSIX path can have. *)
Definition root_ok (root : text) : Prop :=
  root = [] \/ root = ["/"] \/ root = ["/"; "/"].

(** How a parsed path is printed. *)
Definition render (root : text) (parts : list text) : text :=
  match root ++ join ["/"] parts with
  | [] => ["."]
  | s => s
  end.

(** The shape of a line that [readlines] gives: some characters other than
    LF, then possibly one LF, and not nothing. *)
Definition line_shape (l : text) : Prop :=
  l <> [] /\
  exists body, ~ In "010" body /\ (l = body \/ l = body ++ ["010"]).

Definition ends_with_newline (l : text) : Prop :=
  exists body, l = body ++ ["010"].

(** A checker's run prints nothing exactly when it exits with status 0, and
    each of its checks prints nothing exactly when it passes. *)
Definition silent_when_passing (main : list text -> Out.W Z)
    (check : text -> Out.W bool) : Prop :=
  (forall f, Out.value (check f) = true <-> Out.printed (check f) = []) /\
  (forall prog files,
     Out.value (main (prog :: files)) = 0%Z <->
     Out.printed (main (prog :: files)) = []).

(** How two batches combine: the joint run fails exactly when one of the two
    runs fails, reordering the files does not change the status, and the
    numbers of failing files add up. *)
Definition combines (main : list text -> Out.W Z) (check : text -> Out.W bool)
  : Prop :=
  forall (prog : text) (xs ys : list text),
    Out.value (main (prog :: xs ++ ys)) =
      Z.max (Out.value (main (prog :: xs))) (Out.value (main (prog :: ys))) /\
    Out.value (main (prog :: ys ++ xs)) = Out.value (main (prog :: xs ++ ys)) /\
    length (failing check (xs ++ ys)) =
      length (failing check xs) + length (failing check ys).

(** The computation always returns, and its result [a] and the calls [new]
    it has made satisfy [P]. *)
Definition returns_with {A : Type} (m : Proc.M A)
    (P : A -> list Proc.request -> Prop) : Prop :=
  forall (w : Proc.world) (st : Proc.state),
  exists (a : A) (st' : Proc.state) (new : list Proc.request),
    m w st = (Proc.Done a, st') /\
    Proc.calls st' = Proc.calls st ++ new /\
    P a new.

(** The child ended within 300 seconds with exit status 0, and what it wrote
    could be decoded. *)
Definition succeeds (b : Proc.behaviour) : bool :=
  match b with
  | Proc.Exits d rc _ _ => negb (300 <? d) && (rc =? 0)%Z
  | _ => false
  end.

(** The calls of the code-quality runner. *)
Definition quality_call (cmd : list text) : Proc.request :=
  {| Proc.cmd := cmd; Proc.timeout := Some 300; Proc.check := false |}.

Definition version_probe (path : text) : Proc.request :=
  quality_call [path; str "--version"].

Definition format_call (clang_format file : text) : Proc.request :=
  quality_call [clang_format; str "--dry-run"; str "--Werror"; file].

Definition tidy_call : Proc.request :=
  quality_call [str "cmake"; str "--build"; str "build"; str "--target";
                str "tidy-all"].

(** What the coverage script's printing helpers write. *)
Definition banner (C : Coverage.colors) (t : text) : list text :=
  [ [];
    Coverage.BLUE C ++ repeat "=" 70 ++ Coverage.NC C;
    Coverage.BLUE C ++ Coverage.BOLD C ++ str "  " ++ t ++ Coverage.NC C;
    Coverage.BLUE C ++ repeat "=" 70 ++ Coverage.NC C;
    [] ].

Definition step_line (C : Coverage.colors) (t : text) : text :=
  Coverage.GREEN C ++ str "→" ++ Coverage.NC C ++ str " " ++ t.

Definition success_line (C : Coverage.colors) (t : text) : text :=
  Coverage.GREEN C ++ str "✓" ++ Coverage.NC C ++ str " " ++ t.

Definition error_line (C : Coverage.colors) (t : text) : text :=
  Coverage.RED C ++ str "✗" ++ Coverage.NC C ++ str " " ++ t.

Definition warning_line (C : Coverage.colors) (t : text) : text :=
  Coverage.YELLOW C ++ str "⚠" ++ Coverage.NC C ++ str " " ++ t.

(** The calls of the coverage script: no timeout. *)
Definition coverage_call (cmd : list text) (check : bool) : Proc.request :=
  {| Proc.cmd := cmd; Proc.timeout := None; Proc.check := check |}.

Definition configure_call (project_root build_dir toolchain : text) : Proc.request :=
  coverage_call
    [str "cmake"; str "-S"; project_root; str "-B"; build_dir;
     str "-DCMAKE_TOOLCHAIN_FILE=" ++ toolchain;
     str "-DENABLE_COVERAGE=ON"; str "-DBUILD_TESTS=ON";
     str "-DCMAKE_BUILD_TYPE=Debug"]
    true.

Definition build_call (build_dir : text) : Proc.request :=
  coverage_call
    [str "cmake"; str "--build"; build_dir; str "--config"; str "Debug"; str "-j"]
    true.

Definition coverage_clean_call (build_dir : text) : Proc.request :=
  coverage_call
    [str "cmake"; str "--build"; build_dir; str "--target"; str "coverage-clean"]
    false.

(** The state once [printed] went to the console, without a new call. *)
Definition after_print (st : Proc.state) (printed : list text) : Proc.state :=
  {| Proc.console := Proc.console st ++ printed; Proc.calls := Proc.calls st |}.

(** [shutil.which] found the tool. *)
Definition tool_found (env : CoverageRun.environment) (command : text) : bool :=
  match CoverageRun.which env command with
  | Some (_ :: _) => true
  | _ => false
  end.

(** The line that [check_command] prints for a tool. *)
Definition tool_line (C : Coverage.colors) (env : CoverageRun.environment)
    (command : text) : text :=
  match CoverageRun.which env command with
  | Some (c :: result) => success_line C (command ++ str " found: " ++ c :: result)
  | _ => error_line C (command ++ str " not found in PATH")
  end.

Definition required_tools : list text :=
  [str "cmake"; str "llvm-cov"; str "llvm-profdata"].

(** The toolchain file under VCPKG_ROOT, when that variable is set. *)
Definition root_candidate (env : CoverageRun.environment) : option text :=
  match CoverageRun.vcpkg_root env with
  | Some (c :: root) => Some (CoverageRun.toolchain_under (Pathlib.as_posix (c :: root)))
  | _ => None
  end.

Definition coverage_html_call (build_dir : text) : Proc.request :=
  coverage_call
    [str "cmake"; str "--build"; build_dir; str "--target"; str "coverage-html"]
    false.

Definition summary_call (env : CoverageRun.environment) (build_dir : text)
  : Proc.request :=
  coverage_call
    [str "llvm-cov"; str "report";
     (let test_exe := PathJoin.joinpath (PathJoin.joinpath build_dir (str "tests"))
                                        (str "TestVisionCraftNodes") in
      if CoverageRun.windows env then test_exe ++ str ".exe" else test_exe);
     str "-instr-profile=" ++ CoverageRun.coverage_data_of build_dir]
    false.

(** The calls that opening the report makes: none on Windows. *)
Definition opener_calls (env : CoverageRun.environment) (html_report : text)
  : list Proc.request :=
  if CoverageRun.windows env then []
  else if text_eqb (CoverageRun.system env) (str "Darwin")
       then [coverage_call [str "open"; html_report] true]
       else [coverage_call [str "xdg-open"; html_report] true].

(** The processes of a coverage run, in the order in which they start. *)
Definition pipeline (env : CoverageRun.environment) (args : CoverageRun.arguments)
    (project_root toolchain : text) : list Proc.request :=
  let build_dir := PathJoin.joinpath project_root (str "build") in
  (if CoverageRun.no_build args then []
   else [configure_call project_root build_dir toolchain;
         build_call build_dir;
         coverage_clean_call build_dir])
  ++ [coverage_html_call build_dir; summary_call env build_dir]
  ++ (if CoverageRun.open args
      then opener_calls env (CoverageRun.html_report_of build_dir)
      else []).

Definition prefix_of (new seq : list Proc.request) : Prop :=
  exists rest, seq = new ++ rest.

(** The calls that [m] makes are an initial segment of [seq], and all of
    [seq] when [m] returns. *)
Definition in_order {A : Type} (seq : list Proc.request) (m : Proc.M A) : Prop :=
  forall (w : Proc.world) (st : Proc.state),
  exists new,
    Proc.calls (snd (m w st)) = Proc.calls st ++ new /\
    prefix_of new seq /\
    (forall a, fst (m w st) = Proc.Done a -> new = seq).

(** Where the vcpkg toolchain file is found, the file system being as it is
    after the calls [h]: under VCPKG_ROOT first, else at the default place. *)
Definition located (env : CoverageRun.environment) (h : list Proc.request)
  : option text :=
  match root_candidate env with
  | Some t =>
      if CoverageRun.path_exists env h t then Some t
      else if CoverageRun.path_exists env h (CoverageRun.default_path env)
           then Some (CoverageRun.default_path env) else None
  | None =>
      if CoverageRun.path_exists env h (CoverageRun.default_path env)
      then Some (CoverageRun.default_path env) else None
  end.

(** The toolchain file that a run uses ([[]] when none is found, and the run
    stops before it is used). *)
Definition chosen_toolchain (env : CoverageRun.environment) (h : list Proc.request)
  : text :=
  match located env h with
  | Some t => t
  | None => []
  end.

(** A Linux machine with every tool installed, vcpkg under /opt/vcpkg and a
    file system where every path asked for exists. *)
Definition linux_box : CoverageRun.environment :=
  {| CoverageRun.which := fun c => Some (str "/usr/bin/" ++ c);
     CoverageRun.vcpkg_root := Some (str "/opt/vcpkg");
     CoverageRun.system := str "Linux";
     CoverageRun.home := str "/home/dev";
     CoverageRun.path_exists := fun _ _ => true;
     CoverageRun.rmtree_fault := fun _ => None;
     CoverageRun.startfile_fault := fun _ => None;
     CoverageRun.report_size := fun _ => str "12.5";
     CoverageRun.interrupted := fun _ => false |}.



(** Every tool ends at once with the given status and output. *)
Definition every_tool_ends (rc : Z) (out : text) : Proc.world :=
  fun _ _ => Proc.Exits 1 rc out [].










(** What [validate_environment] prints first: the banner, the step line and
    one line for each required tool. *)
Definition checked_lines (C : Coverage.colors) (env : CoverageRun.environment)
  : list text :=
  banner C (str "Validating Environment")
    ++ [step_line C (str "Checking for required tools...");
        tool_line C env (str "cmake");
        tool_line C env (str "llvm-cov");
        tool_line C env (str "llvm-profdata")].

(* ================================================================== *)
(** * Properties                                                        *)
(* ================================================================== *)

(** ** Text *)

Lemma startswith_spec (p s : text) :
  startswith p s = true <-> exists post, s = p ++ post.
Proof.
  revert s; induction p as [|a p IH]; intros s; simpl.
  - split; [intros _; now exists s | reflexivity].
  - destruct s as [|b s].
    + split; [discriminate | intros [post H]; discriminate].
    + rewrite andb_true_iff, Ascii.eqb_eq, IH. split.
      * intros [-> [post ->]]. now exists post.
      * intros [post H]. injection H as -> ->. split; [reflexivity | now exists post].
Qed.

Lemma contains_spec (sub s : text) :
  contains sub s = true <-> exists pre post, s = pre ++ sub ++ post.
Proof.
  induction s as [|c s IH]; simpl; rewrite orb_true_iff.
  - split.
    + intros [H | H]; [|discriminate].
      apply startswith_spec in H as [post H]. now exists [], post.
    + intros [pre [post H]]. left. apply startswith_spec.
      destruct pre; [now exists post | discriminate].
  - rewrite IH, startswith_spec. split.
    + intros [[post H] | [pre [post H]]].
      * now exists [], post.
      * exists (c :: pre), post. simpl. now rewrite H.
    + intros [[|a pre] [post H]]; simpl in H.
      * left; now exists post.
      * right. injection H as _ H. now exists pre, post.
Qed.

(** ** Regular expressions: the matcher decides the language *)

Module ReFacts.
Import Re.

Lemma cat_spec (r1 r2 : regex) (s : text) :
  matches (Cat r1 r2) s <->
  exists s1 s2, s = s1 ++ s2 /\ matches r1 s1 /\ matches r2 s2.
Proof.
  split.
  - inversion 1; subst. eauto.
  - intros (s1 & s2 & -> & H1 & H2). now constructor.
Qed.

Lemma or_spec (r1 r2 : regex) (s : text) :
  matches (Or r1 r2) s <-> matches r1 s \/ matches r2 s.
Proof.
  split.
  - inversion 1; subst; auto.
  - intros [H | H]; [now apply MOrL | now apply MOrR].
Qed.

Lemma class_spec (p : ascii -> bool) (s : text) :
  matches (Class p) s <-> exists c, s = [c] /\ p c = true.
Proof.
  split.
  - inversion 1; subst; eauto.
  - intros (c & -> & H). now constructor.
Qed.

Lemma eps_spec (s : text) : matches Eps s <-> s = [].
Proof.
  split; [inversion 1; reflexivity | intros ->; constructor].
Qed.

Lemma nullable_spec (r : regex) : nullable r = true <-> matches r [].
Proof.
  induction r; simpl.
  - split; [discriminate | inversion 1].
  - split; [constructor | reflexivity].
  - split; [discriminate | inversion 1].
  - rewrite andb_true_iff, IHr1, IHr2. split.
    + intros [H1 H2]. change (@nil ascii) with (@nil ascii ++ []). now constructor.
    + intros H. apply cat_spec in H as (s1 & s2 & E & H1 & H2).
      symmetry in E. apply app_eq_nil in E as [-> ->]. now split.
  - rewrite orb_true_iff, IHr1, IHr2. split.
    + intros [H | H]; [now apply MOrL | now apply MOrR].
    + inversion 1; subst; [now left | now right].
  - split; [constructor | reflexivity].
Qed.

(** A non-empty word of [r*] starts with a non-empty word of [r]. *)
Lemma star_cons (r : regex) (c : ascii) (s : text) :
  matches (Star r) (c :: s) ->
  exists s1 s2, s = s1 ++ s2 /\ matches r (c :: s1) /\ matches (Star r) s2.
Proof.
  intros H. remember (Star r) as q eqn:Eq. remember (c :: s) as w eqn:Ew.
  revert s Ew. induction H; intros t Ew; try discriminate.
  injection Eq as ->.
  destruct s1 as [|a s1]; simpl in Ew.
  - now apply IHmatches2.
  - injection Ew as -> <-. now exists s1, s2.
Qed.

Lemma deriv_spec (r : regex) (c : ascii) (s : text) :
  matches (deriv c r) s <-> matches r (c :: s).
Proof.
  revert s; induction r; intros s; simpl.
  - split; inversion 1.
  - split; inversion 1.
  - destruct (p c) eqn:Hp; split; inversion 1; subst.
    + now apply MClass.
    + constructor.
    + congruence.
  - assert (Hcat : matches (Cat (deriv c r1) r2) s <->
                   exists s1 s2, s = s1 ++ s2 /\ matches r1 (c :: s1) /\ matches r2 s2).
    { split.
      - inversion 1; subst. do 2 eexists. split; [reflexivity|].
        split; [now apply IHr1 | assumption].
      - intros (s1 & s2 & -> & H1 & H2). constructor; [now apply IHr1 | assumption]. }
    assert (Hsplit : matches (Cat r1 r2) (c :: s) <->
              (exists s1 s2, s = s1 ++ s2 /\ matches r1 (c :: s1) /\ matches r2 s2)
              \/ (matches r1 [] /\ matches r2 (c :: s))).
    { split.
      - intros H. apply cat_spec in H as (s1 & s2 & E & H1 & H2).
        destruct s1 as [|a s1]; simpl in E.
        + subst. now right.
        + injection E as <- ->. left. now exists s1, s2.
      - intros [(s1 & s2 & -> & H1 & H2) | [H1 H2]].
        + change (c :: s1 ++ s2) with ((c :: s1) ++ s2). now constructor.
        + change (c :: s) with ([] ++ c :: s). now constructor. }
    rewrite Hsplit. destruct (nullable r1) eqn:Hn.
    + split.
      * inversion 1; subst; [left; now apply Hcat | right].
        split; [now apply nullable_spec | now apply IHr2].
      * intros [H | [_ H]]; [apply MOrL; now apply Hcat | apply MOrR; now apply IHr2].
    + rewrite Hcat. split; [now left|].
      intros [H | [H _]]; [assumption|].
      apply nullable_spec in H. congruence.
  - split.
    + inversion 1; subst; [apply MOrL; now apply IHr1 | apply MOrR; now apply IHr2].
    + inversion 1; subst; [apply MOrL; now apply IHr1 | apply MOrR; now apply IHr2].
  - split.
    + inversion 1; subst.
      change (c :: s1 ++ s2) with ((c :: s1) ++ s2).
      constructor; [now apply IHr | assumption].
    + intros H. apply star_cons in H as (s1 & s2 & -> & H1 & H2).
      constructor; [now apply IHr | assumption].
Qed.

Lemma match_here_spec (r : regex) (s : text) :
  match_here r s = true <-> exists m post, s = m ++ post /\ matches r m.
Proof.
  revert r; induction s as [|c s IH]; intros r; simpl; rewrite orb_true_iff.
  - split.
    + intros [H | H]; [|discriminate]. exists [], []. split; [reflexivity|].
      now apply nullable_spec.
    + intros (m & post & E & H). left. symmetry in E.
      apply app_eq_nil in E as [-> _]. now apply nullable_spec.
  - rewrite IH. split.
    + intros [H | (m & post & -> & H)].
      * exists [], (c :: s). split; [reflexivity | now apply nullable_spec].
      * exists (c :: m), post. split; [reflexivity | now apply deriv_spec].
    + intros ([|a m] & post & E & H); simpl in E.
      * left; now apply nullable_spec.
      * injection E as <- ->. right. exists m, post.
        split; [reflexivity | now apply deriv_spec].
Qed.

(** [re.search] is true exactly when a substring is in the language. *)
Lemma search_spec (r : regex) (s : text) :
  search r s = true <-> exists pre m post, s = pre ++ m ++ post /\ matches r m.
Proof.
  induction s as [|c s IH]; cbn [search]; rewrite orb_true_iff, match_here_spec.
  - split.
    + intros [(m & post & E & H) | H]; [|discriminate]. now exists [], m, post.
    + intros ([|a pre] & m & post & E & H); [|discriminate].
      left. now exists m, post.
  - rewrite IH. split.
    + intros [(m & post & E & H) | (pre & m & post & E & H)].
      * now exists [], m, post.
      * exists (c :: pre), m, post. simpl. now rewrite E.
    + intros ([|a pre] & m & post & E & H); simpl in E.
      * left. now exists m, post.
      * injection E as _ E. right. now exists pre, m, post.
Qed.

Lemma opt_spec (r : regex) (s : text) :
  matches (Opt r) s <-> matches r s \/ s = [].
Proof. unfold Opt. now rewrite or_spec, eps_spec. Qed.

Lemma lit_spec (l s : text) : matches (Lit l) s <-> s = l.
Proof.
  revert s; induction l as [|a l IH]; intros s; simpl.
  - apply eps_spec.
  - rewrite cat_spec. split.
    + intros (s1 & s2 & -> & H1 & H2). apply class_spec in H1 as (c & -> & Hc).
      apply Ascii.eqb_eq in Hc as ->. apply IH in H2 as ->. reflexivity.
    + intros ->. exists [a], l. split; [reflexivity|]. split.
      * constructor. apply Ascii.eqb_refl.
      * now apply IH.
Qed.

Lemma star_class_spec (p : ascii -> bool) (s : text) :
  matches (Star (Class p)) s <-> forallb p s = true.
Proof.
  split.
  - intros H. remember (Star (Class p)) as q eqn:Eq.
    induction H; try discriminate; [reflexivity|].
    injection Eq as ->. apply class_spec in H as (c & -> & Hc). simpl.
    rewrite Hc. now apply IHmatches2.
  - induction s as [|c s IH]; simpl; [constructor|].
    rewrite andb_true_iff. intros [Hc Hs].
    change (c :: s) with ([c] ++ s). constructor; [now constructor | now apply IH].
Qed.

(** [[class]+]: a non-empty run of characters of the class. *)
Lemma plus_class_spec (p : ascii -> bool) (s : text) :
  matches (Plus (Class p)) s <-> s <> [] /\ forallb p s = true.
Proof.
  unfold Plus. rewrite cat_spec. split.
  - intros (s1 & s2 & -> & H1 & H2). apply class_spec in H1 as (c & -> & Hc).
    apply star_class_spec in H2. simpl. rewrite Hc, H2. split; [discriminate | reflexivity].
  - intros [Hne H]. destruct s as [|c s]; [congruence|]. simpl in H.
    apply andb_true_iff in H as [Hc Hs]. exists [c], s. split; [reflexivity|].
    split; [now constructor | now apply star_class_spec].
Qed.

Lemma one_of_spec (alternatives : list text) (s : text) :
  matches (one_of alternatives) s <-> In s alternatives.
Proof.
  induction alternatives as [|a l IH]; cbn [one_of fold_right In].
  - split; [inversion 1 | tauto].
  - fold (one_of l). rewrite or_spec, lit_spec, IH. split; intros [H | H]; auto.
Qed.

(** [\s] matches one white space character. *)
Lemma space_spec (s : text) : matches space s <-> space_char s.
Proof.
  unfold space, space_char. now rewrite or_spec, class_spec, one_of_spec.
Qed.

Lemma star_spec (r : regex) (s : text) :
  matches (Star r) s <-> exists l, Forall (matches r) l /\ s = concat l.
Proof.
  split.
  - intros H. remember (Star r) as q eqn:Eq.
    induction H; try discriminate.
    + now exists [].
    + injection Eq as ->. destruct (IHmatches2 eq_refl) as (l & Hl & ->).
      exists (s1 :: l). split; [now constructor | reflexivity].
  - intros (l & Hl & ->). induction Hl as [|x l Hx _ IH]; cbn [concat].
    + constructor.
    + now constructor.
Qed.

(** [\s+]: one or more white space characters. *)
Lemma plus_space_spec (ws : text) : matches (Plus space) ws <-> blank ws.
Proof.
  unfold Plus, blank. rewrite cat_spec. split.
  - intros (s1 & s2 & -> & H1 & H2). apply star_spec in H2 as (l & Hl & ->).
    exists (s1 :: l). split; [discriminate|]. split; [|reflexivity].
    constructor; [now apply space_spec|].
    eapply Forall_impl; [|exact Hl]. intros x Hx. now apply space_spec.
  - intros (chars & Hne & Hall & ->). destruct chars as [|c cs]; [congruence|].
    inversion Hall as [|? ? Hc Hcs]; subst. exists c, (concat cs).
    split; [reflexivity|]. split; [now apply space_spec|].
    apply star_spec. exists cs. split; [|reflexivity].
    eapply Forall_impl; [|exact Hcs]. intros x Hx. now apply space_spec.
Qed.

End ReFacts.

(** ** The runner shared by the three checkers *)

Section Runner.
Import Out.
Local Open Scope out_scope.

Variable check : text -> W bool.

Let body (filepath : text) (failed : list text) : W (list text) :=
  ok <- check filepath ;;
  ret (if negb ok then failed ++ [filepath] else failed).

Lemma loop_spec (files acc : list text) :
  for_each files body acc = (acc ++ failing check files, diagnostics check files).
Proof.
  revert acc; induction files as [|f files IH]; intros acc; simpl.
  - unfold ret. now rewrite app_nil_r.
  - unfold bind at 1. unfold body at 1. unfold bind at 1, ret, value, printed.
    destruct (check f) as [ok out] eqn:E. simpl.
    rewrite IH. unfold failing, diagnostics, value, printed. simpl.
    rewrite app_nil_r.
    destruct ok; simpl; [reflexivity | now rewrite <- app_assoc].
Qed.

Lemma failing_nil_iff (files : list text) :
  failing check files = [] <-> forallb (fun f => value (check f)) files = true.
Proof.
  unfold failing. induction files as [|f files IH]; simpl; [tauto|].
  destruct (value (check f)); simpl; [exact IH|].
  split; discriminate.
Qed.
End Runner.

Section MainOutcome.
Import Out.

Variable check : text -> W bool.
Variable summary : nat -> text.
Variable main : list text -> W Z.

Hypothesis main_no_files : forall prog, main [prog] = ret 0%Z.
Hypothesis main_unfold : forall prog f files,
  main (prog :: f :: files) =
  bind (for_each (f :: files)
          (fun filepath failed =>
             bind (check filepath)
                  (fun ok => ret (if negb ok then failed ++ [filepath] else failed)))
          [])
       (fun failed =>
          match failed with
          | _ :: _ => bind (print (summary (length failed))) (fun _ => ret 1%Z)
          | [] => ret 0%Z
          end).
Hypothesis summary_shows_count : forall m, occurs (str_of_nat m) (summary m).

Lemma main_result (prog : text) (files : list text) :
  main (prog :: files) =
  (if 0 <? length (failing check files) then 1%Z else 0%Z,
   diagnostics check files ++ trailer summary (length (failing check files))).
Proof.
  destruct files as [|f files].
  - now rewrite main_no_files.
  - rewrite main_unfold, loop_spec.
    generalize (failing check (f :: files)) (diagnostics check (f :: files)).
    intros F D. unfold trailer. destruct F as [|x l]; simpl.
    + reflexivity.
    + reflexivity.
Qed.

Lemma main_aggregates : aggregates main check summary.
Proof.
  intros prog files m. rewrite main_result. fold m. unfold value, printed; simpl.
  assert (Hm : m = 0 <-> forallb (fun f => fst (check f)) files = true).
  { unfold m. rewrite length_zero_iff_nil. apply failing_nil_iff. }
  repeat split; try apply summary_shows_count.
  - destruct (0 <? m) eqn:E; [intros _; now apply Nat.ltb_lt | discriminate].
  - intros H. apply Nat.ltb_lt in H. now rewrite H.
  - destruct (0 <? m) eqn:E; [discriminate|]. intros _.
    apply Hm. apply Nat.ltb_ge in E. lia.
  - intros H. apply Hm in H. now rewrite H.
Qed.
End MainOutcome.

Lemma summary_occurs (tail : text) (m : nat) :
  occurs (str_of_nat m) (["010"] ++ str_of_nat m ++ tail).
Proof. now exists ["010"], tail. Qed.

Lemma header_guards_aggregates (U : case_table) (fs : filesystem) :
  aggregates (HeaderGuards.main U fs) (HeaderGuards.check_header_guard U fs)
             HeaderGuards.summary.
Proof.
  apply main_aggregates; try reflexivity. intros m. apply summary_occurs.
Qed.

Lemma todos_aggregates (fs : filesystem) :
  aggregates (Todos.main fs) (Todos.check_todos fs) Todos.summary.
Proof.
  apply main_aggregates; try reflexivity. intros m. apply summary_occurs.
Qed.

Lemma namespaces_aggregates (fs : filesystem) :
  aggregates (Namespaces.main fs) (Namespaces.check_namespaces fs)
             Namespaces.summary.
Proof.
  apply main_aggregates; try reflexivity. intros m. apply summary_occurs.
Qed.

(** C3. For every batch of files, each checker exits with status 1 exactly
    when at least one file fails its check and with status 0 exactly when
    every per-file check passed (the conjunction of the per-file verdicts);
    its output is the per-file diagnostics followed by one summary item,
    showing the number M of failing files, exactly when M > 0. *)
Theorem C3_exit_status_is_conjunction (U : case_table) (fs : filesystem) :
  aggregates (HeaderGuards.main U fs) (HeaderGuards.check_header_guard U fs)
             HeaderGuards.summary /\
  aggregates (Todos.main fs) (Todos.check_todos fs) Todos.summary /\
  aggregates (Namespaces.main fs) (Namespaces.check_namespaces fs)
             Namespaces.summary.
Proof.
  split; [apply header_guards_aggregates|].
  split; [apply todos_aggregates | apply namespaces_aggregates].
Qed.

(** C7. With no input file every checker exits with status 0 and prints
    nothing, whatever the file system holds. *)
Theorem C7_empty_batch_succeeds_silently (U : case_table) (fs : filesystem) (prog : text) :
  HeaderGuards.main U fs [prog] = (0%Z, []) /\
  Todos.main fs [prog] = (0%Z, []) /\
  Namespaces.main fs [prog] = (0%Z, []).
Proof. repeat split. Qed.

Lemma diagnostics_app (check : text -> Out.W bool) (xs ys : list text) :
  diagnostics check (xs ++ ys) = diagnostics check xs ++ diagnostics check ys.
Proof. unfold diagnostics. apply flat_map_app. Qed.

Lemma failing_app (check : text -> Out.W bool) (xs ys : list text) :
  failing check (xs ++ ys) = failing check xs ++ failing check ys.
Proof. unfold failing. apply filter_app. Qed.

Lemma fault_isolated (main : list text -> Out.W Z) (check : text -> Out.W bool)
    (summary : nat -> text) (filepath err : text) :
  (forall prog files,
     main (prog :: files) =
     (if 0 <? length (failing check files) then 1%Z else 0%Z,
      diagnostics check files ++ trailer summary (length (failing check files)))) ->
  check filepath = (false, [err]) ->
  isolates_fault main check summary filepath err.
Proof.
  intros Hmain Hcheck. split; [assumption|].
  intros prog before after files. rewrite Hmain. unfold Out.value, Out.printed. simpl.
  assert (Hpos : 0 < length (failing check files)).
  { unfold files. rewrite failing_app, length_app. unfold failing at 2. simpl.
    unfold Out.value. rewrite Hcheck. simpl. lia. }
  apply Nat.ltb_lt in Hpos. unfold trailer. rewrite Hpos. split; [reflexivity|].
  unfold files. rewrite diagnostics_app. unfold diagnostics at 2. simpl.
  unfold Out.printed at 1. rewrite Hcheck. simpl.
  now rewrite <- !app_assoc.
Qed.

Lemma header_guards_main_result (U : case_table) (fs : filesystem) (prog : text) (files : list text) :
  HeaderGuards.main U fs (prog :: files) =
  (if 0 <? length (failing (HeaderGuards.check_header_guard U fs) files) then 1%Z else 0%Z,
   diagnostics (HeaderGuards.check_header_guard U fs) files
     ++ trailer HeaderGuards.summary
          (length (failing (HeaderGuards.check_header_guard U fs) files))).
Proof. apply main_result; reflexivity. Qed.

Lemma todos_main_result (fs : filesystem) (prog : text) (files : list text) :
  Todos.main fs (prog :: files) =
  (if 0 <? length (failing (Todos.check_todos fs) files) then 1%Z else 0%Z,
   diagnostics (Todos.check_todos fs) files
     ++ trailer Todos.summary (length (failing (Todos.check_todos fs) files))).
Proof. apply main_result; reflexivity. Qed.

Lemma namespaces_main_result (fs : filesystem) (prog : text) (files : list text) :
  Namespaces.main fs (prog :: files) =
  (if 0 <? length (failing (Namespaces.check_namespaces fs) files) then 1%Z else 0%Z,
   diagnostics (Namespaces.check_namespaces fs) files
     ++ trailer Namespaces.summary
          (length (failing (Namespaces.check_namespaces fs) files))).
Proof. apply main_result; reflexivity. Qed.

(** C5. When reading a file raises, each checker records a failure for that
    file whose only diagnostic is "Error reading <path>: <message>", which
    contains the message of the fault; the other files of the batch, before
    and after it, are processed as usual and the run ends with status 1. *)
Theorem C5_read_fault_is_local (U : case_table) (fs : filesystem) (filepath message : text)
    (Hfault : fs filepath = ReadErr message) :
  let err := str "Error reading " ++ filepath ++ str ": " ++ message in
  occurs message err /\
  isolates_fault (HeaderGuards.main U fs) (HeaderGuards.check_header_guard U fs)
                 HeaderGuards.summary filepath err /\
  isolates_fault (Todos.main fs) (Todos.check_todos fs)
                 Todos.summary filepath err /\
  isolates_fault (Namespaces.main fs) (Namespaces.check_namespaces fs)
                 Namespaces.summary filepath err.
Proof.
  intros err. split.
  { exists (str "Error reading " ++ filepath ++ str ": "), [].
    unfold err. now rewrite app_nil_r, <- !app_assoc. }
  split; [|split].
  - apply fault_isolated; [apply header_guards_main_result|].
    unfold HeaderGuards.check_header_guard. now rewrite Hfault.
  - apply fault_isolated; [apply todos_main_result|].
    unfold Todos.check_todos. now rewrite Hfault.
  - apply fault_isolated; [apply namespaces_main_result|].
    unfold Namespaces.check_namespaces. now rewrite Hfault.
Qed.

Lemma C5_read_fault_is_local_witness :
  let fs : filesystem :=
    fun p => if text_eqb p (str "gone.h")
             then ReadErr (str "[Errno 2] No such file or directory: 'gone.h'")
             else ReadOk (str "#pragma once") in
  fs (str "gone.h") = ReadErr (str "[Errno 2] No such file or directory: 'gone.h'") /\
  isolates_fault (Todos.main fs) (Todos.check_todos fs) Todos.summary (str "gone.h")
    (str "Error reading gone.h: [Errno 2] No such file or directory: 'gone.h'").
Proof.
  intros fs. split; [reflexivity|].
  apply (C5_read_fault_is_local sample_table fs (str "gone.h")
           (str "[Errno 2] No such file or directory: 'gone.h'")).
  reflexivity.
Defined.

Lemma all_pass_silent (check : text -> Out.W bool) (files : list text) :
  Forall (fun f => check f = (true, [])) files ->
  failing check files = [] /\ diagnostics check files = [].
Proof.
  unfold failing, diagnostics, Out.value, Out.printed.
  induction 1 as [|f l Hf _ [IH1 IH2]]; simpl; [now split|].
  rewrite Hf. simpl. now split.
Qed.

(** C4 (as stated, refuted). A file that cannot be read does not pass the
    namespace check: the check prints the read error and fails. *)
Lemma C4_unreadable_file_fails :
  Namespaces.check_namespaces
    (fun _ => ReadErr (str "[Errno 13] Permission denied: 'a.cpp'")) (str "a.cpp")
  = (false, [str "Error reading a.cpp: [Errno 13] Permission denied: 'a.cpp'"]).
Proof. reflexivity. Qed.

(** C4 (amended). For every input file that can be read, whatever its content,
    the namespace-comment check passes and prints nothing; hence a batch of
    readable files always ends with status 0 and no output. *)
Theorem C4_readable_files_always_pass (fs : filesystem) (prog : text)
    (files : list text) (Hread : all_readable fs files) :
  Forall (fun f => Namespaces.check_namespaces fs f = (true, [])) files /\
  Namespaces.main fs (prog :: files) = (0%Z, []).
Proof.
  assert (Hall : Forall (fun f => Namespaces.check_namespaces fs f = (true, [])) files).
  { eapply Forall_impl; [|exact Hread]. intros f [content Hf].
    unfold Namespaces.check_namespaces. now rewrite Hf. }
  split; [assumption|].
  rewrite namespaces_main_result.
  destruct (all_pass_silent _ _ Hall) as [Hf Hd].
  now rewrite Hf, Hd.
Qed.

Lemma C4_readable_files_always_pass_witness :
  let fs : filesystem := fun _ => ReadOk (str "namespace A { }") in
  all_readable fs [str "a.cpp"; str "b.cpp"] /\
  Namespaces.main fs [str "check-namespaces.py"; str "a.cpp"; str "b.cpp"] = (0%Z, []).
Proof.
  intros fs.
  assert (H : all_readable fs [str "a.cpp"; str "b.cpp"]).
  { repeat constructor; now exists (str "namespace A { }"). }
  split; [exact H|].
  exact (proj2 (C4_readable_files_always_pass fs (str "check-namespaces.py") _ H)).
Defined.

(** C10 (as stated, refuted). Not every argument list gives exit code 0: when
    the argument parser rejects the list, as argparse does for an unknown
    option such as "--fix", it ends the process itself with status 2, and
    [main] prints nothing. *)
Lemma C10_rejected_arguments_exit_with_2 :
  let parse_args := fun args : list text =>
    if existsb (text_eqb (str "--fix")) args then ParserExit 2%Z []
    else Parsed {| ClangTidy.config_file := str ".clang-tidy";
                   ClangTidy.header_filter := str ".*";
                   ClangTidy.files := args |} in
  let run := ClangTidy.main parse_args
               [str "run-clang-tidy.py"; str "--fix"; str "a.cpp"] in
  exit_status (Out.value run) = 2%Z /\ Out.printed run = [].
Proof. split; reflexivity. Qed.

(** C10 (amended). For every argument list that the parser accepts, the
    clang-tidy wrapper ends with status 0, whatever the arguments are: with
    no file it prints "No files to check", with N files it prints
    "clang-tidy: Skipping N file(s) (requires build configuration)" and the
    note; it reads no file and starts no process.  When the parser itself
    leaves the process, the script ends with the parser's status and prints
    nothing of its own. *)
Theorem C10_clang_tidy_wrapper_returns_zero :
  (forall args : ClangTidy.namespace,
     Out.value (ClangTidy.run args) = 0%Z /\
     Out.printed (ClangTidy.run args) =
       match ClangTidy.files args with
       | [] => [str "No files to check"]
       | _ :: _ =>
           [str "clang-tidy: Skipping "
              ++ str_of_nat (length (ClangTidy.files args))
              ++ str " file(s) (requires build configuration)";
            str "Note: Run 'cmake --build build --target tidy-all' for full static analysis"]
       end) /\
  (forall (parse_args : list text -> parse_outcome ClangTidy.namespace)
          (sys_argv : list text),
     match parse_args (tl sys_argv) with
     | Parsed args =>
         ClangTidy.main parse_args sys_argv
         = (Returns 0%Z, Out.printed (ClangTidy.run args))
     | ParserExit status out =>
         ClangTidy.main parse_args sys_argv = (LeftInParser status, out)
     end) /\
  (forall (parse_args : list text -> parse_outcome ClangTidy.namespace)
          (sys_argv : list text),
     exit_status (Out.value (ClangTidy.main parse_args sys_argv)) =
     match parse_args (tl sys_argv) with
     | Parsed _ => 0%Z
     | ParserExit status _ => status
     end).
Proof.
  split; [|split].
  - intros args. unfold ClangTidy.run. now destruct (ClangTidy.files args).
  - intros parse_args sys_argv. unfold ClangTidy.main.
    destruct (parse_args (tl sys_argv)) as [args|status out]; [|reflexivity].
    unfold ClangTidy.run. now destruct (ClangTidy.files args).
  - intros parse_args sys_argv. unfold ClangTidy.main.
    destruct (parse_args (tl sys_argv)) as [args|status out]; [|reflexivity].
    unfold ClangTidy.run. now destruct (ClangTidy.files args).
Qed.

(** ** Leftmost occurrence: [partition] and [split_once] *)

Lemma startswith_length (p s : text) :
  startswith p s = true -> length p <= length s.
Proof.
  intros H. apply startswith_spec in H as [post ->]. rewrite length_app. lia.
Qed.

Lemma contains_length (sub s : text) :
  contains sub s = true -> length sub <= length s.
Proof.
  intros H. apply contains_spec in H as (pre & post & ->).
  rewrite !length_app. lia.
Qed.

Lemma startswith_extend (p x y : text) :
  startswith p x = true -> startswith p (x ++ y) = true.
Proof.
  intros H. apply startswith_spec in H as [post ->]. apply startswith_spec.
  exists (post ++ y). now rewrite app_assoc.
Qed.

Lemma startswith_shorten (p x y : text) :
  startswith p (x ++ y) = true -> length p <= length x -> startswith p x = true.
Proof.
  revert x; induction p as [|a p IH]; intros x H Hlen; [reflexivity|].
  destruct x as [|b x]; simpl in *; [lia|].
  apply andb_true_iff in H as [Hab H]. rewrite Hab. simpl.
  apply IH; [assumption | lia].
Qed.

Lemma partition_unfold (sep s : text) :
  partition sep s =
  if startswith sep s then Some ([], skipn (length sep) s)
  else match s with
       | [] => None
       | c :: s' =>
           match partition sep s' with
           | Some (a, b) => Some (c :: a, b)
           | None => None
           end
       end.
Proof. now destruct s. Qed.

Lemma contains_unfold (sub s : text) :
  contains sub s =
  startswith sub s || match s with [] => false | _ :: s' => contains sub s' end.
Proof. now destruct s. Qed.

Lemma skipn_prefix (p rest : text) : skipn (length p) (p ++ rest) = rest.
Proof. induction p; simpl; auto. Qed.

(** The decomposition at the leftmost occurrence is the one [partition] finds. *)
Lemma partition_first (b : text) (z : ascii) (pre rest : text) :
  contains (b ++ [z]) (pre ++ b) = false ->
  partition (b ++ [z]) (pre ++ (b ++ [z]) ++ rest) = Some (pre, rest).
Proof.
  induction pre as [|c pre IH]; intros H.
  - change ([] ++ (b ++ [z]) ++ rest) with ((b ++ [z]) ++ rest).
    rewrite partition_unfold.
    assert (E : startswith (b ++ [z]) ((b ++ [z]) ++ rest) = true)
      by (apply startswith_spec; now exists rest).
    rewrite E. now rewrite skipn_prefix.
  - rewrite contains_unfold in H. apply orb_false_iff in H as [H1 H2].
    rewrite partition_unfold.
    destruct (startswith (b ++ [z]) ((c :: pre) ++ (b ++ [z]) ++ rest)) eqn:E.
    + exfalso. replace ((c :: pre) ++ (b ++ [z]) ++ rest)
        with (((c :: pre) ++ b) ++ [z] ++ rest) in E
        by (now rewrite <- !app_assoc).
      apply startswith_shorten in E; [congruence|].
      rewrite !length_app. simpl. lia.
    + simpl. simpl in H2. now rewrite (IH H2).
Qed.

Lemma partition_sound (b : text) (z : ascii) (s pre rest : text) :
  partition (b ++ [z]) s = Some (pre, rest) ->
  s = pre ++ (b ++ [z]) ++ rest /\ contains (b ++ [z]) (pre ++ b) = false.
Proof.
  revert pre; induction s as [|c s IH]; intros pre; rewrite partition_unfold.
  - destruct (startswith (b ++ [z]) []) eqn:E; [|discriminate].
    apply startswith_length in E. rewrite length_app in E. simpl in E. lia.
  - destruct (startswith (b ++ [z]) (c :: s)) eqn:E.
    + intros H. injection H as <- <-.
      apply startswith_spec in E as [post E]. rewrite E, skipn_prefix.
      split; [reflexivity|]. simpl.
      destruct (contains (b ++ [z]) b) eqn:C; [|reflexivity].
      apply contains_length in C. rewrite length_app in C. simpl in C. lia.
    + destruct (partition (b ++ [z]) s) as [[a r]|] eqn:P; [|discriminate].
      intros H. injection H as <- <-.
      destruct (IH a eq_refl) as [-> C]. split; [reflexivity|].
      rewrite contains_unfold. simpl in C |- *. fold (startswith (b ++ [z])).
      apply orb_false_iff. split; [|exact C].
      destruct (startswith (b ++ [z]) (c :: a ++ b)) eqn:S; [|reflexivity].
      apply (startswith_extend _ _ ([z] ++ r)) in S.
      replace ((c :: a ++ b) ++ [z] ++ r)
        with (c :: a ++ (b ++ [z]) ++ r) in S
        by (simpl; now rewrite <- !app_assoc).
      congruence.
Qed.

Lemma contains_partition (sep s : text) :
  contains sep s = true -> exists pre rest, partition sep s = Some (pre, rest).
Proof.
  induction s as [|c s IH]; rewrite contains_unfold, partition_unfold;
    destruct (startswith sep _); simpl; eauto; try discriminate.
  intros H. destruct (IH H) as (pre & rest & ->). eauto.
Qed.

Lemma not_occurs_contains (sub s : text) :
  ~ occurs sub s <-> contains sub s = false.
Proof.
  unfold occurs. rewrite <- contains_spec. now destruct (contains sub s).
Qed.

(** ** Characters and upper case *)

Lemma characters_concat (s : text) : concat (characters s) = s.
Proof.
  induction s as [|b s IH]; [reflexivity|]. cbn [characters].
  destruct (characters s) as [|[|c t] cs]; cbn [concat app] in *.
  - now rewrite <- IH.
  - now rewrite <- IH.
  - destruct (is_continuation c); cbn [concat app]; now rewrite <- IH.
Qed.

Lemma characters_shape (s : text) : Forall char_shape (characters s).
Proof.
  induction s as [|b s IH]; [constructor|]. cbn [characters].
  destruct (characters s) as [|[|c t] cs].
  - constructor; [now exists b, [] | constructor].
  - constructor; [now exists b, [] | exact IH].
  - inversion IH as [|? ? (b' & t' & E & Ht) Hcs]; subst. injection E as <- <-.
    destruct (is_continuation c) eqn:Ec.
    + constructor; [|exact Hcs]. exists b, (c :: t). split; [reflexivity|].
      cbn [forallb]. now rewrite Ec, Ht.
    + constructor; [now exists b, [] | exact IH].
Qed.

Lemma continuation_wide (b : ascii) : is_continuation b = true -> 128 <= code b.
Proof.
  unfold is_continuation. rewrite andb_true_iff, Nat.leb_le. tauto.
Qed.

Lemma wide_upper_case_byte (b : ascii) : 128 <= code b -> upper_case_byte b = true.
Proof.
  destruct b as [[] [] [] [] [] [] [] []]; vm_compute; intros H;
    first [reflexivity | exfalso; repeat apply le_S_n in H; inversion H].
Qed.

Lemma upper_ascii_upper_case (b : ascii) :
  b <> "/" -> b <> "." -> code b < 128 -> upper_case_byte (upper_ascii b) = true.
Proof.
  destruct b as [[] [] [] [] [] [] [] []]; intros H1 H2 H3;
    first [reflexivity | congruence | exfalso; vm_compute in H3; lia].
Qed.

Lemma upper_case_byte_spec (b : ascii) :
  upper_case_byte b = true <-> b <> "/" /\ b <> "." /\ is_lower b = false.
Proof.
  destruct b as [[] [] [] [] [] [] [] []]; vm_compute;
    (split; [intros H; first [discriminate H | repeat split; discriminate]
            | intros (H1 & H2 & H3); first [reflexivity | congruence]]).
Qed.

Lemma shape_wide (b : ascii) (t : text) :
  (code b <? 128) = false -> forallb is_continuation t = true -> wide (b :: t).
Proof.
  intros Hb Ht. split; [discriminate|]. constructor.
  - apply Nat.ltb_ge in Hb. exact Hb.
  - apply Forall_forall. intros x Hx. apply continuation_wide.
    rewrite forallb_forall in Ht. now apply Ht.
Qed.

Lemma upper_character_nonempty (U : case_table) (c : text) :
  char_shape c -> upper_character U c <> [].
Proof.
  intros (b & t & -> & Ht). cbn [upper_character].
  destruct (code b <? 128) eqn:E; [discriminate|].
  apply upper_wide_nonempty. now apply shape_wide.
Qed.

(** Upper-casing never empties a text. *)
Lemma upper_nonempty (U : case_table) (s : text) : s <> [] -> upper U s <> [].
Proof.
  intros Hs. unfold upper. pose proof (characters_concat s) as Hc.
  pose proof (characters_shape s) as Hsh.
  destruct (characters s) as [|c cs]; [simpl in Hc; congruence|].
  inversion Hsh as [|? ? Hc0 _]; subst. cbn [flat_map].
  intros E. apply app_eq_nil in E as [E _].
  now apply (upper_character_nonempty U c).
Qed.

Lemma upper_characters_upper_case (U : case_table) (cs : list text) :
  Forall char_shape cs ->
  Forall (fun b => b <> "/" /\ b <> ".") (concat cs) ->
  forallb upper_case_byte (flat_map (upper_character U) cs) = true.
Proof.
  induction 1 as [|c cs (b & t & -> & Ht) _ IH]; intros Hall; [reflexivity|].
  cbn [flat_map concat] in *. apply Forall_app in Hall as [Hc Hcs].
  rewrite forallb_app, (IH Hcs), andb_true_r.
  cbn [upper_character]. destruct (code b <? 128) eqn:E.
  - inversion Hc as [|? ? [H1 H2] _]; subst. cbn [forallb].
    apply Nat.ltb_lt in E. rewrite (upper_ascii_upper_case b H1 H2 E).
    apply forallb_forall. intros x Hx. apply wide_upper_case_byte, continuation_wide.
    rewrite forallb_forall in Ht. now apply Ht.
  - apply upper_wide_upper. now apply shape_wide.
Qed.

(** Upper-casing a text without separator and dot leaves no separator, no
    dot and no lower-case ASCII letter. *)
Lemma upper_upper_case (U : case_table) (s : text) :
  Forall (fun b => b <> "/" /\ b <> ".") s ->
  forallb upper_case_byte (upper U s) = true.
Proof.
  intros H. unfold upper. apply upper_characters_upper_case.
  - apply characters_shape.
  - now rewrite characters_concat.
Qed.

Lemma characters_ascii (s : text) :
  is_ascii s -> characters s = map (fun b => [b]) s.
Proof.
  induction 1 as [|b s Hb Hs IH]; [reflexivity|]. cbn [characters map].
  rewrite IH. destruct s as [|c s]; [reflexivity|]. cbn [map].
  inversion Hs as [|? ? Hc _]; subst.
  assert (E : is_continuation c = false).
  { unfold is_continuation. apply andb_false_iff. left. apply Nat.leb_gt. exact Hc. }
  now rewrite E.
Qed.

(** On an ASCII text [upper] works byte by byte. *)
Lemma upper_ascii_text (U : case_table) (s : text) :
  is_ascii s -> upper U s = map upper_ascii s.
Proof.
  intros H. unfold upper. rewrite (characters_ascii s H).
  induction H as [|b s Hb _ IH]; [reflexivity|]. cbn [map flat_map upper_character].
  apply Nat.ltb_lt in Hb. rewrite Hb. cbn [app]. now rewrite IH.
Qed.

(** ** The guard name *)

Lemma replace_underscored (s : text) :
  replace "." "_" (replace "/" "_" s) = map underscored s.
Proof.
  unfold replace. rewrite map_map. apply map_ext. intros c.
  unfold underscored. destruct (Ascii.eqb c "/") eqn:E1; [reflexivity|].
  simpl. now destruct (Ascii.eqb c ".").
Qed.

Lemma underscored_no_separator (s : text) :
  Forall (fun b => b <> "/" /\ b <> ".") (map underscored s).
Proof.
  apply Forall_forall. intros b Hb. apply in_map_iff in Hb as (c & <- & _).
  unfold underscored. destruct (Ascii.eqb c "/") eqn:E1; [split; discriminate|].
  destruct (Ascii.eqb c ".") eqn:E2; [split; discriminate|]. cbn [orb].
  split; intros ->; [now rewrite Ascii.eqb_refl in E1 | now rewrite Ascii.eqb_refl in E2].
Qed.

Lemma underscored_ascii (s : text) : is_ascii s -> is_ascii (map underscored s).
Proof.
  unfold is_ascii. rewrite !Forall_forall. intros H b Hb.
  apply in_map_iff in Hb as (c & <- & Hc). unfold underscored.
  destruct (Ascii.eqb c "/" || Ascii.eqb c "."); [vm_compute; lia | now apply H].
Qed.

Lemma guard_char_pointwise (s : text) :
  map upper_ascii (map underscored s) = map guard_char s.
Proof.
  rewrite map_map. apply map_ext. intros c. unfold underscored, guard_char.
  now destruct (Ascii.eqb c "/" || Ascii.eqb c ".").
Qed.

Lemma expected_guard_relative (U : case_table) (filepath rel : text) :
  source_relative (Pathlib.as_posix filepath) rel ->
  HeaderGuards.expected_guard U filepath = upper U (map underscored rel).
Proof.
  unfold HeaderGuards.expected_guard. rewrite replace_underscored.
  intros [[Hno ->] | (pre & E & Hfirst)].
  - apply not_occurs_contains in Hno. now rewrite Hno.
  - assert (C : contains (str "src/") (Pathlib.as_posix filepath) = true).
    { apply contains_spec. now exists pre, rel. }
    rewrite C. unfold split_once. rewrite E.
    apply not_occurs_contains in Hfirst.
    change (str "src/") with (str "src" ++ ["/"]) in *.
    now rewrite (partition_first _ _ _ _ Hfirst).
Qed.

Lemma source_relative_total (rp : text) : exists rel, source_relative rp rel.
Proof.
  destruct (contains (str "src/") rp) eqn:C.
  - destruct (contains_partition _ _ C) as (pre & rest & P).
    change (str "src/") with (str "src" ++ ["/"]) in P.
    apply partition_sound in P as [E F].
    exists rest. right. exists pre. split; [exact E|].
    now apply not_occurs_contains.
  - exists rp. left. split; [now apply not_occurs_contains | reflexivity].
Qed.

(** C6 (as stated, refuted). With no source root in the path the whole path
    is not always used: "mysrc/Layer.h" has no directory "src", yet the guard
    is LAYER_H, because the four characters "src/" are looked for anywhere in
    the path.  And not only the dot of the extension becomes an underscore. *)
Lemma C6_source_root_inside_a_name :
  HeaderGuards.expected_guard sample_table (str "mysrc/Layer.h") = str "LAYER_H" /\
  HeaderGuards.expected_guard sample_table (str "mysrc/Layer.h") <> str "MYSRC_LAYER_H" /\
  HeaderGuards.expected_guard sample_table (str "include/v1.2/Layer.h")
  = str "INCLUDE_V1_2_LAYER_H".
Proof. split; [reflexivity|]. split; [discriminate | reflexivity]. Qed.

(** C6 (amended). The expected guard is a function of the path string alone,
    with no access to the file system: it takes the POSIX form of the path,
    keeps what follows the first occurrence of the characters "src/",
    wherever they stand (the whole path when they do not occur), turns every
    separator and every dot into an underscore and applies [str.upper]; on
    ASCII names this is a byte by byte map.  What follows the first "src/" is
    determined by the path and exists for every path, so the guard is defined
    for every path, and guard("src/Layers/Layer.h") = "LAYERS_LAYER_H". *)
Theorem C6_guard_is_function_of_path (U : case_table) (filepath rel : text)
    (Hrel : source_relative (Pathlib.as_posix filepath) rel) :
  HeaderGuards.expected_guard U filepath = upper U (map underscored rel) /\
  (is_ascii rel -> HeaderGuards.expected_guard U filepath = map guard_char rel) /\
  (forall other, source_relative (Pathlib.as_posix filepath) other ->
                 upper U (map underscored other) = upper U (map underscored rel)) /\
  (forall p, exists r, source_relative (Pathlib.as_posix p) r) /\
  HeaderGuards.expected_guard U (str "src/Layers/Layer.h") = str "LAYERS_LAYER_H".
Proof.
  split; [now apply expected_guard_relative|].
  split.
  { intros Ha. rewrite (expected_guard_relative U _ _ Hrel).
    rewrite upper_ascii_text by now apply underscored_ascii.
    apply guard_char_pointwise. }
  split.
  - intros other Hother.
    rewrite <- (expected_guard_relative U _ _ Hother).
    now apply expected_guard_relative.
  - split; [intros p; apply source_relative_total | reflexivity].
Qed.

Lemma C6_guard_is_function_of_path_witness :
  source_relative (Pathlib.as_posix (str "./lib/src//Layers/Layer.h"))
                  (str "Layers/Layer.h") /\
  HeaderGuards.expected_guard sample_table (str "./lib/src//Layers/Layer.h")
  = str "LAYERS_LAYER_H".
Proof.
  assert (H : source_relative (Pathlib.as_posix (str "./lib/src//Layers/Layer.h"))
                              (str "Layers/Layer.h")).
  { right. exists (str "lib/"). split; [reflexivity|].
    apply not_occurs_contains. reflexivity. }
  split; [exact H|].
  apply (proj1 (proj2 (C6_guard_is_function_of_path sample_table _ _ H))).
  repeat (constructor; [vm_compute; lia|]). constructor.
Defined.

(** ** The header-guard predicate *)

Lemma search_directive (kw guard content : text) :
  Re.search (Re.Cat (Re.Lit kw) (Re.Cat (Re.Plus Re.space) (Re.Lit guard))) content = true
  <-> has_directive kw guard content.
Proof.
  rewrite ReFacts.search_spec. unfold has_directive. split.
  - intros (pre & m & post & -> & H).
    apply ReFacts.cat_spec in H as (s1 & s2 & -> & H1 & H2).
    apply ReFacts.lit_spec in H1 as ->.
    apply ReFacts.cat_spec in H2 as (ws & s3 & -> & Hws & H3).
    apply ReFacts.lit_spec in H3 as ->.
    apply ReFacts.plus_space_spec in Hws.
    exists pre, ws, post. split; [now rewrite <- !app_assoc | exact Hws].
  - intros (pre & ws & post & -> & Hws).
    exists pre, (kw ++ ws ++ guard), post. split; [now rewrite <- !app_assoc|].
    apply ReFacts.cat_spec. exists kw, (ws ++ guard). split; [reflexivity|].
    split; [now apply ReFacts.lit_spec|].
    apply ReFacts.cat_spec. exists ws, guard. split; [reflexivity|].
    split; [now apply ReFacts.plus_space_spec | now apply ReFacts.lit_spec].
Qed.

Lemma check_content_passes (U : case_table) (filepath content : text) :
  guarded (HeaderGuards.expected_guard U filepath) content ->
  HeaderGuards.check_content U filepath content = (true, []).
Proof.
  unfold guarded, HeaderGuards.check_content, HeaderGuards.ifndef_pattern,
    HeaderGuards.define_pattern.
  intros [H | [H1 H2]].
  - apply contains_spec in H. now rewrite H.
  - apply search_directive in H1. apply search_directive in H2.
    rewrite H1, H2. now destruct (contains _ content).
Qed.

Lemma check_content_fails (U : case_table) (filepath content : text) :
  ~ guarded (HeaderGuards.expected_guard U filepath) content ->
  HeaderGuards.check_content U filepath content =
  (false, [HeaderGuards.missing_guard_message filepath
             (HeaderGuards.expected_guard U filepath)]).
Proof.
  unfold guarded, HeaderGuards.check_content, HeaderGuards.ifndef_pattern,
    HeaderGuards.define_pattern.
  intros H.
  destruct (contains (str "#pragma once") content) eqn:C.
  { exfalso. apply H. left. now apply contains_spec. }
  destruct (Re.search _ content) eqn:S1; [|reflexivity].
  destruct (Re.search _ content) eqn:S2 in |- *; [|reflexivity].
  exfalso. apply H. right. split; now apply search_directive.
Qed.

Lemma one_space_blank : blank [" "].
Proof.
  exists [[" "]]. split; [discriminate|]. split; [|reflexivity].
  constructor; [|constructor]. left. now exists " ".
Qed.

(** How a white space character starts: it is one of the ten of one byte, or
    its first byte is above 127. *)
Lemma space_char_first (c : text) :
  space_char c ->
  exists b t, c = b :: t /\ ((isspace b = true /\ t = []) \/ 128 <= code b).
Proof.
  intros [(b & -> & H) | H].
  - exists b, []. split; [reflexivity | now left].
  - vm_compute in H.
    repeat (destruct H as [<- | H];
            [eexists _, _; split; [reflexivity | right; vm_compute; lia]|]).
    contradiction.
Qed.

Lemma exact_directives_guarded (guard content : text) :
  occurs (str "#ifndef " ++ guard) content ->
  occurs (str "#define " ++ guard) content ->
  guarded guard content.
Proof.
  intros (p1 & q1 & E1) (p2 & q2 & E2). right. split.
  - exists p1, [" "], q1. split; [|apply one_space_blank].
    rewrite E1. simpl. now rewrite <- ?app_assoc.
  - exists p2, [" "], q2. split; [|apply one_space_blank].
    rewrite E2. simpl. now rewrite <- ?app_assoc.
Qed.

(** *** A header made of the two directive lines *)

Lemma ident_not_space (c : ascii) : is_ident c = true -> isspace c = false.
Proof.
  unfold is_ident, isspace. generalize (code c). intros n H.
  rewrite !orb_true_iff, !andb_true_iff, !Nat.leb_le, Nat.eqb_eq in H.
  apply orb_false_iff. split; apply andb_false_iff; rewrite !Nat.leb_gt; lia.
Qed.

Lemma ident_not_special (c x : ascii) :
  is_ident x = false -> is_ident c = true -> Ascii.eqb c x = false.
Proof.
  intros Hx Hc. destruct (Ascii.eqb c x) eqn:E; [|reflexivity].
  apply Ascii.eqb_eq in E. congruence.
Qed.

Lemma identifier_avoids (x : ascii) (t : text) :
  is_ident x = false -> identifier t ->
  forallb (fun c => negb (Ascii.eqb c x)) t = true.
Proof.
  intros Hx. unfold identifier. induction t as [|c t IH]; simpl; [reflexivity|].
  rewrite andb_true_iff. intros [Hc Ht].
  rewrite (ident_not_special c x Hx Hc). simpl. now apply IH.
Qed.

(** Two ways of cutting a text at the character [x] agree when the second cut
    has no [x] on either side. *)
Lemma cut_unique (x : ascii) (a b a' b' : text) :
  forallb (fun c => negb (Ascii.eqb c x)) a' = true ->
  forallb (fun c => negb (Ascii.eqb c x)) b' = true ->
  a ++ x :: b = a' ++ x :: b' -> a = a' /\ b = b'.
Proof.
  intros Ha' Hb'. revert a. induction a' as [|c' a' IH]; intros a E.
  - destruct a as [|c a]; simpl in E.
    + injection E as ->. now split.
    + injection E as -> E. exfalso. subst b'.
      rewrite forallb_app in Hb'. simpl in Hb'.
      rewrite Ascii.eqb_refl in Hb'. simpl in Hb'.
      rewrite andb_false_r in Hb'. discriminate.
  - simpl in Ha'. apply andb_true_iff in Ha' as [Hc' Ha'].
    destruct a as [|c a]; simpl in E.
    + injection E as -> _. rewrite Ascii.eqb_refl in Hc'. discriminate.
    + injection E as -> E. destruct (IH Ha' a E) as [-> ->]. now split.
Qed.

(** A run of identifier characters that is followed by [c] in one reading
    and starts the identifier [t] in the other is a prefix of [t]. *)
Lemma ident_prefix (g t post rest : text) (c : ascii) :
  identifier g -> identifier t -> is_ident c = false ->
  g ++ post = t ++ c :: rest -> startswith g t = true.
Proof.
  unfold identifier. revert t. induction g as [|a g IH]; intros t Hg Ht Hc E.
  - reflexivity.
  - simpl in Hg. apply andb_true_iff in Hg as [Ha Hg].
    destruct t as [|b t]; simpl in E.
    + injection E as -> _. congruence.
    + injection E as -> E. simpl in Ht. apply andb_true_iff in Ht as [_ Ht].
      simpl. rewrite Ascii.eqb_refl. simpl. now apply (IH t).
Qed.

Lemma ident_ascii (c : ascii) : is_ident c = true -> code c < 128.
Proof.
  unfold is_ident. generalize (code c). intros n H.
  rewrite !orb_true_iff, !andb_true_iff, !Nat.leb_le, Nat.eqb_eq in H. lia.
Qed.

(** After the keyword of a directive line [kw t LF rest], where [rest] is
    empty or starts with '#', only a prefix of [t] can follow the spaces. *)
Lemma after_keyword (ws g post t rest : text) :
  blank ws ->
  identifier g -> identifier t ->
  (rest = [] \/ exists r, rest = "#" :: r) ->
  ws ++ g ++ post = " " :: t ++ "010" :: rest ->
  startswith g t = true.
Proof.
  intros (chars & Hne & Hall & ->) Hg Ht Hrest E.
  destruct chars as [|c1 chars]; [congruence|].
  inversion Hall as [|? ? Hc1 Hall1]; subst.
  destruct (space_char_first c1 Hc1) as (b1 & t1 & -> & Hb1).
  cbn [concat app] in E. injection E as -> E.
  destruct Hb1 as [[_ ->] | Hw]; [|vm_compute in Hw; lia].
  cbn [app] in E.
  destruct chars as [|c2 chars].
  - cbn [concat app] in E. now apply (ident_prefix g t post rest "010").
  - inversion Hall1 as [|? ? Hc2 Hall2]; subst.
    destruct (space_char_first c2 Hc2) as (b2 & t2 & -> & Hb2).
    cbn [concat app] in E.
    destruct t as [|b t]; cbn [app] in E.
    + injection E as -> E.
      destruct Hb2 as [[_ ->] | Hw]; [|vm_compute in Hw; lia].
      cbn [app] in E.
      destruct Hrest as [-> | [r ->]].
      * apply app_eq_nil in E as [_ E]. apply app_eq_nil in E as [-> _]. reflexivity.
      * destruct chars as [|c3 chars].
        -- cbn [concat app] in E. destruct g as [|a g]; [reflexivity|].
           cbn [app] in E. injection E as -> _.
           unfold identifier in Hg. simpl in Hg. discriminate.
        -- inversion Hall2 as [|? ? Hc3 _]; subst.
           destruct (space_char_first c3 Hc3) as (b3 & t3 & -> & Hb3).
           cbn [concat app] in E. injection E as -> _.
           destruct Hb3 as [[Hs _] | Hw]; [discriminate Hs | vm_compute in Hw; lia].
    + injection E as -> _. unfold identifier in Ht. cbn [forallb] in Ht.
      apply andb_true_iff in Ht as [Hb _].
      destruct Hb2 as [[Hs _] | Hw].
      * rewrite (ident_not_space _ Hb) in Hs. discriminate.
      * apply ident_ascii in Hb. lia.
Qed.

(** Where a '#' can stand in a two-directive header. *)
Lemma hash_positions (t1 t2 pre rest : text) :
  identifier t1 -> identifier t2 ->
  two_directives t1 t2 = pre ++ "#" :: rest ->
  (pre = [] /\ rest = str "ifndef " ++ t1 ++ ["010"] ++ str "#define " ++ t2 ++ ["010"])
  \/ (pre = str "#ifndef " ++ t1 ++ ["010"] /\ rest = str "define " ++ t2 ++ ["010"]).
Proof.
  intros H1 H2 E. unfold two_directives in E.
  destruct pre as [|c pre]; simpl in E.
  - injection E as <-. now left.
  - injection E as <- E. right.
    assert (E' : (str "ifndef " ++ t1 ++ ["010"]) ++ "#" :: (str "define " ++ t2 ++ ["010"])
                 = pre ++ "#" :: rest).
    { rewrite <- E. simpl. now rewrite <- app_assoc. }
    clear E. rename E' into E.
    symmetry in E. apply cut_unique in E as [-> ->].
    + now split.
    + rewrite !forallb_app. rewrite (identifier_avoids "#" t1 eq_refl H1). reflexivity.
    + rewrite !forallb_app. rewrite (identifier_avoids "#" t2 eq_refl H2). reflexivity.
Qed.

Lemma two_directives_no_pragma (t1 t2 : text) :
  identifier t1 -> identifier t2 ->
  ~ occurs (str "#pragma once") (two_directives t1 t2).
Proof.
  intros H1 H2 (pre & post & E). simpl in E.
  apply hash_positions in E as [[_ E] | [_ E]]; try assumption; discriminate.
Qed.

Lemma ifndef_token (g t1 t2 : text) :
  identifier g -> identifier t1 -> identifier t2 ->
  has_directive (str "#ifndef") g (two_directives t1 t2) -> startswith g t1 = true.
Proof.
  intros Hg H1 H2 (pre & ws & post & E & Hws). simpl in E.
  apply hash_positions in E as [[_ E] | [_ E]]; try assumption; [|discriminate].
  simpl in E. injection E as E. symmetry in E.
  apply (after_keyword ws g post t1 (str "#define " ++ t2 ++ ["010"])); auto.
  right. eexists. reflexivity.
Qed.

Lemma define_token (g t1 t2 : text) :
  identifier g -> identifier t1 -> identifier t2 ->
  has_directive (str "#define") g (two_directives t1 t2) -> startswith g t2 = true.
Proof.
  intros Hg H1 H2 (pre & ws & post & E & Hws). simpl in E.
  apply hash_positions in E as [[_ E] | [_ E]]; try assumption; [discriminate|].
  simpl in E. injection E as E. symmetry in E.
  apply (after_keyword ws g post t2 []); auto.
Qed.

Lemma changed_token_unguarded (g t1 t2 : text) :
  identifier g -> identifier t1 -> identifier t2 ->
  startswith g t1 = false \/ startswith g t2 = false ->
  ~ guarded g (two_directives t1 t2).
Proof.
  intros Hg H1 H2 Hch [Hp | [Hi Hd]].
  - now apply (two_directives_no_pragma t1 t2).
  - apply ifndef_token in Hi; try assumption.
    apply define_token in Hd; try assumption.
    destruct Hch; congruence.
Qed.

Lemma check_content_verdict (U : case_table) (filepath content : text) :
  Out.value (HeaderGuards.check_content U filepath content) = true <->
  guarded (HeaderGuards.expected_guard U filepath) content.
Proof.
  split.
  - intros H.
    destruct (contains (str "#pragma once") content) eqn:C.
    { left. now apply contains_spec. }
    right. unfold HeaderGuards.check_content in H. rewrite C in H.
    destruct (Re.search (HeaderGuards.ifndef_pattern _) content) eqn:S1;
      [|discriminate].
    destruct (Re.search (HeaderGuards.define_pattern _) content) eqn:S2;
      [|discriminate].
    split; now apply search_directive.
  - intros H. now rewrite (check_content_passes U _ _ H).
Qed.

Lemma guard_in_message (filepath guard : text) :
  occurs guard (HeaderGuards.missing_guard_message filepath guard).
Proof.
  exists (filepath ++ str ": Missing proper header guard (expected: "),
         (str " or #pragma once)").
  unfold HeaderGuards.missing_guard_message. now rewrite <- !app_assoc.
Qed.

(** C1 (as stated, refuted). For the path src/Layers/Layer.h the predicate
    passes on a header whose [#ifndef] token is LAYERS_LAYER_H_INCLUDED, which
    is not the derived guard LAYERS_LAYER_H, whether the [#define] token is
    the derived guard or the longer name. *)
Lemma C1_longer_token_still_passes :
  let p := str "src/Layers/Layer.h" in
  let t := str "LAYERS_LAYER_H_INCLUDED" in
  t <> HeaderGuards.expected_guard sample_table p /\
  HeaderGuards.check_content sample_table p (two_directives t (HeaderGuards.expected_guard sample_table p))
    = (true, []) /\
  HeaderGuards.check_content sample_table p (two_directives t t) = (true, []).
Proof.
  split; [discriminate|]. split; vm_compute; reflexivity.
Qed.

(** C1 (amended). The header-guard predicate passes exactly when the content
    contains "#pragma once" anywhere, or contains both "#ifndef" and
    "#define", each followed by one or more white space characters (of
    Unicode) and then the characters of guard(P) (so a longer name that
    begins with guard(P) is accepted too); it then prints nothing, and
    otherwise it prints exactly one diagnostic, which names guard(P).  In
    particular a content with [#ifndef guard(P)] and [#define guard(P)]
    passes.  When guard(P) is an identifier (letters, digits, underscores),
    then in a header made of the two directive lines with identifier tokens,
    changing either token so that it no longer begins with guard(P) makes the
    predicate fail.  A file that was read is judged by this predicate. *)
Theorem C1_header_guard_predicate (U : case_table) (filepath content : text) :
  let guard := HeaderGuards.expected_guard U filepath in
  let verdict := HeaderGuards.check_content U filepath content in
  let diagnostic := HeaderGuards.missing_guard_message filepath guard in
  (Out.value verdict = true <-> guarded guard content) /\
  Out.printed verdict = (if Out.value verdict then [] else [diagnostic]) /\
  occurs guard diagnostic /\
  (occurs (str "#ifndef " ++ guard) content ->
   occurs (str "#define " ++ guard) content ->
   verdict = (true, [])) /\
  (forall t1 t2 : text,
     identifier guard -> identifier t1 -> identifier t2 ->
     startswith guard t1 = false \/ startswith guard t2 = false ->
     HeaderGuards.check_content U filepath (two_directives t1 t2)
       = (false, [diagnostic])) /\
  (forall fs : filesystem,
     fs filepath = ReadOk content ->
     HeaderGuards.check_header_guard U fs filepath = verdict).
Proof.
  intros guard verdict diagnostic.
  split; [apply check_content_verdict|].
  split.
  { destruct (Out.value verdict) eqn:V.
    - apply check_content_verdict in V. unfold verdict.
      now rewrite (check_content_passes U _ _ V).
    - assert (N : ~ guarded guard content).
      { intros G. apply check_content_verdict in G. fold verdict in G. congruence. }
      unfold verdict. now rewrite (check_content_fails U _ _ N). }
  split; [apply guard_in_message|].
  split.
  { intros H1 H2. apply check_content_passes. now apply exact_directives_guarded. }
  split.
  { intros t1 t2 Hg H1 H2 Hch. apply check_content_fails.
    now apply changed_token_unguarded. }
  intros fs Hfs. unfold HeaderGuards.check_header_guard. now rewrite Hfs.
Qed.

Lemma C1_header_guard_predicate_witness :
  let p := str "include/src/Layers/Layer.h" in
  HeaderGuards.check_content sample_table p
    (two_directives (str "LAYERS_LAYER_X") (str "LAYERS_LAYER_H"))
  = (false, [str "include/src/Layers/Layer.h: Missing proper header guard (expected: LAYERS_LAYER_H or #pragma once)"]).
Proof.
  intros p.
  apply (proj1 (proj2 (proj2 (proj2 (proj2
           (C1_header_guard_predicate sample_table p (str "#pragma once"))))))).
  - reflexivity.
  - reflexivity.
  - reflexivity.
  - left. reflexivity.
Defined.

(** ** The annotation-format predicate *)

Lemma keyword_spec (kw : text) :
  Re.matches Todos.keyword kw <-> kw = str "TODO" \/ kw = str "FIXME".
Proof. unfold Todos.keyword. now rewrite ReFacts.or_spec, !ReFacts.lit_spec. Qed.

Lemma attribution_spec (attr : text) :
  Re.matches Todos.attribution attr <->
  attr = [] \/
  exists who, attr = str "(" ++ who ++ str ")" /\ who <> [] /\
              forallb (fun c => negb (Ascii.eqb c ")")) who = true.
Proof.
  unfold Todos.attribution. rewrite ReFacts.opt_spec. split.
  - intros [H | ->]; [right | now left].
    apply ReFacts.cat_spec in H as (a & r & -> & Ha & H).
    apply ReFacts.lit_spec in Ha as ->.
    apply ReFacts.cat_spec in H as (who & c & -> & Hw & Hc).
    apply ReFacts.lit_spec in Hc as ->.
    apply ReFacts.plus_class_spec in Hw as [Hne Hw]. now exists who.
  - intros [-> | (who & -> & Hne & Hw)]; [now right | left].
    apply ReFacts.cat_spec. exists (str "("), (who ++ str ")").
    split; [reflexivity|]. split; [now apply ReFacts.lit_spec|].
    apply ReFacts.cat_spec. exists who, (str ")"). split; [reflexivity|].
    split; [now apply ReFacts.plus_class_spec | now apply ReFacts.lit_spec].
Qed.

Lemma valid_pattern_spec (m : text) :
  Re.matches Todos.valid_pattern m <-> well_formed_annotation m.
Proof.
  unfold Todos.valid_pattern, well_formed_annotation. split.
  - intros H.
    apply ReFacts.cat_spec in H as (s0 & r0 & -> & H0 & H).
    apply ReFacts.lit_spec in H0 as ->.
    apply ReFacts.cat_spec in H as (kw & r1 & -> & Hkw & H).
    apply ReFacts.cat_spec in H as (attr & r2 & -> & Hat & H).
    apply ReFacts.cat_spec in H as (col & r3 & -> & Hcol & H).
    apply ReFacts.lit_spec in Hcol as ->.
    apply ReFacts.cat_spec in H as (ws & txt & -> & Hws & Htxt).
    exists kw, attr, ws, txt. split; [reflexivity|].
    split; [now apply keyword_spec|]. split; [now apply attribution_spec|].
    split; [now apply ReFacts.plus_space_spec | now apply ReFacts.plus_class_spec].
  - intros (kw & attr & ws & txt & -> & Hkw & Hat & Hws & Htxt).
    apply ReFacts.cat_spec. do 2 eexists. split; [reflexivity|].
    split; [now apply ReFacts.lit_spec|].
    apply ReFacts.cat_spec. do 2 eexists. split; [reflexivity|].
    split; [now apply keyword_spec|].
    apply ReFacts.cat_spec. do 2 eexists. split; [reflexivity|].
    split; [now apply attribution_spec|].
    apply ReFacts.cat_spec. do 2 eexists. split; [reflexivity|].
    split; [now apply ReFacts.lit_spec|].
    apply ReFacts.cat_spec. do 2 eexists. split; [reflexivity|].
    split; [now apply ReFacts.plus_space_spec | now apply ReFacts.plus_class_spec].
Qed.

Lemma valid_search_spec (line : text) :
  Re.search Todos.valid_pattern line = true <-> follows_format line.
Proof.
  rewrite ReFacts.search_spec. unfold follows_format. split.
  - intros (pre & m & post & E & H). exists pre, m, post.
    split; [exact E | now apply valid_pattern_spec].
  - intros (pre & m & post & E & H). exists pre, m, post.
    split; [exact E | now apply valid_pattern_spec].
Qed.

Lemma todo_search_spec (line : text) :
  Re.search Todos.todo_pattern line = true <-> has_marker line.
Proof.
  rewrite ReFacts.search_spec. unfold has_marker, occurs, Todos.todo_pattern. split.
  - intros (pre & m & post & -> & H).
    apply ReFacts.cat_spec in H as (s0 & kw & -> & H0 & Hkw).
    apply ReFacts.lit_spec in H0 as ->.
    apply keyword_spec in Hkw as [-> | ->]; [left | right]; now exists pre, post.
  - intros [(pre & post & ->) | (pre & post & ->)].
    + exists pre, (str "//TODO"), post. split; [reflexivity|].
      apply ReFacts.cat_spec. exists (str "//"), (str "TODO").
      split; [reflexivity|]. split; [now apply ReFacts.lit_spec|].
      apply keyword_spec. now left.
    + exists pre, (str "//FIXME"), post. split; [reflexivity|].
      apply ReFacts.cat_spec. exists (str "//"), (str "FIXME").
      split; [reflexivity|]. split; [now apply ReFacts.lit_spec|].
      apply keyword_spec. now right.
Qed.

Lemma flagged_spec (line : text) : flagged line = true <-> violation line.
Proof.
  unfold flagged, violation.
  rewrite andb_true_iff, negb_true_iff, todo_search_spec, <- valid_search_spec.
  now destruct (Re.search Todos.valid_pattern line).
Qed.

Lemma visit_flagged (issues : list text) (i : nat) (line : text) :
  Todos.visit issues (i, line) =
  if flagged line then issues ++ [Todos.issue i line] else issues.
Proof.
  unfold Todos.visit, flagged.
  destruct (Re.search Todos.todo_pattern line); [|reflexivity].
  now destruct (Re.search Todos.valid_pattern line).
Qed.

Lemma fold_visit (numbered : list (nat * text)) (acc : list text) :
  fold_left Todos.visit numbered acc =
  acc ++ map (fun e => Todos.issue (fst e) (snd e))
             (filter (fun e => flagged (snd e)) numbered).
Proof.
  revert acc; induction numbered as [|[i line] rest IH]; intros acc;
    cbn [fold_left filter map snd].
  - now rewrite app_nil_r.
  - rewrite IH, visit_flagged. destruct (flagged line); simpl; [|reflexivity].
    now rewrite <- app_assoc.
Qed.

Lemma enumerate_in (A : Type) (d : A) (xs : list A) (k i : nat) (x : A) :
  In (i, x) (enumerate k xs) <->
  k <= i < k + length xs /\ nth (i - k) xs d = x.
Proof.
  revert k; induction xs as [|y xs IH]; intros k; simpl.
  - split; [tauto | lia].
  - rewrite IH. split.
    + intros [E | [Hb Hn]].
      * injection E as <- <-. rewrite Nat.sub_diag. split; [lia | reflexivity].
      * split; [lia|]. replace (i - k) with (S (i - S k)) by lia. exact Hn.
    + intros [Hb Hn]. destruct (Nat.eq_dec i k) as [-> | Hne].
      * left. rewrite Nat.sub_diag in Hn. now subst.
      * right. split; [lia|].
        replace (i - k) with (S (i - S k)) in Hn by lia. exact Hn.
Qed.

Lemma enumerate_app (A : Type) (xs ys : list A) (k : nat) :
  enumerate k (xs ++ ys) = enumerate k xs ++ enumerate (k + length xs) ys.
Proof.
  revert k; induction xs as [|x xs IH]; intros k; simpl.
  - now rewrite Nat.add_0_r.
  - rewrite IH. now replace (S k + length xs) with (k + S (length xs)) by lia.
Qed.

Lemma enumerate_sorted (A : Type) (keep : nat * A -> bool) (xs : list A) (k : nat) :
  StronglySorted lt (map fst (filter keep (enumerate k xs))).
Proof.
  revert k; induction xs as [|x xs IH]; intros k; simpl; [constructor|].
  destruct (keep (k, x)); [|apply IH]. simpl. constructor; [apply IH|].
  apply Forall_forall. intros i Hi. apply in_map_iff in Hi as ([j y] & <- & Hin).
  apply filter_In in Hin as [Hin _].
  apply (enumerate_in A y) in Hin. simpl. lia.
Qed.

Lemma collect_issues_filter (lines : list text) :
  Todos.collect_issues lines =
  map (fun e => Todos.issue (fst e) (snd e))
      (filter (fun e => flagged (snd e)) (enumerate 1 lines)).
Proof. unfold Todos.collect_issues. now rewrite fold_visit. Qed.

Lemma print_all (issues : list text) :
  Out.for_each issues (fun issue _ => Out.print issue) tt = (tt, issues).
Proof.
  induction issues as [|x issues IH]; [reflexivity|].
  cbn [Out.for_each]. unfold Out.bind. change (Out.print x) with (tt, [x]).
  cbv beta iota. now rewrite IH.
Qed.

Lemma report_spec (filepath : text) (issues : list text) :
  Todos.report filepath issues =
  match issues with
  | [] => (true, [])
  | _ :: _ => (false, [filepath ++ str ":"; Todos.format_hint] ++ issues)
  end.
Proof.
  destruct issues as [|x issues]; [reflexivity|].
  unfold Todos.report. unfold Out.bind at 1 2 3. rewrite print_all.
  simpl. now rewrite app_nil_r.
Qed.

(** C2 (as stated, refuted). The stricter pattern does not ask for spaces and
    a description: a marker line whose colon is followed by a TAB and not by a
    space, and one whose colon is followed by blanks only, are not reported. *)
Lemma C2_tab_and_blank_description_pass :
  Todos.check_lines (str "a.cpp")
    [str "//TODO:" ++ ["009"] ++ str "fix this" ++ ["010"];
     str "//FIXME:  " ++ ["010"]]
  = (true, []).
Proof. reflexivity. Qed.

(** C2 (amended). The annotation-format predicate reports exactly the lines
    that hold a "//TODO" or "//FIXME" marker and contain no text of the form:
    marker, optional parenthesised attribution, colon, one or more white
    space characters (any white space of Unicode: a TAB or a no-break space
    will do), then one or more characters other than a line feed (blanks
    will do).  All such lines are reported, in ascending order of their
    1-based line number, each as "  Line N: <line, stripped of the white
    space around it>"; the file fails exactly when there is one, and a file
    that was read is judged by its lines.  "//TODO: fix this" and
    "//TODO(alice): fix this" pass, "//TODO fix this" is reported with its
    line number, and a file with three malformed lines gives exactly three
    numbered diagnostics. *)
Theorem C2_annotation_format (filepath : text) (lines : list text) :
  (exists numbers : list nat,
     Todos.collect_issues lines =
       map (fun i => str "  Line " ++ str_of_nat i ++ str ": "
                       ++ strip (nth (i - 1) lines []))
           numbers /\
     StronglySorted lt numbers /\
     (forall i, In i numbers <->
                1 <= i <= length lines /\ violation (nth (i - 1) lines []))) /\
  Todos.check_lines filepath lines =
    match Todos.collect_issues lines with
    | [] => (true, [])
    | _ :: _ => (false, [filepath ++ str ":"; Todos.format_hint]
                          ++ Todos.collect_issues lines)
    end /\
  (forall (fs : filesystem) (content : text),
     fs filepath = ReadOk content ->
     Todos.check_todos fs filepath = Todos.check_lines filepath (readlines content)) /\
  Todos.check_lines filepath [str "//TODO:" ++ bytes [194; 160] ++ str "note"]
    = (true, []) /\
  Todos.collect_issues [bytes [227; 128; 128] ++ str "//FIXME later" ++ bytes [194; 160; 10]]
    = [str "  Line 1: //FIXME later"] /\
  Todos.check_lines filepath [str "//TODO: fix this"] = (true, []) /\
  Todos.check_lines filepath [str "//TODO(alice): fix this"] = (true, []) /\
  Todos.check_lines filepath [str "int x;" ++ ["010"]; str "//TODO fix this" ++ ["010"]]
    = (false, [filepath ++ str ":"; Todos.format_hint;
               str "  Line 2: //TODO fix this"]) /\
  Todos.collect_issues
    [str "// a header" ++ ["010"];
     str "  //TODO fix" ++ ["010"];
     str "int y; //FIXME(bob) later" ++ ["010"];
     str "//TODO: documented" ++ ["010"];
     str "//FIXME:" ++ ["010"]]
  = [str "  Line 2: //TODO fix";
     str "  Line 3: int y; //FIXME(bob) later";
     str "  Line 5: //FIXME:"].
Proof.
  split.
  { exists (map fst (filter (fun e => flagged (snd e)) (enumerate 1 lines))).
    split; [|split].
    - rewrite collect_issues_filter, map_map. apply map_ext_in.
      intros [i line] Hin. apply filter_In in Hin as [Hin _].
      apply (enumerate_in text []) in Hin as [_ Hn]. simpl. now rewrite Hn.
    - apply enumerate_sorted.
    - intros i. rewrite in_map_iff. split.
      + intros ([j line] & <- & Hin). apply filter_In in Hin as [Hin Hf].
        apply (enumerate_in text []) in Hin as [Hb Hn]. simpl in *.
        split; [lia|]. rewrite Hn. now apply flagged_spec.
      + intros [Hb Hv]. exists (i, nth (i - 1) lines []). split; [reflexivity|].
        apply filter_In. split.
        * apply (enumerate_in text []). split; [lia | reflexivity].
        * now apply flagged_spec. }
  split.
  { unfold Todos.check_lines. rewrite report_spec.
    now destruct (Todos.collect_issues lines). }
  split.
  { intros fs content Hfs. unfold Todos.check_todos. now rewrite Hfs. }
  repeat split.
Qed.

(** C9. A line without an adjacent marker, such as "// TODO fix this" where a
    space separates the slashes from the keyword, is never reported: the loop
    body leaves the issue list as it was, so in any file the line counts as
    an empty line would, although it lacks the colon-and-description format. *)
Theorem C9_spaced_marker_not_examined (line : text)
    (Htodo : ~ occurs (str "//TODO") line)
    (Hfixme : ~ occurs (str "//FIXME") line) :
  (forall (issues : list text) (i : nat), Todos.visit issues (i, line) = issues) /\
  (forall before after : list text,
     Todos.collect_issues (before ++ line :: after)
     = Todos.collect_issues (before ++ [] :: after)) /\
  (forall filepath : text, Todos.check_lines filepath [line] = (true, [])).
Proof.
  assert (Hline : flagged line = false).
  { unfold flagged. destruct (Re.search Todos.todo_pattern line) eqn:S; [|reflexivity].
    apply todo_search_spec in S as [S | S]; contradiction. }
  assert (Hvisit : forall issues i, Todos.visit issues (i, line) = issues).
  { intros issues i. now rewrite visit_flagged, Hline. }
  split; [exact Hvisit|]. split.
  - intros before after. rewrite !collect_issues_filter, !enumerate_app.
    simpl. rewrite !filter_app. simpl. now rewrite Hline.
  - intros filepath. unfold Todos.check_lines. rewrite collect_issues_filter.
    cbn [enumerate filter snd]. now rewrite Hline.
Qed.

Lemma C9_spaced_marker_not_examined_witness :
  Todos.check_lines (str "a.cpp") [str "// TODO fix this"] = (true, []) /\
  Todos.check_lines (str "a.cpp") [str "//TODO fix this"]
  = (false, [str "a.cpp:"; Todos.format_hint; str "  Line 1: //TODO fix this"]).
Proof.
  split; [|reflexivity].
  apply (C9_spaced_marker_not_examined (str "// TODO fix this")).
  - apply not_occurs_contains. reflexivity.
  - apply not_occurs_contains. reflexivity.
Defined.

(** ** External tools: timeouts and faults *)

Section Containment.
Import Proc.

Lemma contained_ret (A : Type) (a : A) : contained (ret a).
Proof.
  intros w st. exists a, st, []. split; [reflexivity|].
  split; [now rewrite app_nil_r | constructor].
Qed.

Lemma contained_print (item : text) : contained (print item).
Proof.
  intros w st. eexists tt, _, []. split; [reflexivity|]. simpl.
  split; [now rewrite app_nil_r | constructor].
Qed.

Lemma contained_bind (A B : Type) (m : M A) (f : A -> M B) :
  contained m -> (forall a, contained (f a)) -> contained (bind m f).
Proof.
  intros Hm Hf w st. destruct (Hm w st) as (a & st1 & n1 & E1 & C1 & F1).
  destruct (Hf a w st1) as (b & st2 & n2 & E2 & C2 & F2).
  exists b, st2, (n1 ++ n2). unfold bind. rewrite E1. split; [exact E2|].
  split; [now rewrite C2, C1, app_assoc | now apply Forall_app].
Qed.

Lemma contained_for_each (A S : Type) (xs : list A) (body : A -> S -> M S) (s : S) :
  (forall x s', contained (body x s')) -> contained (for_each xs body s).
Proof.
  intros Hbody. revert s. induction xs as [|x xs IH]; intros s; simpl.
  - apply contained_ret.
  - apply contained_bind; [apply Hbody | exact IH].
Qed.

Variable describe : exn -> text.

(** What [run_command] of the code-quality runner does, case by case. *)
Lemma quality_run_command_spec (cmd : list text) (description : text)
    (w : world) (st : state) :
  let rq := {| cmd := cmd; timeout := Some 300; check := false |} in
  let st' := after_call st [str "[*] " ++ description] rq in
  CodeQuality.run_command describe cmd description w st =
  match w (calls st) rq with
  | Hangs => (Done (false, [], describe (TimeoutExpired cmd 300)), st')
  | CannotLaunch m => (Done (false, [], describe (OSError m)), st')
  | Exits d rc out err =>
      if 300 <? d then (Done (false, [], describe (TimeoutExpired cmd 300)), st')
      else (Done ((rc =? 0)%Z, out, err), st')
  | Garbles d rc m =>
      if 300 <? d then (Done (false, [], describe (TimeoutExpired cmd 300)), st')
      else (Done (false, [], describe (UnicodeDecodeError m)), st')
  end.
Proof.
  intros rq st'. unfold CodeQuality.run_command, bind, print, try_except, run, ret.
  cbn -[Nat.ltb Z.eqb]. fold rq.
  destruct (w (calls st) rq) as [d rc out err| |m|d rc m]; cbn -[Nat.ltb Z.eqb];
    try reflexivity; destruct (300 <? d); reflexivity.
Qed.

Lemma quality_run_command_contained (cmd : list text) (description : text) :
  contained (CodeQuality.run_command describe cmd description).
Proof.
  intros w st. pose proof (quality_run_command_spec cmd description w st) as H.
  cbv zeta in H. rewrite H.
  destruct (w (calls st) _) as [d rc out err| |m|d rc m];
    [destruct (300 <? d)| | |destruct (300 <? d)];
    eexists _, _, [_]; (split; [reflexivity|]); (split; [reflexivity|]);
    repeat constructor.
Qed.

Variable glob : text -> text -> list text.
Variable build_exists : bool.

Lemma find_clang_format_contained (paths : list text) :
  contained (CodeQuality.find_clang_format describe paths).
Proof.
  induction paths as [|path rest IH]; simpl.
  - apply contained_ret.
  - apply contained_bind; [apply quality_run_command_contained|].
    intros [[success out] err]. destruct success; [apply contained_ret | exact IH].
Qed.

Lemma format_check_contained :
  contained (CodeQuality.run_clang_format_check describe glob).
Proof.
  unfold CodeQuality.run_clang_format_check.
  apply contained_bind; [apply contained_print|]. intros _.
  destruct (CodeQuality.cpp_files glob) as [|f fs] eqn:E.
  - apply contained_bind; [apply contained_print | intros _; apply contained_ret].
  - apply contained_bind; [apply find_clang_format_contained|].
    intros [clang_format|].
    + apply contained_bind.
      * apply contained_for_each. intros x n.
        apply contained_bind; [apply quality_run_command_contained|].
        intros [[success out] err]. apply contained_ret.
      * intros issues. apply contained_bind; [apply contained_print|].
        intros _. apply contained_ret.
    + apply contained_bind; [apply contained_print | intros _; apply contained_ret].
Qed.

Lemma tidy_check_contained :
  contained (CodeQuality.run_clang_tidy_check describe build_exists).
Proof.
  unfold CodeQuality.run_clang_tidy_check, CodeQuality.tidy_via_cmake.
  apply contained_bind; [apply contained_print|]. intros _.
  apply contained_bind.
  - destruct build_exists; [|apply contained_ret].
    apply contained_bind; [apply quality_run_command_contained|].
    intros [[success out] err]. apply contained_ret.
  - intros done. destruct done;
      (apply contained_bind; [apply contained_print | intros _; apply contained_ret]).
Qed.

Lemma quality_main_contained (parse_args : list text -> parse_outcome CodeQuality.flags)
    (sys_argv : list text) (args : CodeQuality.flags) :
  parse_args (tl sys_argv) = Parsed args ->
  contained (CodeQuality.main describe glob build_exists parse_args sys_argv).
Proof.
  intros Hp. unfold CodeQuality.main. rewrite Hp.
  apply contained_bind; [apply contained_print|]. intros _.
  apply contained_bind; [apply contained_print|]. intros _.
  apply contained_bind.
  { destruct (negb (CodeQuality.tidy_only args)); [|apply contained_ret].
    apply contained_bind; [apply format_check_contained|].
    intros ok. apply contained_ret. }
  intros success. apply contained_bind.
  { destruct (negb (CodeQuality.format_only args)); [|apply contained_ret].
    apply contained_bind; [apply tidy_check_contained|].
    intros ok. apply contained_ret. }
  intros success'. apply contained_bind; [apply contained_print|]. intros _.
  destruct success';
    (apply contained_bind; [apply contained_print | intros _; apply contained_ret]).
Qed.

End Containment.

Lemma coverage_run_command_unguarded (Colors : Coverage.colors) (cmd : list text)
    (check : bool) (w : Proc.world) (st : Proc.state) :
  let rq := {| Proc.cmd := cmd; Proc.timeout := None; Proc.check := check |} in
  let st' := {| Proc.console := Proc.console st;
                Proc.calls := Proc.calls st ++ [rq] |} in
  (w (Proc.calls st) rq = Proc.Hangs ->
   Coverage.run_command Colors cmd check w st = (Proc.Blocked, st')) /\
  (forall m, w (Proc.calls st) rq = Proc.CannotLaunch m ->
   Coverage.run_command Colors cmd check w st = (Proc.Raised (Proc.OSError m), st')) /\
  (forall d rc m, w (Proc.calls st) rq = Proc.Garbles d rc m ->
   Coverage.run_command Colors cmd check w st
     = (Proc.Raised (Proc.UnicodeDecodeError m), st')).
Proof.
  intros rq st'. unfold Coverage.run_command, Proc.try_except_called, Proc.run.
  cbn. fold rq. split; [|split].
  - intros ->. reflexivity.
  - intros m ->. reflexivity.
  - intros d rc m ->. reflexivity.
Qed.

(** A fault that leaves [main] ends the run with status 1. *)
Lemma entry_fault (Colors : Coverage.colors) (describe : Proc.exn -> text)
    (body : Proc.M unit) (w : Proc.world) (st st' : Proc.state) (e : Proc.exn) :
  body w st = (Proc.Raised e, st') -> Proc.is_exception e = true ->
  fst (Coverage.entry Colors describe body w st) = Proc.Done 1%Z.
Proof.
  intros E He. unfold Coverage.entry. rewrite E.
  destruct e; try discriminate He; reflexivity.
Qed.

(** C8 (as stated, refuted). The coverage wrapper's [run_command] passes no
    timeout: when cmake hangs the call never returns, and when cmake cannot be
    launched the fault leaves the step and the top-level handler ends the
    whole run with status 1. *)
Lemma C8_coverage_call_has_no_timeout :
  let describe := fun e => match e with Proc.OSError m => m | _ => [] end in
  let hang : Proc.world := fun _ _ => Proc.Hangs in
  let missing : Proc.world :=
    fun _ _ => Proc.CannotLaunch (str "[Errno 2] No such file or directory: 'cmake'") in
  let rq := {| Proc.cmd := [str "cmake"]; Proc.timeout := None; Proc.check := true |} in
  Coverage.run_command no_colors [str "cmake"] true hang Proc.start
    = (Proc.Blocked, {| Proc.console := []; Proc.calls := [rq] |}) /\
  ~ bounded rq /\
  fst (Coverage.configure_cmake no_colors (str ".") (str "build") (str "vcpkg.cmake")
         missing Proc.start)
    = Proc.Raised (Proc.OSError (str "[Errno 2] No such file or directory: 'cmake'")) /\
  fst (Coverage.entry no_colors describe
         (Coverage.configure_cmake no_colors (str ".") (str "build") (str "vcpkg.cmake"))
         missing Proc.start)
    = Proc.Done 1%Z.
Proof.
  repeat split; try reflexivity. unfold bounded. discriminate.
Qed.

(** C8 (amended). In the code-quality runner every external tool is started
    through [run_command], a blocking [subprocess.run] call with the fixed
    timeout of 300 seconds: a timeout, a launch fault or output that cannot
    be decoded is returned as the failure of that step,
    [(False, "", str(e))], and a run whose arguments parse always returns,
    having made only calls with that timeout.  The coverage wrapper's
    [run_command] passes no timeout and handles only a non-zero exit status:
    a hanging child blocks it, and a launch fault or undecodable output is
    raised out of the step; such a fault, once out of [main], ends the whole
    run with status 1. *)
Theorem C8_quality_runner_bounds_every_call (describe : Proc.exn -> text)
    (glob : text -> text -> list text) (build_exists : bool) :
  (forall cmd description w st,
     let rq := {| Proc.cmd := cmd; Proc.timeout := Some 300; Proc.check := false |} in
     let st' := after_call st [str "[*] " ++ description] rq in
     CodeQuality.run_command describe cmd description w st =
     match w (Proc.calls st) rq with
     | Proc.Hangs =>
         (Proc.Done (false, [], describe (Proc.TimeoutExpired cmd 300)), st')
     | Proc.CannotLaunch m =>
         (Proc.Done (false, [], describe (Proc.OSError m)), st')
     | Proc.Exits d rc out err =>
         if 300 <? d
         then (Proc.Done (false, [], describe (Proc.TimeoutExpired cmd 300)), st')
         else (Proc.Done ((rc =? 0)%Z, out, err), st')
     | Proc.Garbles d rc m =>
         if 300 <? d
         then (Proc.Done (false, [], describe (Proc.TimeoutExpired cmd 300)), st')
         else (Proc.Done (false, [], describe (Proc.UnicodeDecodeError m)), st')
     end) /\
  contained (CodeQuality.run_clang_format_check describe glob) /\
  contained (CodeQuality.run_clang_tidy_check describe build_exists) /\
  (forall parse_args sys_argv args,
     parse_args (tl sys_argv) = Parsed args ->
     contained (CodeQuality.main describe glob build_exists parse_args sys_argv)) /\
  (forall Colors cmd check w st,
     let rq := {| Proc.cmd := cmd; Proc.timeout := None; Proc.check := check |} in
     let st' := {| Proc.console := Proc.console st;
                   Proc.calls := Proc.calls st ++ [rq] |} in
     (w (Proc.calls st) rq = Proc.Hangs ->
      Coverage.run_command Colors cmd check w st = (Proc.Blocked, st')) /\
     (forall m, w (Proc.calls st) rq = Proc.CannotLaunch m ->
      Coverage.run_command Colors cmd check w st
        = (Proc.Raised (Proc.OSError m), st')) /\
     (forall d rc m, w (Proc.calls st) rq = Proc.Garbles d rc m ->
      Coverage.run_command Colors cmd check w st
        = (Proc.Raised (Proc.UnicodeDecodeError m), st'))) /\
  (forall Colors (body : Proc.M unit) w st st' e,
     body w st = (Proc.Raised e, st') -> Proc.is_exception e = true ->
     fst (Coverage.entry Colors describe body w st) = Proc.Done 1%Z).
Proof.
  split; [intros; apply quality_run_command_spec|].
  split; [apply format_check_contained|].
  split; [apply tidy_check_contained|].
  split; [intros; eapply quality_main_contained; eassumption|].
  split; [intros; apply coverage_run_command_unguarded|].
  intros. eapply entry_fault; eassumption.
Qed.

Lemma C8_quality_runner_bounds_every_call_witness :
  let describe := fun e => match e with Proc.OSError m => m | _ => str "timed out" end in
  let glob := fun (dir pattern : text) =>
                if text_eqb pattern (str "**/*.cpp") then [dir ++ str "/main.cpp"] else [] in
  let parse := fun _ : list text =>
                 Parsed {| CodeQuality.format_only := false; CodeQuality.tidy_only := false |} in
  let hang : Proc.world := fun _ _ => Proc.Hangs in
  exists status st' new,
    CodeQuality.main describe glob true parse [str "run-code-quality.py"] hang Proc.start
      = (Proc.Done status, st') /\
    Proc.calls st' = Proc.calls Proc.start ++ new /\ Forall bounded new.
Proof.
  intros describe glob parse hang.
  apply (proj1 (proj2 (proj2 (proj2
           (C8_quality_runner_bounds_every_call describe glob true))))
           parse [str "run-code-quality.py"]
           {| CodeQuality.format_only := false; CodeQuality.tidy_only := false |}).
  reflexivity.
Defined.

(* ================================================================== *)
(** * Further properties of the scripts                                 *)
(* ================================================================== *)

(** ** Paths in normal form *)

Lemma splitroot_unfold (p : text) :
  Pathlib.splitroot p =
  match p with
  | [] => ([], p)
  | c1 :: rest1 =>
      if Ascii.eqb c1 "/" then
        match rest1 with
        | [] => (["/"], rest1)
        | c2 :: rest2 =>
            if Ascii.eqb c2 "/" then
              match rest2 with
              | [] => (["/"; "/"], rest2)
              | c3 :: _ =>
                  if Ascii.eqb c3 "/" then (["/"], rest1) else (["/"; "/"], rest2)
              end
            else (["/"], rest1)
        end
      else ([], p)
  end.
Proof.
  destruct p as [|c1 rest1]; [reflexivity|].
  destruct c1 as [[] [] [] [] [] [] [] []]; try reflexivity.
  destruct rest1 as [|c2 rest2]; [reflexivity|].
  destruct c2 as [[] [] [] [] [] [] [] []]; try reflexivity.
  destruct rest2 as [|c3 rest3]; [reflexivity|].
  destruct c3 as [[] [] [] [] [] [] [] []]; reflexivity.
Qed.

Lemma splitroot_root_ok (p root rel : text) :
  Pathlib.splitroot p = (root, rel) -> root_ok root.
Proof.
  rewrite splitroot_unfold. unfold root_ok.
  destruct p as [|c1 [|c2 [|c3 r]]]; simpl;
    repeat match goal with |- context [Ascii.eqb ?a ?b] => destruct (Ascii.eqb a b) end;
    intros H; injection H as <- _; auto.
Qed.

Lemma split_char_slash_free (sep : ascii) (s x : text) :
  In x (split_char sep s) -> ~ In sep x.
Proof.
  revert x; induction s as [|c s IH]; intros x; simpl.
  - intros [<- | []]. auto.
  - destruct (Ascii.eqb c sep) eqn:E.
    + intros [<- | H]; [auto | now apply IH].
    + destruct (split_char sep s) as [|w ws] eqn:S.
      * intros [<- | []]. intros [-> | []]. now rewrite Ascii.eqb_refl in E.
      * intros [<- | H].
        -- intros [-> | Hin]; [now rewrite Ascii.eqb_refl in E|].
           apply (IH w); [now left | exact Hin].
        -- apply IH. now right.
Qed.

Lemma split_char_plain (sep : ascii) (x : text) :
  ~ In sep x -> split_char sep x = [x].
Proof.
  induction x as [|c x IH]; intros H; simpl; [reflexivity|].
  destruct (Ascii.eqb c sep) eqn:E.
  - apply Ascii.eqb_eq in E. subst. exfalso. apply H. now left.
  - rewrite IH; [reflexivity|]. intros Hin. apply H. now right.
Qed.

Lemma split_char_app (sep : ascii) (x rest : text) :
  ~ In sep x -> split_char sep (x ++ sep :: rest) = x :: split_char sep rest.
Proof.
  induction x as [|c x IH]; intros H; simpl.
  - now rewrite Ascii.eqb_refl.
  - destruct (Ascii.eqb c sep) eqn:E.
    + apply Ascii.eqb_eq in E. subst. exfalso. apply H. now left.
    + rewrite IH; [reflexivity|]. intros Hin. apply H. now right.
Qed.

Lemma split_join (parts : list text) :
  parts <> [] -> Forall (fun x => ~ In "/" x) parts ->
  split_char "/" (join ["/"] parts) = parts.
Proof.
  induction parts as [|x parts IH]; intros Hne Hall; [congruence|].
  inversion Hall as [|? ? Hx Hrest]; subst.
  destruct parts as [|y parts].
  - simpl. now apply split_char_plain.
  - change (join ["/"] (x :: y :: parts)) with (x ++ "/" :: join ["/"] (y :: parts)).
    rewrite split_char_app by assumption. rewrite IH; [reflexivity | discriminate | assumption].
Qed.

Lemma is_real_part_spec (x : text) :
  Pathlib.is_real_part x = true <-> x <> [] /\ x <> ["."].
Proof.
  unfold Pathlib.is_real_part, text_eqb.
  destruct (list_eq_dec ascii_dec x []), (list_eq_dec ascii_dec x ["."]);
    simpl; split; try discriminate; try tauto.
Qed.

Lemma parse_tail_real (rel : text) : Forall real_part (Pathlib.parse_tail rel).
Proof.
  apply Forall_forall. intros x Hin. unfold Pathlib.parse_tail in Hin.
  apply filter_In in Hin as [Hin Hreal]. apply is_real_part_spec in Hreal as [H1 H2].
  repeat split; try assumption. now apply (split_char_slash_free "/" rel).
Qed.

(** Every path prints as a root followed by real components. *)
Lemma as_posix_normal (p : text) :
  exists root parts,
    root_ok root /\ Forall real_part parts /\ Pathlib.as_posix p = render root parts.
Proof.
  destruct p as [|c p].
  - exists [], []. repeat split; [now left | constructor].
  - unfold Pathlib.as_posix.
    destruct (Pathlib.splitroot (c :: p)) as [root rel] eqn:E.
    exists root, (Pathlib.parse_tail rel).
    split; [now apply (splitroot_root_ok (c :: p) root rel)|].
    split; [apply parse_tail_real | reflexivity].
Qed.

Lemma filter_real (parts : list text) :
  Forall real_part parts -> filter Pathlib.is_real_part parts = parts.
Proof.
  induction 1 as [|x parts [H1 [H2 _]] _ IH]; simpl; [reflexivity|].
  assert (E : Pathlib.is_real_part x = true) by now apply is_real_part_spec.
  now rewrite E, IH.
Qed.

Lemma as_posix_rooted (root : text) (c0 : ascii) (J : text) :
  root_ok root -> Ascii.eqb c0 "/" = false ->
  Pathlib.as_posix (root ++ c0 :: J) =
  match root ++ join ["/"] (Pathlib.parse_tail (c0 :: J)) with
  | [] => ["."]
  | s => s
  end.
Proof.
  intros [-> | [-> | ->]] H; unfold Pathlib.as_posix; cbn [app];
    rewrite splitroot_unfold; rewrite ?Ascii.eqb_refl; cbv beta iota;
    rewrite ?Ascii.eqb_refl; cbv beta iota; rewrite H; reflexivity.
Qed.

Lemma render_stable (root : text) (parts : list text) :
  root_ok root -> Forall real_part parts ->
  Pathlib.as_posix (render root parts) = render root parts.
Proof.
  intros Hroot Hparts. destruct parts as [|x parts].
  - destruct Hroot as [-> | [-> | ->]]; reflexivity.
  - assert (Hsf : Forall (fun y => ~ In "/" y) (x :: parts)).
    { eapply Forall_impl; [|exact Hparts]. intros y [_ [_ H]]. exact H. }
    assert (Htail : Pathlib.parse_tail (join ["/"] (x :: parts)) = x :: parts).
    { unfold Pathlib.parse_tail. rewrite split_join; [|discriminate | assumption].
      now apply filter_real. }
    inversion Hparts as [|? ? [Hx [_ Hslash]] _]; subst.
    assert (EJ : exists c0 J, join ["/"] (x :: parts) = c0 :: J /\ Ascii.eqb c0 "/" = false).
    { destruct x as [|a x]; [congruence|]. exists a.
      assert (Ha : Ascii.eqb a "/" = false).
      { destruct (Ascii.eqb a "/") eqn:E; [|reflexivity].
        apply Ascii.eqb_eq in E. subst. exfalso. apply Hslash. now left. }
      destruct parts; eexists; (split; [reflexivity | exact Ha]). }
    destruct EJ as (c0 & J & EJ & Hc0).
    assert (Er : render root (x :: parts) = root ++ c0 :: J).
    { unfold render. rewrite EJ. now destruct Hroot as [-> | [-> | ->]]. }
    rewrite Er, as_posix_rooted by assumption.
    rewrite <- EJ, Htail. fold (render root (x :: parts)). rewrite Er. now rewrite EJ.
Qed.

Lemma as_posix_idempotent (p : text) :
  Pathlib.as_posix (Pathlib.as_posix p) = Pathlib.as_posix p.
Proof.
  destruct (as_posix_normal p) as (root & parts & Hr & Hp & ->).
  now apply render_stable.
Qed.

Lemma last_app_nonempty (A : Type) (a b : list A) (d : A) :
  b <> [] -> last (a ++ b) d = last b d.
Proof.
  intros Hb. induction a as [|x a IH]; [reflexivity|].
  simpl. destruct (a ++ b) eqn:E; [|exact IH].
  apply app_eq_nil in E as [_ E]. congruence.
Qed.

Lemma last_In (A : Type) (l : list A) (d : A) : l <> [] -> In (last l d) l.
Proof.
  induction l as [|x l IH]; intros H; [congruence|].
  destruct l as [|y l]; [now left|]. right. apply IH. discriminate.
Qed.

Lemma join_nonempty (sep : text) (parts : list text) :
  parts <> [] -> Forall (fun x => x <> []) parts -> join sep parts <> [].
Proof.
  intros Hne Hall. destruct parts as [|x parts]; [congruence|].
  inversion Hall as [|? ? Hx _]; subst.
  destruct parts; simpl; [assumption|].
  intros E. apply app_eq_nil in E as [E _]. congruence.
Qed.

Lemma join_last (sep : text) (parts : list text) (d : ascii) :
  parts <> [] -> Forall (fun x => x <> []) parts ->
  last (join sep parts) d = last (last parts []) d.
Proof.
  induction parts as [|x parts IH]; intros Hne Hall; [congruence|].
  inversion Hall as [|? ? Hx Hrest]; subst.
  destruct parts as [|y parts]; [reflexivity|].
  change (join sep (x :: y :: parts)) with (x ++ sep ++ join sep (y :: parts)).
  assert (Hj : join sep (y :: parts) <> []) by (apply join_nonempty; [discriminate | assumption]).
  rewrite !last_app_nonempty; try assumption.
  - rewrite IH; [reflexivity | discriminate | assumption].
  - intros E. apply app_eq_nil in E as [_ E]. congruence.
Qed.

Lemma render_nonempty (root : text) (parts : list text) : render root parts <> [].
Proof. unfold render. destruct (root ++ join ["/"] parts); discriminate. Qed.

(** A printed path never ends with the source root "src/". *)
Lemma as_posix_not_ending_in_src (p pre : text) :
  Pathlib.as_posix p <> pre ++ str "src/".
Proof.
  destruct (as_posix_normal p) as (root & parts & Hroot & Hparts & ->).
  destruct parts as [|x parts].
  - intros E. apply (f_equal (@length ascii)) in E. rewrite length_app in E.
    destruct Hroot as [-> | [-> | ->]]; simpl in E; lia.
  - assert (Hne : Forall (fun y => y <> []) (x :: parts)).
    { eapply Forall_impl; [|exact Hparts]. now intros y [H _]. }
    assert (HJ : join ["/"] (x :: parts) <> [])
      by (apply join_nonempty; [discriminate | assumption]).
    assert (Er : render root (x :: parts) = root ++ join ["/"] (x :: parts)).
    { unfold render. destruct (root ++ join ["/"] (x :: parts)) eqn:E; [|reflexivity].
      apply app_eq_nil in E as [_ E]. congruence. }
    rewrite Er. intros E. apply (f_equal (fun l => last l "/")) in E.
    rewrite last_app_nonempty in E by assumption.
    rewrite join_last in E by (assumption || discriminate).
    rewrite last_app_nonempty in E by discriminate. simpl in E.
    assert (Hin : In (last (x :: parts) []) (x :: parts)) by (apply last_In; discriminate).
    rewrite Forall_forall in Hparts. destruct (Hparts _ Hin) as [Hx [_ Hslash]].
    apply Hslash. rewrite <- E. now apply last_In.
Qed.

(** X1. The expected guard name is never empty, whatever the path: the path
    prints as a non-empty text, a printed path cannot end with "src/", so
    something always follows the source root, and upper-casing never empties
    a text. *)
Theorem X1_guard_never_empty (U : case_table) (filepath : text) :
  HeaderGuards.expected_guard U filepath <> [].
Proof.
  unfold HeaderGuards.expected_guard. rewrite replace_underscored.
  apply upper_nonempty. intros E. apply map_eq_nil in E. revert E.
  destruct (contains (str "src/") (Pathlib.as_posix filepath)) eqn:C.
  - destruct (contains_partition _ _ C) as (pre & rest & P).
    unfold split_once. rewrite P. simpl nth.
    change (str "src/") with (str "src" ++ ["/"]) in P.
    apply partition_sound in P as [E _].
    destruct rest as [|c rest]; [|discriminate].
    intros _. apply (as_posix_not_ending_in_src filepath pre).
    rewrite E. now rewrite app_nil_r.
  - destruct (as_posix_normal filepath) as (root & parts & _ & _ & ->).
    apply render_nonempty.
Qed.

(** X2. The expected guard name contains no path separator, no dot and no
    lower-case ASCII letter, whatever the path.  When the part of the printed
    path it is derived from is ASCII, it has as many characters as that part;
    otherwise it need not: for "src/straße.h" the guard is STRASSE_H, [upper]
    turning the sharp s into two letters. *)
Theorem X2_guard_alphabet (U : case_table) (filepath : text) :
  Forall (fun c => c <> "/" /\ c <> "." /\ is_lower c = false)
         (HeaderGuards.expected_guard U filepath) /\
  (exists rel, source_relative (Pathlib.as_posix filepath) rel /\
               (is_ascii rel ->
                length (HeaderGuards.expected_guard U filepath) = length rel)) /\
  HeaderGuards.expected_guard sample_table (str "src/straße.h") = str "STRASSE_H".
Proof.
  split; [|split; [|reflexivity]].
  - destruct (source_relative_total (Pathlib.as_posix filepath)) as [rel Hrel].
    rewrite (expected_guard_relative U _ _ Hrel).
    pose proof (upper_upper_case U _ (underscored_no_separator rel)) as H.
    apply Forall_forall. intros c Hc. apply upper_case_byte_spec.
    rewrite forallb_forall in H. now apply H.
  - destruct (source_relative_total (Pathlib.as_posix filepath)) as [rel Hrel].
    exists rel. split; [exact Hrel|]. intros Ha.
    rewrite (expected_guard_relative U _ _ Hrel).
    rewrite upper_ascii_text by now apply underscored_ascii.
    now rewrite !length_map.
Qed.

(** X3. Printing a path is idempotent, so the expected guard does not depend
    on how the path is spelled: a path and its printed form ("./" dropped,
    doubled and trailing separators removed) have the same guard. *)
Theorem X3_guard_ignores_spelling (U : case_table) (filepath : text) :
  Pathlib.as_posix (Pathlib.as_posix filepath) = Pathlib.as_posix filepath /\
  HeaderGuards.expected_guard U (Pathlib.as_posix filepath)
  = HeaderGuards.expected_guard U filepath.
Proof.
  split; [apply as_posix_idempotent|].
  unfold HeaderGuards.expected_guard. now rewrite as_posix_idempotent.
Qed.

(** ** Lines of a file *)

Lemma readlines_from_concat (cur s : text) :
  concat (readlines_from cur s) = rev cur ++ s.
Proof.
  revert cur; induction s as [|c s IH]; intros cur; simpl.
  - destruct cur; simpl; [reflexivity | now rewrite app_nil_r].
  - destruct (Ascii.eqb c "010").
    + simpl. rewrite IH. simpl. now rewrite <- app_assoc.
    + rewrite IH. simpl. now rewrite <- app_assoc.
Qed.

Lemma readlines_from_shape (cur s : text) :
  ~ In "010" cur -> Forall line_shape (readlines_from cur s).
Proof.
  revert cur; induction s as [|c s IH]; intros cur Hcur; simpl.
  - destruct cur as [|a cur]; [constructor|]. constructor; [|constructor].
    split.
    + intros E. apply (f_equal (@length ascii)) in E.
      rewrite length_rev in E. discriminate.
    + exists (rev (a :: cur)). split; [|now left].
      intros Hin. apply Hcur. now apply in_rev.
  - destruct (Ascii.eqb c "010") eqn:E.
    + apply Ascii.eqb_eq in E. subst. constructor; [|apply IH; auto].
      split.
      * simpl. intros E. apply app_eq_nil in E as [_ E]. discriminate.
      * exists (rev cur). split; [|now right].
        intros Hin. apply Hcur. now apply in_rev.
    + apply IH. intros [-> | Hin]; [|auto]. now rewrite Ascii.eqb_refl in E.
Qed.

Lemma readlines_from_terminated (cur s : text) :
  Forall ends_with_newline (removelast (readlines_from cur s)).
Proof.
  revert cur; induction s as [|c s IH]; intros cur; simpl.
  - destruct cur; constructor.
  - destruct (Ascii.eqb c "010") eqn:E.
    + apply Ascii.eqb_eq in E. subst.
      pose proof (IH []) as H.
      destruct (readlines_from [] s) as [|l ls]; [constructor|].
      constructor; [now exists (rev cur) | exact H].
    + apply IH.
Qed.

(** Splitting a text into lines loses nothing: the lines put together
    again are the text.  No line is empty, a line feed can only be the last
    character of a line, and every line but the last ends with one. *)
Lemma readlines_round_trip (content : text) :
  concat (readlines content) = content /\
  Forall line_shape (readlines content) /\
  Forall ends_with_newline (removelast (readlines content)).
Proof.
  unfold readlines. split; [apply readlines_from_concat|].
  split; [apply readlines_from_shape; auto | apply readlines_from_terminated].
Qed.

(** ** Passing checks are silent *)

Lemma header_guard_silent (U : case_table) (fs : filesystem) (f : text) :
  Out.value (HeaderGuards.check_header_guard U fs f) = true <->
  Out.printed (HeaderGuards.check_header_guard U fs f) = [].
Proof.
  unfold HeaderGuards.check_header_guard.
  destruct (fs f) as [content|e]; [|split; discriminate].
  unfold HeaderGuards.check_content.
  destruct (contains _ content); [now split|].
  destruct (Re.search _ content && Re.search _ content); split; auto; discriminate.
Qed.

Lemma todos_silent (fs : filesystem) (f : text) :
  Out.value (Todos.check_todos fs f) = true <->
  Out.printed (Todos.check_todos fs f) = [].
Proof.
  unfold Todos.check_todos.
  destruct (fs f) as [content|e]; [|split; discriminate].
  unfold Todos.check_lines. rewrite report_spec.
  destruct (Todos.collect_issues _); split; auto; discriminate.
Qed.

Lemma namespaces_silent (fs : filesystem) (f : text) :
  Out.value (Namespaces.check_namespaces fs f) = true <->
  Out.printed (Namespaces.check_namespaces fs f) = [].
Proof.
  unfold Namespaces.check_namespaces.
  destruct (fs f) as [content|e]; split; auto; discriminate.
Qed.

Lemma run_silent (main : list text -> Out.W Z) (check : text -> Out.W bool)
    (summary : nat -> text) :
  (forall prog files,
     main (prog :: files) =
     (if 0 <? length (failing check files) then 1%Z else 0%Z,
      diagnostics check files ++ trailer summary (length (failing check files)))) ->
  (forall f, Out.value (check f) = true <-> Out.printed (check f) = []) ->
  silent_when_passing main check.
Proof.
  intros Hmain Hcheck. split; [exact Hcheck|].
  intros prog files. rewrite Hmain. unfold Out.value, Out.printed, trailer. simpl.
  destruct (0 <? length (failing check files)) eqn:E.
  - split; [discriminate|]. intros H. apply app_eq_nil in H as [_ H]. discriminate.
  - split; [|reflexivity]. intros _. rewrite app_nil_r.
    apply Nat.ltb_ge in E. assert (F : failing check files = [])
      by (apply length_zero_iff_nil; lia).
    clear E. unfold failing, diagnostics in *.
    induction files as [|f files IH]; [reflexivity|]. simpl in *.
    destruct (Out.value (check f)) eqn:V; [|discriminate].
    apply Hcheck in V. rewrite V. simpl. now apply IH.
Qed.

(** X4. Success is silent: each of the three checks prints nothing exactly
    when it passes, and a whole run prints nothing exactly when it exits with
    status 0. *)
Theorem X4_success_is_silent (U : case_table) (fs : filesystem) :
  silent_when_passing (HeaderGuards.main U fs) (HeaderGuards.check_header_guard U fs) /\
  silent_when_passing (Todos.main fs) (Todos.check_todos fs) /\
  silent_when_passing (Namespaces.main fs) (Namespaces.check_namespaces fs).
Proof.
  split; [|split].
  - eapply run_silent; [apply header_guards_main_result | apply header_guard_silent].
  - eapply run_silent; [apply todos_main_result | apply todos_silent].
  - eapply run_silent; [apply namespaces_main_result | apply namespaces_silent].
Qed.

(** ** Headers: what can and cannot change the verdict *)

Lemma occurs_extend (sub s pre post : text) :
  occurs sub s -> occurs sub (pre ++ s ++ post).
Proof.
  intros (a & b & ->). exists (pre ++ a), (b ++ post). now rewrite <- !app_assoc.
Qed.

Lemma has_directive_extend (kw g s pre post : text) :
  has_directive kw g s -> has_directive kw g (pre ++ s ++ post).
Proof.
  intros (a & ws & b & -> & Hws). exists (pre ++ a), ws, (b ++ post).
  split; [now rewrite <- !app_assoc | exact Hws].
Qed.

Lemma occurs_in (c : ascii) (sub s : text) : occurs (c :: sub) s -> In c s.
Proof.
  intros (pre & post & ->). apply in_or_app. right. now left.
Qed.

Lemma guarded_needs_hash (g content : text) : guarded g content -> In "#" content.
Proof.
  intros [H | [(pre & ws & post & -> & _) _]].
  - now apply (occurs_in "#" (str "pragma once")).
  - apply in_or_app. right. now left.
Qed.

(** X5. Text added before or after a header that passes cannot make it fail. *)
Theorem X5_passing_header_stays_passing (U : case_table) (filepath content pre post : text)
    (Hpass : HeaderGuards.check_content U filepath content = (true, [])) :
  HeaderGuards.check_content U filepath (pre ++ content ++ post) = (true, []).
Proof.
  apply check_content_passes.
  assert (G : guarded (HeaderGuards.expected_guard U filepath) content).
  { apply check_content_verdict. now rewrite Hpass. }
  destruct G as [H | [H1 H2]].
  - left. now apply occurs_extend.
  - right. split; now apply has_directive_extend.
Qed.

Lemma X5_passing_header_stays_passing_witness :
  HeaderGuards.check_content sample_table (str "src/a.h")
    (str "// licence" ++ ["010"] ++ str "#pragma once" ++ ["010"] ++ str "int f();")
  = (true, []).
Proof.
  apply (X5_passing_header_stays_passing sample_table (str "src/a.h") (str "#pragma once")
           (str "// licence" ++ ["010"]) (["010"] ++ str "int f();")).
  reflexivity.
Defined.

(** ** Files that cannot hold a guard or a marker *)

Lemma filter_none (A : Type) (f : A -> bool) (l : list A) :
  (forall x, In x l -> f x = false) -> filter f l = [].
Proof.
  induction l as [|x l IH]; intros H; simpl; [reflexivity|].
  rewrite (H x) by now left. apply IH. intros y Hy. apply H. now right.
Qed.

Lemma no_flagged_no_issues (lines : list text) :
  (forall l, In l lines -> flagged l = false) -> Todos.collect_issues lines = [].
Proof.
  intros H. rewrite collect_issues_filter, filter_none; [reflexivity|].
  intros [i l] Hin. simpl. apply H.
  apply (enumerate_in text []) in Hin as [Hb <-]. apply nth_In. lia.
Qed.

Lemma marker_needs_slash (line : text) : has_marker line -> In "/" line.
Proof.
  intros [H | H].
  - now apply (occurs_in "/" (str "/TODO")).
  - now apply (occurs_in "/" (str "/FIXME")).
Qed.

(** X6. A file without any '#' always fails the header-guard check, with the
    one diagnostic, and a file without any '/' always passes the annotation
    check silently; both hold in particular for an empty file. *)
Theorem X6_files_without_hash_or_slash (U : case_table) (fs : filesystem) (filepath content : text)
    (Hread : fs filepath = ReadOk content) :
  (~ In "#" content ->
   HeaderGuards.check_header_guard U fs filepath =
   (false, [HeaderGuards.missing_guard_message filepath
              (HeaderGuards.expected_guard U filepath)])) /\
  (~ In "/" content -> Todos.check_todos fs filepath = (true, [])).
Proof.
  split; intros Hno.
  - unfold HeaderGuards.check_header_guard. rewrite Hread.
    apply check_content_fails. intros G. apply Hno. now apply (guarded_needs_hash _ _ G).
  - unfold Todos.check_todos, Todos.check_lines. rewrite Hread.
    rewrite no_flagged_no_issues; [reflexivity|].
    intros l Hl. destruct (flagged l) eqn:F; [|reflexivity].
    exfalso. apply flagged_spec in F as [Hm _]. apply Hno.
    assert (Hc : concat (readlines content) = content)
      by apply (readlines_from_concat [] content).
    rewrite <- Hc. apply in_concat. exists l. split; [exact Hl | now apply marker_needs_slash].
Qed.

Lemma X6_files_without_hash_or_slash_witness :
  let fs : filesystem := fun _ => ReadOk [] in
  HeaderGuards.check_header_guard sample_table fs (str "src/a.h")
    = (false, [str "src/a.h: Missing proper header guard (expected: A_H or #pragma once)"]) /\
  Todos.check_todos fs (str "src/a.h") = (true, []).
Proof.
  intros fs.
  destruct (X6_files_without_hash_or_slash sample_table fs (str "src/a.h") [] eq_refl) as [H1 H2].
  split; [apply H1 | apply H2]; intros [].
Defined.

(** ** Batches *)

Lemma run_combines (main : list text -> Out.W Z) (check : text -> Out.W bool)
    (summary : nat -> text) :
  (forall prog files,
     main (prog :: files) =
     (if 0 <? length (failing check files) then 1%Z else 0%Z,
      diagnostics check files ++ trailer summary (length (failing check files)))) ->
  combines main check.
Proof.
  intros Hmain prog xs ys. rewrite !Hmain. unfold Out.value. simpl.
  rewrite !failing_app, !length_app.
  destruct (length (failing check xs)) as [|n], (length (failing check ys)) as [|m];
    simpl; repeat split; try reflexivity.
  all: rewrite ?Nat.add_0_r; try reflexivity.
  all: destruct (0 <? _) eqn:E; try reflexivity; apply Nat.ltb_ge in E; lia.
Qed.

(** X7. Batches combine: a run over two batches put together fails exactly
    when the run over one of them fails, the order of the files does not
    change the exit status, and the number of failing files is the sum (a file
    named twice is checked and counted twice). *)
Theorem X7_batches_combine (U : case_table) (fs : filesystem) :
  combines (HeaderGuards.main U fs) (HeaderGuards.check_header_guard U fs) /\
  combines (Todos.main fs) (Todos.check_todos fs) /\
  combines (Namespaces.main fs) (Namespaces.check_namespaces fs).
Proof.
  split; [|split].
  - eapply run_combines. apply header_guards_main_result.
  - eapply run_combines. apply todos_main_result.
  - eapply run_combines. apply namespaces_main_result.
Qed.

(** ** Annotations: counting and growing files *)

Lemma flagged_count (lines : list text) (k : nat) :
  length (filter (fun e => flagged (snd e)) (enumerate k lines))
  = length (filter flagged lines).
Proof.
  revert k; induction lines as [|l lines IH]; intros k; simpl; [reflexivity|].
  destruct (flagged l); simpl; now rewrite IH.
Qed.

(** X9. One diagnostic per malformed line: the number of issues is the number
    of lines that hold a marker and no well-formed annotation, never more than
    the number of lines, and a failing report has two more items, the path
    and the format hint. *)
Theorem X9_one_diagnostic_per_violation (filepath : text) (lines : list text) :
  length (Todos.collect_issues lines) = length (filter flagged lines) /\
  length (Todos.collect_issues lines) <= length lines /\
  (forall l, In l (filter flagged lines) <-> In l lines /\ violation l) /\
  length (Out.printed (Todos.check_lines filepath lines)) =
    match filter flagged lines with
    | [] => 0
    | _ :: _ => 2 + length (filter flagged lines)
    end.
Proof.
  assert (Hlen : length (Todos.collect_issues lines) = length (filter flagged lines)).
  { rewrite collect_issues_filter, length_map. apply flagged_count. }
  split; [exact Hlen|]. split.
  { rewrite Hlen. apply filter_length_le. }
  split.
  { intros l. rewrite filter_In. now rewrite flagged_spec. }
  unfold Todos.check_lines. rewrite report_spec.
  destruct (Todos.collect_issues lines) as [|x issues] eqn:E;
    destruct (filter flagged lines) as [|y ys] eqn:F; simpl in Hlen; try discriminate.
  - reflexivity.
  - unfold Out.printed. simpl. now rewrite Hlen.
Qed.

(** X10. Lines added at the end of a file leave the diagnostics of the earlier
    lines as they were: the issues of the longer file are those of the
    shorter one followed by one issue per malformed new line. *)
Theorem X10_appended_lines_keep_earlier_issues (lines more : list text) :
  exists added : list text,
    Todos.collect_issues (lines ++ more) = Todos.collect_issues lines ++ added /\
    length added = length (filter flagged more) /\
    added = map (fun e => Todos.issue (fst e) (snd e))
                (filter (fun e => flagged (snd e))
                        (enumerate (1 + length lines) more)).
Proof.
  eexists. split; [|split; [|reflexivity]].
  - rewrite !collect_issues_filter, enumerate_app, filter_app, map_app. reflexivity.
  - rewrite length_map. apply flagged_count.
Qed.

Lemma format_has_marker (line : text) : follows_format line -> has_marker line.
Proof.
  intros (pre & m & post & -> & kw & attr & ws & txt & -> & Hkw & _).
  destruct Hkw as [-> | ->]; [left | right].
  - exists pre, ((attr ++ str ":" ++ ws ++ txt) ++ post).
    simpl. now rewrite <- !app_assoc.
  - exists pre, ((attr ++ str ":" ++ ws ++ txt) ++ post).
    simpl. now rewrite <- !app_assoc.
Qed.

(** X11. One well-formed annotation clears the whole line: a line that holds
    a well-formed annotation is never reported, even when it also holds a
    malformed marker; and every well-formed annotation holds a marker, so the
    stricter pattern only ever matches lines the first pattern selects. *)
Theorem X11_well_formed_annotation_clears_line (line : text)
    (Hformat : follows_format line) :
  has_marker line /\
  (forall (issues : list text) (i : nat), Todos.visit issues (i, line) = issues) /\
  (forall before after : list text,
     Todos.collect_issues (before ++ line :: after)
     = Todos.collect_issues (before ++ [] :: after)).
Proof.
  assert (Hf : flagged line = false).
  { unfold flagged. apply valid_search_spec in Hformat. rewrite Hformat.
    apply andb_false_r. }
  split; [now apply format_has_marker|]. split.
  - intros issues i. now rewrite visit_flagged, Hf.
  - intros before after. rewrite !collect_issues_filter, !enumerate_app.
    simpl. rewrite !filter_app. simpl. now rewrite Hf.
Qed.

Lemma X11_well_formed_annotation_clears_line_witness :
  follows_format (str "x = 1; //TODO later //FIXME(ann): check the bound") /\
  Todos.collect_issues [str "x = 1; //TODO later //FIXME(ann): check the bound"] = [].
Proof.
  assert (H : follows_format (str "x = 1; //TODO later //FIXME(ann): check the bound")).
  { apply valid_search_spec. reflexivity. }
  split; [exact H|].
  exact (proj2 (proj2 (X11_well_formed_annotation_clears_line _ H)) [] []).
Defined.

(** ** Annotations: how little counts as a description *)





(** ** The code-quality runner: what its steps return and call *)

Section Quality.
Import Proc.

Lemma rw_ret (A : Type) (a : A) (P : A -> list request -> Prop) :
  P a [] -> returns_with (ret a) P.
Proof.
  intros H w st. exists a, st, []. split; [reflexivity|].
  split; [now rewrite app_nil_r | exact H].
Qed.

Lemma rw_print (item : text) (P : unit -> list request -> Prop) :
  P tt [] -> returns_with (print item) P.
Proof.
  intros H w st. eexists tt, _, []. split; [reflexivity|].
  split; [simpl; now rewrite app_nil_r | exact H].
Qed.

Lemma rw_bind (A B : Type) (m : M A) (f : A -> M B)
    (P : A -> list request -> Prop) (R : B -> list request -> Prop) :
  returns_with m P ->
  (forall a n1, P a n1 -> returns_with (f a) (fun b n2 => R b (n1 ++ n2))) ->
  returns_with (bind m f) R.
Proof.
  intros Hm Hf w st. destruct (Hm w st) as (a & st1 & n1 & E1 & C1 & P1).
  destruct (Hf a n1 P1 w st1) as (b & st2 & n2 & E2 & C2 & R2).
  exists b, st2, (n1 ++ n2). unfold bind. rewrite E1. split; [exact E2|].
  split; [now rewrite C2, C1, app_assoc | exact R2].
Qed.

Lemma rw_weaken (A : Type) (m : M A) (P Q : A -> list request -> Prop) :
  returns_with m P -> (forall a n, P a n -> Q a n) -> returns_with m Q.
Proof.
  intros Hm HPQ w st. destruct (Hm w st) as (a & st' & n & E & C & H).
  exists a, st', n. auto.
Qed.

Lemma rw_print_then (B : Type) (item : text) (k : M B)
    (R : B -> list request -> Prop) :
  returns_with k R -> returns_with (bind (print item) (fun _ => k)) R.
Proof.
  intros Hk. eapply rw_bind.
  - apply rw_print with (P := fun _ n => n = []). reflexivity.
  - intros _ n1 ->. exact Hk.
Qed.

Variable describe : exn -> text.

Lemma quality_run_command_result (cmd : list text) (description : text)
    (w : world) (st : state) :
  exists r,
    CodeQuality.run_command describe cmd description w st
      = (Done r, after_call st [str "[*] " ++ description] (quality_call cmd)) /\
    fst (fst r) = succeeds (w (calls st) (quality_call cmd)).
Proof.
  pose proof (quality_run_command_spec describe cmd description w st) as H.
  cbv zeta in H. fold (quality_call cmd) in H. rewrite H.
  destruct (w (calls st) (quality_call cmd)) as [d rc out err| |m|d rc m]; simpl.
  - destruct (300 <? d); eexists; split; reflexivity.
  - eexists; split; reflexivity.
  - eexists; split; reflexivity.
  - destruct (300 <? d); eexists; split; reflexivity.
Qed.

Lemma rw_run_command (cmd : list text) (description : text) :
  returns_with (CodeQuality.run_command describe cmd description)
               (fun _ new => new = [quality_call cmd]).
Proof.
  intros w st. destruct (quality_run_command_result cmd description w st) as (r & E & _).
  exists r. eexists. exists [quality_call cmd]. split; [exact E|]. now split.
Qed.

Lemma rw_tidy_check (build_exists : bool) :
  returns_with (CodeQuality.run_clang_tidy_check describe build_exists)
               (fun ok new => ok = true /\
                              new = if build_exists then [tidy_call] else []).
Proof.
  unfold CodeQuality.run_clang_tidy_check. apply rw_print_then.
  eapply rw_bind with
    (P := fun (_ : bool) new => new = if build_exists then [tidy_call] else []).
  - destruct build_exists; [|now apply rw_ret].
    unfold CodeQuality.tidy_via_cmake. eapply rw_bind; [apply rw_run_command|].
    intros [[success out] err] n1 ->. now apply rw_ret.
  - intros done n1 ->. destruct done; apply rw_print_then; apply rw_ret;
      rewrite app_nil_r; now split.
Qed.

(** X13. The clang-tidy step can never fail a run: it returns True whatever
    cmake does (non-zero status, timeout, not installed), and it starts cmake
    once when the build directory exists and not at all otherwise. *)
Theorem X13_tidy_step_never_fails (build_exists : bool) :
  returns_with (CodeQuality.run_clang_tidy_check describe build_exists)
               (fun ok new => ok = true /\
                              new = if build_exists then [tidy_call] else []).
Proof.
  unfold CodeQuality.run_clang_tidy_check. apply rw_print_then.
  eapply rw_bind with
    (P := fun (_ : bool) new => new = if build_exists then [tidy_call] else []).
  - destruct build_exists; [|now apply rw_ret].
    unfold CodeQuality.tidy_via_cmake. eapply rw_bind; [apply rw_run_command|].
    intros [[success out] err] n1 ->. now apply rw_ret.
  - intros done n1 ->. destruct done; apply rw_print_then; apply rw_ret;
      rewrite app_nil_r; now split.
Qed.

Variable glob : text -> text -> list text.

(** X14. With no C++ file under src or tests the format step passes at once:
    it prints "No C++ files found", returns True and starts no process, not
    even the probe for clang-format. *)
Theorem X14_format_step_without_files (w : world) (st : state)
    (Hnone : CodeQuality.cpp_files glob = []) :
  CodeQuality.run_clang_format_check describe glob w st =
  (Done true,
   {| console := console st ++ [["010"] ++ str "[FORMAT] Checking code formatting...";
                                str "No C++ files found"];
      calls := calls st |}).
Proof.
  unfold CodeQuality.run_clang_format_check. rewrite Hnone.
  unfold bind, print, ret. simpl. now rewrite <- app_assoc.
Qed.

Lemma find_clang_format_none (w : world) (paths : list text) (st : state) :
  (forall h path, succeeds (w h (version_probe path)) = false) ->
  exists st',
    CodeQuality.find_clang_format describe paths w st = (Done None, st') /\
    calls st' = calls st ++ map version_probe paths.
Proof.
  intros Hw. revert st. induction paths as [|path rest IH]; intros st.
  - exists st. split; [reflexivity | now rewrite app_nil_r].
  - cbn [CodeQuality.find_clang_format]. unfold bind at 1.
    destruct (quality_run_command_result [path; str "--version"] [] w st)
      as ([[success out] err] & E & S).
    rewrite E. cbn [fst] in S. pose proof (Hw (calls st) path) as Hp.
    unfold version_probe in Hp. rewrite Hp in S. subst.
    destruct (IH (after_call st [str "[*] " ++ []] (quality_call [path; str "--version"])))
      as (st' & E' & C').
    exists st'. split; [exact E'|]. rewrite C'. simpl. now rewrite <- app_assoc.
Qed.

(** X15. When no clang-format can be run (each of the two probes times out,
    cannot be launched or exits with a non-zero status), the format step
    fails after exactly those two probes: it prints "clang-format not found",
    returns False and checks no file. *)
Theorem X15_format_step_without_clang_format (w : world) (st : state)
    (Hfiles : CodeQuality.cpp_files glob <> [])
    (Hprobe : forall h path, succeeds (w h (version_probe path)) = false) :
  exists st',
    CodeQuality.run_clang_format_check describe glob w st = (Done false, st') /\
    calls st' = calls st ++ map version_probe CodeQuality.clang_format_paths /\
    last (console st') [] = str "clang-format not found".
Proof.
  unfold CodeQuality.run_clang_format_check.
  destruct (CodeQuality.cpp_files glob) as [|f fs]; [congruence|].
  unfold bind at 1. unfold print at 1. unfold bind at 1.
  match goal with |- context [CodeQuality.find_clang_format _ _ _ ?s] =>
    destruct (find_clang_format_none w CodeQuality.clang_format_paths s Hprobe)
      as (st1 & E & C)
  end.
  rewrite E. unfold bind, print, ret. eexists. split; [reflexivity|].
  simpl. split; [exact C|]. now rewrite last_last.
Qed.

End Quality.

Lemma X15_format_step_without_clang_format_witness :
  let glob := fun (dir pattern : text) =>
                if text_eqb pattern (str "**/*.h") then [dir ++ str "/a.h"] else [] in
  let w : Proc.world :=
    fun _ _ => Proc.CannotLaunch (str "[Errno 2] No such file or directory") in
  exists st',
    CodeQuality.run_clang_format_check (fun _ => []) glob w Proc.start = (Proc.Done false, st') /\
    Proc.calls st' = [version_probe (str "clang-format");
                 version_probe (str "C:/Program Files/LLVM/bin/clang-format.exe")].
Proof.
  intros glob w.
  destruct (X15_format_step_without_clang_format (fun _ => []) glob w Proc.start)
    as (st' & E & C & _).
  - discriminate.
  - reflexivity.
  - exists st'. split; [exact E | exact C].
Defined.

Lemma X14_format_step_without_files_witness :
  CodeQuality.run_clang_format_check (fun _ => []) (fun _ _ => [])
    (fun _ _ => Proc.Hangs) Proc.start
  = (Proc.Done true,
     {| Proc.console := [["010"] ++ str "[FORMAT] Checking code formatting...";
                         str "No C++ files found"];
        Proc.calls := [] |}).
Proof.
  apply (X14_format_step_without_files (fun _ => []) (fun _ _ => [])
           (fun _ _ => Proc.Hangs) Proc.start).
  reflexivity.
Defined.

Section QualityRun.
Import Proc.

Variable describe : exn -> text.
Variable glob : text -> text -> list text.
Variable build_exists : bool.

Lemma rw_for_each (A S : Type) (xs : list A) (body : A -> S -> M S) (s : S) :
  (forall x s', returns_with (body x s') (fun _ n => length n <= 1)) ->
  returns_with (for_each xs body s) (fun _ n => length n <= length xs).
Proof.
  intros Hbody. revert s. induction xs as [|x xs IH]; intros s; simpl.
  - apply rw_ret. simpl. lia.
  - eapply rw_bind; [apply Hbody|]. intros s' n1 H1.
    eapply rw_weaken; [apply IH|]. intros s2 n2 H2. simpl in *.
    rewrite length_app. lia.
Qed.

Lemma rw_find_clang_format (paths : list text) :
  returns_with (CodeQuality.find_clang_format describe paths)
               (fun _ n => length n <= length paths).
Proof.
  induction paths as [|path rest IH]; simpl.
  - apply rw_ret. simpl. lia.
  - eapply rw_bind; [apply rw_run_command|].
    intros [[success out] err] n1 ->. destruct success.
    + apply rw_ret. simpl. lia.
    + eapply rw_weaken; [apply IH|]. intros found n2 H2. simpl in *. lia.
Qed.

Lemma rw_format_check :
  returns_with (CodeQuality.run_clang_format_check describe glob)
               (fun _ n => length n <= length (CodeQuality.cpp_files glob) + 2).
Proof.
  unfold CodeQuality.run_clang_format_check. apply rw_print_then.
  destruct (CodeQuality.cpp_files glob) as [|f fs] eqn:E.
  - apply rw_print_then. apply rw_ret. simpl. lia.
  - eapply rw_bind; [apply rw_find_clang_format|].
    intros [clang_format|] n1 H1.
    + eapply rw_bind.
      * apply rw_for_each. intros x n.
        eapply rw_bind; [apply rw_run_command|].
        intros [[success out] err] n2 ->. apply rw_ret. simpl. lia.
      * intros issues n2 H2. apply rw_print_then. apply rw_ret.
        rewrite app_nil_r, length_app. simpl in *. lia.
    + apply rw_print_then. apply rw_ret. rewrite app_nil_r. simpl in *. lia.
Qed.

(** What a whole run returns and calls, for given flags. *)
Lemma quality_main_profile (parse_args : list text -> parse_outcome CodeQuality.flags)
    (sys_argv : list text) (args : CodeQuality.flags) :
  parse_args (tl sys_argv) = Parsed args ->
  returns_with (CodeQuality.main describe glob build_exists parse_args sys_argv)
    (fun status new =>
       (status = 0%Z \/ status = 1%Z) /\
       (CodeQuality.tidy_only args = true -> status = 0%Z) /\
       (CodeQuality.tidy_only args = true -> CodeQuality.format_only args = true ->
        new = []) /\
       (CodeQuality.tidy_only args = true ->
        new = [] \/ new = [tidy_call]) /\
       length new <= length (CodeQuality.cpp_files glob) + 3).
Proof.
  intros Hp. unfold CodeQuality.main. rewrite Hp.
  do 2 apply rw_print_then.
  eapply rw_bind with
    (P := fun (success : bool) n =>
            (CodeQuality.tidy_only args = true -> success = true /\ n = []) /\
            length n <= length (CodeQuality.cpp_files glob) + 2).
  { destruct (CodeQuality.tidy_only args); simpl.
    - apply rw_ret. split; [auto | simpl; lia].
    - eapply rw_bind; [apply rw_format_check|]. intros ok n1 H1.
      apply rw_ret. rewrite app_nil_r. split; [discriminate | exact H1]. }
  intros success n1 [Ht Hn1].
  eapply rw_bind with
    (P := fun (success' : bool) n =>
            success' = success /\
            (CodeQuality.format_only args = true -> n = []) /\
            (n = [] \/ n = [tidy_call])).
  { destruct (CodeQuality.format_only args); simpl.
    - apply rw_ret. auto.
    - eapply rw_bind; [apply (rw_tidy_check describe build_exists)|].
      intros ok n2 [-> ->]. apply rw_ret. rewrite app_nil_r. simpl.
      split; [reflexivity|]. split; [discriminate|].
      destruct build_exists; auto. }
  intros success' n2 (-> & Hf & Hn2).
  apply rw_print_then.
  assert (Hlen : length (n1 ++ n2) <= length (CodeQuality.cpp_files glob) + 3).
  { rewrite length_app. destruct Hn2 as [-> | ->]; simpl; lia. }
  destruct success; apply rw_print_then; apply rw_ret; rewrite app_nil_r.
  - split; [now left|]. split; [reflexivity|]. split.
    + intros T F. destruct (Ht T) as [_ ->]. now rewrite (Hf F).
    + split; [|exact Hlen]. intros T. destruct (Ht T) as [_ ->]. exact Hn2.
  - split; [now right|]. split.
    + intros T. destruct (Ht T) as [? _]. discriminate.
    + split; [|split; [|exact Hlen]]; intros T; destruct (Ht T) as [? _]; discriminate.
Qed.

End QualityRun.

(** X17. The flags of the code-quality runner: a run whose arguments parse
    always returns 0 or 1; with --tidy-only it returns 0 whatever the tools
    do, starting at most the one cmake call of the clang-tidy step; and with
    both --format-only and --tidy-only it runs neither step, starts no
    process and returns 0. *)
Theorem X17_quality_flags (describe : Proc.exn -> text)
    (glob : text -> text -> list text) (build_exists : bool)
    (parse_args : list text -> parse_outcome CodeQuality.flags)
    (sys_argv : list text) (args : CodeQuality.flags)
    (Hparse : parse_args (tl sys_argv) = Parsed args) :
  returns_with (CodeQuality.main describe glob build_exists parse_args sys_argv)
    (fun status new =>
       (status = 0%Z \/ status = 1%Z) /\
       (CodeQuality.tidy_only args = true ->
        status = 0%Z /\ (new = [] \/ new = [tidy_call])) /\
       (CodeQuality.tidy_only args = true -> CodeQuality.format_only args = true ->
        new = [])).
Proof.
  eapply rw_weaken; [now apply (quality_main_profile describe glob build_exists
                                  parse_args sys_argv args)|].
  intros status new (H1 & H2 & H3 & H4 & _). split; [exact H1|].
  split; [|exact H3]. intros T. split; [now apply H2 | now apply H4].
Qed.

Lemma X17_quality_flags_witness :
  let parse := fun _ : list text =>
                 Parsed {| CodeQuality.format_only := true;
                           CodeQuality.tidy_only := true |} in
  exists st',
    CodeQuality.main (fun _ => []) (fun dir _ => [dir ++ str "/a.cpp"]) true parse
      [str "run-code-quality.py"; str "--format-only"; str "--tidy-only"]
      (fun _ _ => Proc.Hangs) Proc.start
    = (Proc.Done 0%Z, st') /\ Proc.calls st' = [].
Proof.
  intros parse.
  destruct (X17_quality_flags (fun _ => []) (fun dir _ => [dir ++ str "/a.cpp"]) true
              parse [str "run-code-quality.py"; str "--format-only"; str "--tidy-only"]
              {| CodeQuality.format_only := true; CodeQuality.tidy_only := true |}
              eq_refl (fun _ _ => Proc.Hangs) Proc.start)
    as (status & st' & new & E & C & _ & H2 & H3).
  exists st'. destruct (H2 eq_refl) as [-> _]. rewrite (H3 eq_refl eq_refl) in C.
  split; [exact E | exact C].
Defined.

(** X18. A run of the code-quality runner starts at most one process per C++
    file found, plus three: two probes for clang-format and one cmake call. *)
Theorem X18_quality_call_bound (describe : Proc.exn -> text)
    (glob : text -> text -> list text) (build_exists : bool)
    (parse_args : list text -> parse_outcome CodeQuality.flags)
    (sys_argv : list text) (args : CodeQuality.flags)
    (Hparse : parse_args (tl sys_argv) = Parsed args) :
  returns_with (CodeQuality.main describe glob build_exists parse_args sys_argv)
    (fun _ new => length new <= length (CodeQuality.cpp_files glob) + 3).
Proof.
  eapply rw_weaken; [now apply (quality_main_profile describe glob build_exists
                                  parse_args sys_argv args)|].
  intros status new (_ & _ & _ & _ & H). exact H.
Qed.

Lemma X18_quality_call_bound_witness :
  let parse := fun _ : list text =>
                 Parsed {| CodeQuality.format_only := false;
                           CodeQuality.tidy_only := false |} in
  let glob := fun (dir pattern : text) =>
                if text_eqb pattern (str "**/*.cpp") then [dir ++ str "/a.cpp"] else [] in
  exists status st' new,
    CodeQuality.main (fun _ => []) glob true parse [str "run-code-quality.py"]
      (fun _ _ => Proc.Exits 1 0 [] []) Proc.start
    = (Proc.Done status, st') /\
    Proc.calls st' = Proc.calls Proc.start ++ new /\ length new <= 2 + 3.
Proof.
  intros parse glob.
  apply (X18_quality_call_bound (fun _ => []) glob true parse
           [str "run-code-quality.py"]
           {| CodeQuality.format_only := false; CodeQuality.tidy_only := false |}
           eq_refl (fun _ _ => Proc.Exits 1 0 [] []) Proc.start).
Defined.

Section FormatVerdict.
Import Proc.

Variable describe : exn -> text.
Variable beh : request -> behaviour.

Let w : world := fun _ rq => beh rq.

Lemma format_loop (clang_format : text) (files : list text) (n : nat) (st : state) :
  for_each files
    (fun file_path issues =>
       bind (CodeQuality.run_command describe
               [clang_format; str "--dry-run"; str "--Werror"; file_path]
               (str "Checking " ++ file_path))
            (fun r => let '(success, _, _) := r in
                      ret (if negb success then issues + 1 else issues)))
    n w st
  = (Done (n + length (filter (fun f => negb (succeeds (beh (format_call clang_format f))))
                              files)),
     {| console := console st ++ map (fun f => str "[*] " ++ str "Checking " ++ f) files;
        calls := calls st ++ map (format_call clang_format) files |}).
Proof.
  revert n st. induction files as [|f files IH]; intros n st.
  - simpl. unfold ret. rewrite Nat.add_0_r, !app_nil_r. now destruct st.
  - cbn [for_each]. unfold bind at 1. unfold bind at 1.
    destruct (quality_run_command_result describe
                [clang_format; str "--dry-run"; str "--Werror"; f]
                (str "Checking " ++ f) w st) as ([[success out] err] & E & S).
    rewrite E. cbn [fst] in S. unfold ret at 1. rewrite IH.
    fold (format_call clang_format f) in S. unfold w in S. cbn [map filter].
    rewrite <- S. unfold after_call. cbn [console calls].
    rewrite <- !app_assoc. cbn [app].
    destruct success; cbn [negb length]; f_equal; f_equal; lia.
Qed.

Lemma no_failure_iff (A : Type) (ok : A -> bool) (xs : list A) :
  (0 + length (filter (fun x => negb (ok x)) xs) =? 0) = forallb ok xs.
Proof.
  induction xs as [|x xs IH]; [reflexivity|]. simpl in *.
  destruct (ok x); simpl; [exact IH | reflexivity].
Qed.

(** X16. When the tools behave the same way at every call and the first
    probe finds clang-format, the format step probes once, checks every C++
    file once, in the order found, and returns True exactly when every one of
    these checks ends within the timeout with exit status 0 and with output
    that can be decoded. *)
Theorem X16_format_step_verdict (glob : text -> text -> list text) (st : state)
    (Hfiles : CodeQuality.cpp_files glob <> [])
    (Hprobe : succeeds (beh (version_probe (str "clang-format"))) = true) :
  exists st',
    CodeQuality.run_clang_format_check describe glob w st
    = (Done (forallb (fun f => succeeds (beh (format_call (str "clang-format") f)))
                     (CodeQuality.cpp_files glob)),
       st') /\
    calls st' = calls st ++ version_probe (str "clang-format")
                  :: map (format_call (str "clang-format")) (CodeQuality.cpp_files glob).
Proof.
  unfold CodeQuality.run_clang_format_check.
  destruct (CodeQuality.cpp_files glob) as [|f fs] eqn:F; [congruence|].
  unfold bind at 1. unfold print at 1. unfold bind at 1.
  cbn [CodeQuality.find_clang_format CodeQuality.clang_format_paths].
  unfold bind at 1.
  match goal with |- context [CodeQuality.run_command _ ?c ?d w ?s] =>
    destruct (quality_run_command_result describe c d w s)
      as ([[success out] err] & E & S)
  end.
  rewrite E. cbn [fst] in S. unfold w in S. fold (version_probe (str "clang-format")) in S.
  rewrite Hprobe in S. subst success. unfold ret at 1.
  unfold bind at 1. rewrite format_loop.
  unfold bind, print, ret. rewrite no_failure_iff.
  eexists. split; [reflexivity|]. cbn [calls after_call console].
  now rewrite <- app_assoc.
Qed.

End FormatVerdict.

Lemma X16_format_step_verdict_witness :
  let beh := fun rq : Proc.request =>
               match Proc.cmd rq with
               | [_; _; _; f] => if text_eqb f (str "src/bad.cpp")
                                 then Proc.Exits 1 1 [] (str "code should be clang-formatted")
                                 else Proc.Exits 1 0 [] []
               | _ => Proc.Exits 1 0 (str "clang-format version 17") []
               end in
  let glob := fun (dir pattern : text) =>
                if text_eqb pattern (str "**/*.cpp")
                then [dir ++ str "/ok.cpp"; dir ++ str "/bad.cpp"] else [] in
  exists st',
    CodeQuality.run_clang_format_check (fun _ => []) glob (fun _ rq => beh rq) Proc.start
    = (Proc.Done false, st') /\
    length (Proc.calls st') = 5.
Proof.
  intros beh glob.
  destruct (X16_format_step_verdict (fun _ => []) beh glob Proc.start)
    as (st' & E & C).
  - discriminate.
  - reflexivity.
  - exists st'. split; [exact E | now rewrite C].
Defined.

(** ** The coverage script: hard and soft failures of its steps *)

Section CoverageSteps.
Import Proc.

Variable C : Coverage.colors.

Ltac console_eq :=
  unfold after_print, after_call; cbn [console calls];
  rewrite ?app_nil_r; rewrite <- ?app_assoc; cbn [app]; reflexivity.

Lemma state_eta (st : state) :
  st = {| console := console st; calls := calls st |}.
Proof. now destruct st. Qed.

Lemma print_header_spec (t : text) (w : world) (st : state) :
  Coverage.print_header C t w st = (Done tt, after_print st (banner C t)).
Proof.
  unfold Coverage.print_header, bind, print, after_print, banner. simpl.
  now rewrite <- !app_assoc.
Qed.

(** What the coverage script's [run_command] does, case by case. *)
Lemma coverage_run_command_spec (cmd : list text) (check : bool)
    (w : world) (st : state) :
  Coverage.run_command C cmd check w st =
  match w (calls st) (coverage_call cmd check) with
  | Hangs => (Blocked, after_call st [] (coverage_call cmd check))
  | CannotLaunch m => (Raised (OSError m), after_call st [] (coverage_call cmd check))
  | Garbles _ _ m =>
      (Raised (UnicodeDecodeError m), after_call st [] (coverage_call cmd check))
  | Exits _ rc out err =>
      if check && negb (rc =? 0)%Z
      then (Raised (CalledProcessError rc cmd out),
            after_call st [error_line C (str "Command failed: " ++ join (str " ") cmd); out]
                       (coverage_call cmd check))
      else (Done {| returncode := rc; stdout := out; stderr := err |},
            after_call st [] (coverage_call cmd check))
  end.
Proof.
  unfold Coverage.run_command, try_except_called, run, finish, coverage_call, after_call.
  cbn -[Z.eqb]. rewrite app_nil_r.
  destruct (w (calls st) _) as [d rc out err| |m|d rc m]; cbn -[Z.eqb];
    try reflexivity.
  destruct (check && negb (rc =? 0)%Z); cbn -[Z.eqb]; [|reflexivity].
  unfold bind, Coverage.print_error, print, raise, error_line. cbn.
  now rewrite <- app_assoc.
Qed.

(** X19. Cleaning old coverage data is a soft step: whatever exit status the
    coverage-clean target ends with, and however long it takes, the step
    returns and reports success, without printing the tool's output, as long
    as that output can be decoded.  Output that cannot be decoded, a tool that
    cannot be started and a tool that hangs are not tolerated: the step then
    raises, or never returns, and reports nothing. *)
Theorem X19_coverage_clean_is_soft (build_dir : text) (w : world) (st : state) :
  let rq := coverage_clean_call build_dir in
  let said := banner C (str "Cleaning Previous Coverage Data")
                ++ [step_line C (str "Running coverage-clean target...")] in
  Coverage.clean_coverage_data C build_dir w st =
  match w (calls st) rq with
  | Exits _ _ _ _ =>
      (Done tt,
       after_call st (said ++ [success_line C (str "Previous coverage data cleaned")]) rq)
  | Garbles _ _ m => (Raised (UnicodeDecodeError m), after_call st said rq)
  | CannotLaunch m => (Raised (OSError m), after_call st said rq)
  | Hangs => (Blocked, after_call st said rq)
  end.
Proof.
  cbv zeta.
  unfold Coverage.clean_coverage_data. unfold bind at 1. rewrite print_header_spec.
  unfold bind at 1. unfold Coverage.print_step at 1. unfold print at 1.
  unfold bind at 1. rewrite coverage_run_command_spec.
  cbn [calls after_print]. fold (coverage_clean_call build_dir).
  destruct (w (calls st) (coverage_clean_call build_dir)) as [d rc out err| |m|d rc m];
    cbn [andb]; unfold Coverage.print_success, print, success_line, step_line;
    console_eq.
Qed.

(** X20. Configuring is a hard step: when cmake ends with a non-zero status
    the step prints "Command failed: " with the command line and the tool's
    output and raises, never announcing completion; when cmake ends with
    status 0 it prints the output and "CMake configuration complete".  When
    what cmake wrote cannot be decoded the step raises [UnicodeDecodeError]
    whatever the exit status, printing neither. *)
Theorem X20_configure_is_hard (project_root build_dir toolchain : text)
    (w : world) (st : state) :
  let rq := configure_call project_root build_dir toolchain in
  let said := banner C (str "Configuring CMake with Coverage")
                ++ [step_line C (str "Running CMake configuration...")] in
  Coverage.configure_cmake C project_root build_dir toolchain w st =
  match w (calls st) rq with
  | Exits _ rc out _ =>
      if (rc =? 0)%Z
      then (Done tt,
            after_call st
              (said ++ [out; success_line C (str "CMake configuration complete")]) rq)
      else (Raised (CalledProcessError rc (cmd rq) out),
            after_call st
              (said ++ [error_line C (str "Command failed: " ++ join (str " ") (cmd rq));
                        out]) rq)
  | Garbles _ _ m => (Raised (UnicodeDecodeError m), after_call st said rq)
  | CannotLaunch m => (Raised (OSError m), after_call st said rq)
  | Hangs => (Blocked, after_call st said rq)
  end.
Proof.
  cbv zeta.
  unfold Coverage.configure_cmake. unfold bind at 1. rewrite print_header_spec.
  unfold bind at 1. unfold Coverage.print_step at 1. unfold print at 1.
  unfold bind at 1. rewrite coverage_run_command_spec.
  cbn [calls after_print]. fold (configure_call project_root build_dir toolchain).
  destruct (w (calls st) (configure_call project_root build_dir toolchain))
    as [d rc out err| |m|d rc m]; cbn [andb];
    try (unfold step_line; console_eq).
  destruct (rc =? 0)%Z; cbn [negb].
  - unfold bind, Coverage.print_success, print, success_line, step_line.
    cbn [stdout]. console_eq.
  - unfold step_line. console_eq.
Qed.

(** X21. The build step returns only when cmake ended with status 0, and then
    it prints the banner, the step line and "Build complete" and nothing
    else: the build output is never printed by a build that returned. *)
Theorem X21_build_returns_only_on_success (build_dir : text) (w : world)
    (st st' : state)
    (Hret : Coverage.build_project C build_dir w st = (Done tt, st')) :
  (exists d out err, w (calls st) (build_call build_dir) = Exits d 0 out err) /\
  st' = after_call st
          (banner C (str "Building Project")
             ++ [step_line C (str "Building project with coverage instrumentation...");
                 success_line C (str "Build complete")])
          (build_call build_dir).
Proof.
  revert Hret. unfold Coverage.build_project. unfold bind at 1. rewrite print_header_spec.
  unfold bind at 1. unfold Coverage.print_step at 1. unfold print at 1.
  unfold bind at 1. rewrite coverage_run_command_spec.
  cbn [calls after_print]. fold (build_call build_dir).
  destruct (w (calls st) (build_call build_dir)) as [d rc out err| |m|d rc m];
    try discriminate.
  cbn [andb]. destruct (rc =? 0)%Z eqn:E; cbn [negb]; [|discriminate].
  apply Z.eqb_eq in E. subst rc.
  unfold bind, Coverage.print_success, print, ret, success_line, step_line.
  cbn [returncode Z.eqb negb].
  intros H. injection H as <-. split; [now exists d, out, err|].
  console_eq.
Qed.

End CoverageSteps.

Lemma X19_coverage_clean_is_soft_witness :
  fst (Coverage.clean_coverage_data no_colors (str "build")
         (fun _ _ => Proc.Exits 900 2 (str "no rule to make target") []) Proc.start)
  = Proc.Done tt /\
  fst (Coverage.clean_coverage_data no_colors (str "build")
         (fun _ _ => Proc.Garbles 1 0 (str "'utf-8' codec can't decode byte 0xff"))
         Proc.start)
  = Proc.Raised (Proc.UnicodeDecodeError (str "'utf-8' codec can't decode byte 0xff")).
Proof.
  rewrite !X19_coverage_clean_is_soft. split; reflexivity.
Defined.

Lemma X20_configure_is_hard_witness :
  fst (Coverage.configure_cmake no_colors (str ".") (str "build") (str "vcpkg.cmake")
         (fun _ _ => Proc.Exits 3 1 (str "CMake Error") []) Proc.start)
  = Proc.Raised (Proc.CalledProcessError 1
                   (Proc.cmd (configure_call (str ".") (str "build") (str "vcpkg.cmake")))
                   (str "CMake Error")).
Proof.
  rewrite X20_configure_is_hard. reflexivity.
Defined.

Lemma X21_build_returns_only_on_success_witness :
  let w : Proc.world := fun _ _ => Proc.Exits 60 0 (str "[100%] Built target") [] in
  exists st',
    Coverage.build_project no_colors (str "build") w Proc.start = (Proc.Done tt, st') /\
    ~ In (str "[100%] Built target") (Proc.console st').
Proof.
  intros w.
  destruct (Coverage.build_project no_colors (str "build") w Proc.start)
    as [o st'] eqn:E.
  assert (Ho : o = Proc.Done tt) by (vm_compute in E; now injection E as <- _).
  subst o. exists st'. split; [reflexivity|].
  destruct (X21_build_returns_only_on_success no_colors (str "build") w Proc.start st' E)
    as [_ ->].
  vm_compute. intros H. repeat (destruct H as [H | H]; [discriminate H|]). exact H.
Defined.

(** ** The coverage script: the environment and the order of the steps *)

Section CoverageRunFacts.
Import Proc.

Variable C : Coverage.colors.
Variable describe : exn -> text.
Variable env : CoverageRun.environment.

Lemma print_line_spec (line : text) (w : world) (st : state) :
  print line w st = (Done tt, after_print st [line]).
Proof. reflexivity. Qed.

Lemma check_command_spec (command : text) (w : world) (st : state) :
  CoverageRun.check_command C env command w st
  = (Done (tool_found env command), after_print st [tool_line C env command]).
Proof.
  unfold CoverageRun.check_command, tool_found, tool_line.
  destruct (CoverageRun.which env command) as [[|c r]|]; reflexivity.
Qed.

(** What [get_vcpkg_toolchain] does, case by case. *)
Lemma get_vcpkg_toolchain_spec (w : world) (st : state) :
  CoverageRun.get_vcpkg_toolchain C env w st =
  match root_candidate env with
  | Some t =>
      if CoverageRun.path_exists env (calls st) t then (Done t, st)
      else if CoverageRun.path_exists env (calls st) (CoverageRun.default_path env)
           then (Done (CoverageRun.default_path env), st)
           else (Raised (SystemExit 1),
                 after_print st
                   [error_line C (str "vcpkg toolchain not found at: "
                                    ++ CoverageRun.default_path env);
                    warning_line C
                      (str "Set VCPKG_ROOT environment variable or install vcpkg")])
  | None =>
      if CoverageRun.path_exists env (calls st) (CoverageRun.default_path env)
      then (Done (CoverageRun.default_path env), st)
      else (Raised (SystemExit 1),
            after_print st
              [error_line C (str "vcpkg toolchain not found at: "
                               ++ CoverageRun.default_path env);
               warning_line C
                 (str "Set VCPKG_ROOT environment variable or install vcpkg")])
  end.
Proof.
  unfold CoverageRun.get_vcpkg_toolchain, root_candidate.
  destruct (CoverageRun.vcpkg_root env) as [[|c root]|];
    unfold bind, ret, CoverageRun.exists_; cbn [fst snd];
    repeat match goal with
           | |- context [CoverageRun.path_exists env ?h ?p] =>
               destruct (CoverageRun.path_exists env h p) eqn:?
           end; try reflexivity;
    unfold Coverage.print_error, Coverage.print_warning, print, raise,
      error_line, warning_line; (unfold after_print; cbn [console calls]; rewrite <- ?app_assoc; reflexivity).
Qed.

Lemma get_vcpkg_toolchain_located (w : world) (st : state) :
  fst (CoverageRun.get_vcpkg_toolchain C env w st) =
    match located env (calls st) with
    | Some t => Done t
    | None => Raised (SystemExit 1)
    end /\
  calls (snd (CoverageRun.get_vcpkg_toolchain C env w st)) = calls st /\
  (forall t, located env (calls st) = Some t ->
             CoverageRun.get_vcpkg_toolchain C env w st = (Done t, st)).
Proof.
  rewrite get_vcpkg_toolchain_spec. unfold located.
  destruct (root_candidate env) as [t|];
    repeat match goal with
           | |- context [CoverageRun.path_exists env ?h ?p] =>
               destruct (CoverageRun.path_exists env h p) eqn:?
           end; repeat split; try reflexivity; intros t' H; try discriminate;
    now injection H as <-.
Qed.


Lemma after_print_app (st : state) (a b : list text) :
  after_print (after_print st a) b = after_print st (a ++ b).
Proof. unfold after_print. cbn [console calls]. now rewrite app_assoc. Qed.

(** What [validate_environment] gives, up to what it prints last. *)
Lemma validate_environment_result (w : world) (st : state) :
  exists more,
    CoverageRun.validate_environment C env w st =
      (match located env (calls st) with
       | Some t => if forallb (tool_found env) required_tools
                   then Done t else Raised (SystemExit 1)
       | None => Raised (SystemExit 1)
       end,
       after_print st (checked_lines C env ++ more)).
Proof.
  unfold CoverageRun.validate_environment.
  unfold bind at 1. rewrite print_header_spec.
  unfold bind at 1. unfold Coverage.print_step at 1. rewrite print_line_spec.
  unfold bind at 1. rewrite check_command_spec.
  unfold bind at 1. rewrite check_command_spec.
  unfold bind at 1. rewrite check_command_spec.
  rewrite !after_print_app.
  match goal with |- context [after_print st ?l] =>
    change l with (checked_lines C env)
  end.
  generalize (checked_lines C env). intros L.
  unfold bind at 1. unfold CoverageRun.try_except_exit. unfold bind at 1.
  rewrite (get_vcpkg_toolchain_spec w (after_print st L)).
  change (calls (after_print st L)) with (calls st).
  unfold located.
  destruct (root_candidate env) as [t|];
    repeat match goal with
           | |- context [CoverageRun.path_exists env ?h ?p] =>
               destruct (CoverageRun.path_exists env h p) eqn:?
           end;
    cbn [forallb required_tools];
    destruct (tool_found env (str "cmake")), (tool_found env (str "llvm-cov")),
      (tool_found env (str "llvm-profdata")); cbn [negb andb];
    unfold bind, ret, raise, Coverage.print_error, Coverage.print_success;
    rewrite ?print_line_spec; rewrite ?after_print_app;
    eexists; rewrite <- ?app_assoc; reflexivity.
Qed.



(** *** Calls in order *)

Lemma prefix_of_nil (seq : list request) : prefix_of [] seq.
Proof. now exists seq. Qed.

Lemma prefix_of_refl (seq : list request) : prefix_of seq seq.
Proof. exists []. now rewrite app_nil_r. Qed.

Lemma io_ret (A : Type) (a : A) : in_order [] (ret a).
Proof.
  intros w st. exists []. cbn. rewrite app_nil_r.
  split; [reflexivity|]. split; [apply prefix_of_nil | reflexivity].
Qed.

Lemma io_raise (A : Type) (e : exn) : in_order [] (@raise A e).
Proof.
  intros w st. exists []. cbn. rewrite app_nil_r.
  split; [reflexivity|]. split; [apply prefix_of_nil | reflexivity].
Qed.

Lemma io_print (item : text) : in_order [] (print item).
Proof.
  intros w st. exists []. cbn. rewrite app_nil_r.
  split; [reflexivity|]. split; [apply prefix_of_nil | reflexivity].
Qed.

Lemma io_exists (p : text) : in_order [] (CoverageRun.exists_ env p).
Proof.
  intros w st. exists []. cbn. rewrite app_nil_r.
  split; [reflexivity|]. split; [apply prefix_of_nil | reflexivity].
Qed.

Lemma io_bind (A B : Type) (s1 s2 : list request) (m : M A) (f : A -> M B) :
  in_order s1 m -> (forall a, in_order s2 (f a)) -> in_order (s1 ++ s2) (bind m f).
Proof.
  intros Hm Hf w st. destruct (Hm w st) as (n1 & C1 & P1 & D1).
  unfold bind. destruct (m w st) as [[a|e|] st1]; cbn [fst snd] in *.
  - rewrite (D1 a eq_refl) in C1.
    destruct (Hf a w st1) as (n2 & C2 & [r2 P2] & D2).
    exists (s1 ++ n2). split; [now rewrite C2, C1, app_assoc|].
    split; [exists r2; now rewrite P2, app_assoc|].
    intros b Hb. now rewrite (D2 b Hb).
  - exists n1. split; [exact C1|]. split; [|discriminate].
    destruct P1 as [r1 ->]. exists (r1 ++ s2). now rewrite app_assoc.
  - exists n1. split; [exact C1|]. split; [|discriminate].
    destruct P1 as [r1 ->]. exists (r1 ++ s2). now rewrite app_assoc.
Qed.

Lemma io_then (A B : Type) (s : list request) (m : M A) (f : A -> M B) :
  in_order [] m -> (forall a, in_order s (f a)) -> in_order s (bind m f).
Proof. intros Hm Hf. now apply (io_bind A B [] s). Qed.

Lemma io_before (A B : Type) (s : list request) (m : M A) (f : A -> M B) :
  in_order s m -> (forall a, in_order [] (f a)) -> in_order s (bind m f).
Proof.
  intros Hm Hf. rewrite <- (app_nil_r s). now apply io_bind.
Qed.

Ltac quiet :=
  repeat first
    [ apply io_ret | apply io_raise | apply io_print | apply io_exists
    | apply io_then; [|intros ?] ].

Lemma io_print_header (t : text) : in_order [] (Coverage.print_header C t).
Proof. unfold Coverage.print_header. quiet. Qed.

Lemma io_run_command (cmd : list text) (check : bool) :
  in_order [coverage_call cmd check] (Coverage.run_command C cmd check).
Proof.
  intros w st. exists [coverage_call cmd check]. rewrite coverage_run_command_spec.
  destruct (w (calls st) (coverage_call cmd check)) as [d rc out err| |m|d rc m];
    [destruct (check && negb (rc =? 0)%Z)| | |]; cbn [fst snd calls after_call];
    (split; [reflexivity|]); (split; [apply prefix_of_refl | reflexivity]).
Qed.

Lemma io_configure (project_root build_dir toolchain : text) :
  in_order [configure_call project_root build_dir toolchain]
           (Coverage.configure_cmake C project_root build_dir toolchain).
Proof.
  unfold Coverage.configure_cmake.
  apply io_then; [apply io_print_header | intros _].
  apply io_then; [apply io_print | intros _].
  apply io_before; [apply io_run_command | intros result].
  unfold Coverage.print_success. quiet.
Qed.

Lemma io_build (build_dir : text) :
  in_order [build_call build_dir] (Coverage.build_project C build_dir).
Proof.
  unfold Coverage.build_project.
  apply io_then; [apply io_print_header | intros _].
  apply io_then; [apply io_print | intros _].
  apply io_before; [apply io_run_command | intros result].
  unfold Coverage.print_success. destruct (negb _); quiet.
Qed.

Lemma io_coverage_clean (build_dir : text) :
  in_order [coverage_clean_call build_dir] (Coverage.clean_coverage_data C build_dir).
Proof.
  unfold Coverage.clean_coverage_data.
  apply io_then; [apply io_print_header | intros _].
  apply io_then; [apply io_print | intros _].
  apply io_before; [apply io_run_command | intros result].
  unfold Coverage.print_success. quiet.
Qed.

Lemma io_run_coverage (build_dir : text) :
  in_order [coverage_html_call build_dir] (CoverageRun.run_coverage C env build_dir).
Proof.
  unfold CoverageRun.run_coverage.
  apply io_then; [apply io_print_header | intros _].
  apply io_then; [apply io_print | intros _].
  apply io_before; [apply io_run_command | intros result].
  apply io_then; [apply io_exists | intros e].
  unfold Coverage.print_success, Coverage.print_error. destruct (negb e); quiet.
Qed.

Lemma io_display_summary (build_dir : text) :
  in_order [summary_call env build_dir] (CoverageRun.display_summary C env build_dir).
Proof.
  unfold CoverageRun.display_summary.
  apply io_then; [apply io_print_header | intros _].
  apply io_then; [apply io_print | intros _].
  apply io_before; [apply io_run_command | intros result].
  unfold Coverage.print_warning. destruct (returncode result =? 0)%Z; quiet.
Qed.

Lemma io_clean_build (build_dir : text) :
  in_order [] (CoverageRun.clean_build_directory C env build_dir).
Proof.
  unfold CoverageRun.clean_build_directory.
  apply io_then; [apply io_print_header | intros _].
  apply io_then; [apply io_exists | intros e].
  unfold Coverage.print_step, Coverage.print_success, Coverage.print_warning,
    CoverageRun.rmtree.
  destruct e; [|quiet]. apply io_then; [apply io_print | intros _].
  apply io_then; [|intros _; quiet].
  destruct (CoverageRun.rmtree_fault env build_dir); quiet.
Qed.

(** What [open_report] does, case by case. *)
Lemma open_report_spec (html_report : text) (w : world) (st : state) :
  let r := CoverageRun.open_report C describe env html_report w st in
  calls (snd r) = calls st ++ opener_calls env html_report /\
  fst r = match opener_calls env html_report with
          | rq :: _ => match w (calls st) rq with
                       | Hangs => Blocked
                       | _ => Done tt
                       end
          | [] => Done tt
          end.
Proof.
  cbv zeta. unfold CoverageRun.open_report, opener_calls, CoverageRun.startfile,
    CoverageRun.run_checked, coverage_call.
  unfold bind at 1. unfold Coverage.print_step at 1. rewrite print_line_spec.
  unfold try_except, bind, run_plain, finish, Coverage.print_success,
    Coverage.print_warning, print, ret, raise.
  destruct (CoverageRun.windows env).
  - destruct (CoverageRun.startfile_fault env html_report);
      cbn -[Z.eqb]; now rewrite app_nil_r.
  - destruct (text_eqb (CoverageRun.system env) (str "Darwin"));
      cbn -[Z.eqb];
      match goal with |- context [w ?h ?rq] =>
        destruct (w h rq) as [d rc out err| |m|d rc m]
      end; cbn -[Z.eqb]; try (split; reflexivity);
      destruct (negb (rc =? 0)%Z); cbn; split; reflexivity.
Qed.

Lemma io_open_report (html_report : text) :
  in_order (opener_calls env html_report)
           (CoverageRun.open_report C describe env html_report).
Proof.
  intros w st. destruct (open_report_spec html_report w st) as [Hc _].
  exists (opener_calls env html_report).
  split; [exact Hc|]. split; [apply prefix_of_refl | reflexivity].
Qed.

Lemma io_abort (A : Type) (s : list request) (item : text) (e : exn) :
  in_order s (bind (print item) (fun _ => @raise A e)).
Proof.
  intros w st. exists []. cbn. rewrite app_nil_r.
  split; [reflexivity|]. split; [apply prefix_of_nil | discriminate].
Qed.

Lemma io_print_results (build_dir : text) (open_browser : bool) :
  in_order (if open_browser
            then opener_calls env (CoverageRun.html_report_of build_dir) else [])
           (CoverageRun.print_results C describe env build_dir open_browser).
Proof.
  unfold CoverageRun.print_results.
  apply io_then; [apply io_print_header | intros _].
  apply io_then; [apply io_exists | intros e].
  apply io_before; [|intros _; quiet].
  destruct e.
  - unfold Coverage.print_success, Coverage.print_step.
    do 7 (apply io_then; [apply io_print | intros _]).
    destruct open_browser; [|apply io_ret].
    apply io_then; [apply io_print | intros _]. apply io_open_report.
  - unfold Coverage.print_error. apply io_abort.
Qed.

Variable project_root : text.

(** The steps of [main] after validation. *)
Lemma io_after_validation (args : CoverageRun.arguments) (toolchain : text) :
  let build_dir := PathJoin.joinpath project_root (str "build") in
  in_order (pipeline env args project_root toolchain)
    (bind (if CoverageRun.clean args
           then CoverageRun.clean_build_directory C env build_dir else ret tt)
       (fun _ =>
        bind (if negb (CoverageRun.no_build args)
              then bind (Coverage.configure_cmake C project_root build_dir toolchain)
                     (fun _ => bind (Coverage.build_project C build_dir)
                        (fun _ => bind (Coverage.clean_coverage_data C build_dir)
                           (fun _ => CoverageRun.run_coverage C env build_dir)))
              else bind (Coverage.print_header C (str "Skipping Build (--no-build)"))
                     (fun _ => bind (Coverage.print_step C
                                  (str "Regenerating coverage report from existing data..."))
                        (fun _ => CoverageRun.run_coverage C env build_dir)))
          (fun _ =>
           bind (CoverageRun.display_summary C env build_dir)
             (fun _ =>
              bind (CoverageRun.print_results C describe env build_dir
                      (CoverageRun.open args))
                (fun _ => Coverage.print_header C (str "Coverage Analysis Complete")))))).
Proof.
  intros build_dir.
  apply io_then.
  { destruct (CoverageRun.clean args); [apply io_clean_build | apply io_ret]. }
  intros _.
  assert (Hseq : pipeline env args project_root toolchain =
            ((if CoverageRun.no_build args then []
              else [configure_call project_root build_dir toolchain;
                    build_call build_dir; coverage_clean_call build_dir])
             ++ [coverage_html_call build_dir])
            ++ ([summary_call env build_dir]
                ++ (if CoverageRun.open args
                    then opener_calls env (CoverageRun.html_report_of build_dir)
                    else []))).
  { unfold pipeline. fold build_dir. now rewrite <- !app_assoc. }
  rewrite Hseq. apply io_bind.
  { destruct (CoverageRun.no_build args); cbn [negb app].
    - apply io_then; [apply io_print_header | intros _].
      apply io_then; [apply io_print | intros _]. apply io_run_coverage.
    - apply (io_bind _ _ [_] [_; _; _]); [apply io_configure | intros _].
      apply (io_bind _ _ [_] [_; _]); [apply io_build | intros _].
      apply (io_bind _ _ [_] [_]); [apply io_coverage_clean | intros _].
      apply io_run_coverage. }
  intros _. apply io_bind; [apply io_display_summary | intros _].
  apply io_before; [apply io_print_results | intros _; apply io_print_header].
Qed.

Variable parse_args : list text -> parse_outcome CoverageRun.arguments.

(** X24. The processes that a coverage run starts are, in this order, an
    initial segment of: cmake configure, cmake build, the coverage-clean
    target, the coverage-html target, llvm-cov report and, with --open, the
    browser opener (none on Windows); with --no-build the first three are left
    out.  The toolchain file passed to the configure call is the one that the
    validation found.  When [main] returns, all of them were started. *)
Theorem X24_pipeline_order (sys_argv : list text) (args : CoverageRun.arguments)
    (w : world) (st : state)
    (Hparse : parse_args (tl sys_argv) = Parsed args) :
  let r := CoverageRun.main C describe env project_root parse_args sys_argv w st in
  let toolchain := chosen_toolchain env (calls st) in
  exists new,
    calls (snd r) = calls st ++ new /\
    prefix_of new (pipeline env args project_root toolchain) /\
    (forall a, fst r = Done a -> new = pipeline env args project_root toolchain).
Proof.
  cbv zeta.
  remember (CoverageRun.main C describe env project_root parse_args sys_argv w st)
    as r eqn:Er.
  unfold CoverageRun.main in Er. rewrite Hparse in Er.
  unfold bind at 1 in Er. rewrite print_line_spec in Er.
  unfold bind at 1 in Er. rewrite print_line_spec in Er.
  unfold bind at 1 in Er. rewrite print_line_spec in Er.
  unfold bind at 1 in Er.
  match type of Er with context [CoverageRun.validate_environment C env w ?s] =>
    destruct (validate_environment_result w s) as [more E]; rewrite E in Er;
    change (calls s) with (calls st) in Er
  end.
  unfold chosen_toolchain.
  destruct (located env (calls st)) as [t|];
    [destruct (forallb (tool_found env) required_tools)|].
  - match type of Er with context [after_print ?s (checked_lines C env ++ more)] =>
      destruct (io_after_validation args t w
                  (after_print s (checked_lines C env ++ more)))
        as (new & Cn & Pn & Dn)
    end.
    exists new. subst r. split; [exact Cn|]. split; [exact Pn | exact Dn].
  - exists []. subst r. cbn [fst snd calls after_print]. rewrite app_nil_r.
    split; [reflexivity|]. split; [apply prefix_of_nil | discriminate].
  - exists []. subst r. cbn [fst snd calls after_print]. rewrite app_nil_r.
    split; [reflexivity|]. split; [apply prefix_of_nil | discriminate].
Qed.



(** X27. The summary is a soft step: once llvm-cov has ended with output that
    can be decoded, the step returns; it prints the tool's output when the
    exit status is 0 and two warnings otherwise.  Only output that cannot be
    decoded, a tool that cannot be started and a tool that hangs make it
    raise or wait, after the banner and the step line. *)
Theorem X27_summary_is_soft (build_dir : text) (w : world) (st : state) :
  let rq := summary_call env build_dir in
  let said := banner C (str "Coverage Summary")
                ++ [step_line C (str "Generating coverage summary...")] in
  CoverageRun.display_summary C env build_dir w st =
  match w (calls st) rq with
  | Exits _ rc out _ =>
      (Done tt,
       after_call st
         (said ++ (if (rc =? 0)%Z then [out]
                   else [warning_line C
                           (str "Could not generate detailed summary (profdata may have format issues)");
                         warning_line C (str "HTML report should still be available")]))
         rq)
  | Garbles _ _ m => (Raised (UnicodeDecodeError m), after_call st said rq)
  | CannotLaunch m => (Raised (OSError m), after_call st said rq)
  | Hangs => (Blocked, after_call st said rq)
  end.
Proof.
  cbv zeta. unfold CoverageRun.display_summary.
  unfold bind at 1. rewrite print_header_spec.
  unfold bind at 1. unfold Coverage.print_step at 1. rewrite print_line_spec.
  unfold bind at 1. rewrite coverage_run_command_spec.
  cbn [calls after_print]. fold (summary_call env build_dir).
  destruct (w (calls st) (summary_call env build_dir)) as [d rc out err| |m|d rc m];
    cbn [andb returncode stdout]; [destruct (rc =? 0)%Z| | |];
    unfold bind, Coverage.print_warning, print, warning_line, step_line,
      after_call, after_print;
    cbn [console calls]; rewrite ?app_nil_r; rewrite <- ?app_assoc; reflexivity.
Qed.

(** X28. Opening the report never fails a run: the step raises nothing, it
    returns unless the opener itself hangs, and it starts at most one process
    (none on Windows); a fault is only reported as a warning. *)
Theorem X28_open_report_never_raises (html_report : text) (w : world) (st : state) :
  let r := CoverageRun.open_report C describe env html_report w st in
  (fst r = Done tt \/ fst r = Blocked) /\
  calls (snd r) = calls st ++ opener_calls env html_report /\
  length (opener_calls env html_report) <= 1 /\
  (CoverageRun.windows env = true -> opener_calls env html_report = []) /\
  (fst r = Blocked ->
   exists rq, opener_calls env html_report = [rq] /\ w (calls st) rq = Hangs).
Proof.
  intros r. destruct (open_report_spec html_report w st) as [Hc Hf].
  fold r in Hc, Hf. split; [|split; [exact Hc|]].
  - rewrite Hf. destruct (opener_calls env html_report) as [|rq l]; [now left|].
    destruct (w (calls st) rq); auto.
  - split; [|split].
    + unfold opener_calls. destruct (CoverageRun.windows env); [simpl; lia|].
      destruct (text_eqb _ _); simpl; lia.
    + intros H. unfold opener_calls. now rewrite H.
    + rewrite Hf. unfold opener_calls. destruct (CoverageRun.windows env); [discriminate|].
      destruct (text_eqb _ _);
        match goal with |- context [w ?h ?rq] =>
          destruct (w h rq) eqn:E; try discriminate; intros _; now exists rq
        end.
Qed.

(** *** Which runs go through *)



























End CoverageRunFacts.

Lemma X24_pipeline_order_witness :
  let args := {| CoverageRun.clean := false; CoverageRun.open := true;
                 CoverageRun.no_build := false |} in
  let r := CoverageRun.main no_colors (fun _ => []) linux_box (str "/repo")
             (fun _ => Parsed args) [str "run-coverage.py"; str "--open"]
             (every_tool_ends 0 (str "ok")) Proc.start in
  fst r = Proc.Done tt /\
  Proc.calls (snd r) =
    [configure_call (str "/repo") (str "/repo/build")
       (str "/opt/vcpkg/scripts/buildsystems/vcpkg.cmake");
     build_call (str "/repo/build");
     coverage_clean_call (str "/repo/build");
     coverage_html_call (str "/repo/build");
     summary_call linux_box (str "/repo/build");
     coverage_call [str "xdg-open"; str "/repo/build/coverage/html/index.html"] true].
Proof.
  intros args r.
  destruct (X24_pipeline_order no_colors (fun _ => []) linux_box (str "/repo")
              (fun _ => Parsed args) [str "run-coverage.py"; str "--open"] args
              (every_tool_ends 0 (str "ok")) Proc.start eq_refl)
    as (new & Hc & _ & Hd).
  fold r in Hc, Hd.
  assert (Hr : fst r = Proc.Done tt) by (vm_compute; reflexivity).
  split; [exact Hr|]. rewrite Hc, (Hd tt Hr). vm_compute. reflexivity.
Defined.



Lemma X27_summary_is_soft_witness :
  fst (CoverageRun.display_summary no_colors linux_box (str "build")
         (every_tool_ends 1 (str "error: malformed profile")) Proc.start)
  = Proc.Done tt.
Proof.
  rewrite (X27_summary_is_soft no_colors linux_box (str "build")
             (every_tool_ends 1 (str "error: malformed profile")) Proc.start).
  reflexivity.
Defined.

